(** * GridView live-timing core: prediction ensemble and payload decoding

    A shallow embedding of parts of the GridView repository and of the
    statements made about them:
    - the win-probability model (position baseline, pace differential,
      strategy projection, safety-car adjustment, ensemble combination and
      confidence interval);
    - [decompress], which turns the base64 text of a [.z] timing topic into
      a JSON document, and the IndyCar polling functions.

    Conventions of the embedding:
    - Python [int] is [Z]; Python [float] is an exact rational [Q], except
      for the one place where the source produces [float('inf')], which
      gets the two-constructor type [xfloat]. Rounding is not modelled in
      this reading; statements that depend on which side of a threshold a
      computed value falls are made on the binary64 reading of
      [pace_adjustment] in module [B64] instead;
    - Python [str] is [string], [bytes] is [list byte], a Python list is a
      [list];
    - a Python exception is a value of [exn] in the error monad [sum exn]
      of ExtLib ([inl e] is a raised exception, [inr v] a returned value);
    - numerical equality of rationals is [==] ([Qeq]); Leibniz equality
      [=] is used where the code returns a literal unchanged;
    - where it matters that the arguments are references to mutable
      objects, module [Obj] runs the same functions on a store of objects;
    - the library calls of [decompress] are a record of functions with
      their round-trip contracts; the model of those libraries written
      from their formats covers stored deflate blocks and the Huffman
      decoder, integers and strings of code points up to U+00FF. *)

From Stdlib Require Import ZArith NArith QArith Qabs String Ascii List Bool.
From Stdlib Require Import Lia Lqa DecimalString DecimalZ DecimalPos.
From Stdlib Require Import Permutation SpecFloat.
From Stdlib.Strings Require Import Byte.
From ExtLib Require Import Structures.Monad Structures.MonadExc.
From ExtLib Require Import Data.Monads.EitherMonad.
Import ListNotations MonadNotation.

Local Open Scope monad_scope.
Local Open Scope string_scope.
Local Open Scope Z_scope.
Local Open Scope Q_scope.

(** ** Python primitives used by the model *)

Module Py.

(** The exceptions the modelled code can raise: [IndexError] and
    [ZeroDivisionError] in the prediction model, [binascii.Error],
    [zlib.error], [UnicodeDecodeError] and [json.JSONDecodeError] in the
    payload decoder. *)
Inductive exn : Set :=
| IndexError
| ZeroDivisionError
| BinasciiError
| ZlibError
| UnicodeDecodeError
| JSONDecodeError.

(** A computation that returns an [A] or raises. *)
Definition M (A : Type) : Type := sum exn A.

#[global] Instance Monad_M : Monad M := Monad_either exn.
#[global] Instance Exception_M : MonadExc exn M := Exception_either exn.

(** [a < b] on floats, as a test. *)
Definition ltb (a b : Q) : bool := (Qnum a * QDen b <? Qnum b * QDen a)%Z.

(** [a == b] and [a != b] on floats. *)
Definition eqb (a b : Q) : bool := Qeq_bool a b.
Definition neb (a b : Q) : bool := negb (Qeq_bool a b).

(** The built-ins [max(a, b)] and [min(a, b)]: the first argument is kept
    unless the second is strictly larger (resp. smaller). *)
Definition max (a b : Q) : Q := if ltb a b then b else a.
Definition min (a b : Q) : Q := if ltb b a then b else a.

(** [a / b] on floats: a zero divisor raises. *)
Definition truediv (a b : Q) : M Q :=
  if eqb b 0 then raise ZeroDivisionError else ret (a / b).

(** [l[i]]: a negative index counts from the end, an index out of range
    raises. *)
Definition getitem {A : Type} (l : list A) (i : Z) : M A :=
  let n := Z.of_nat (length l) in
  let j := if (i <? 0)%Z then (i + n)%Z else i in
  if ((j <? 0) || (n <=? j))%Z then raise IndexError
  else match nth_error l (Z.to_nat j) with
       | Some x => ret x
       | None => raise IndexError
       end.

(** [[x] * k]: the empty list when [k <= 0]. *)
Definition replicate {A : Type} (x : A) (k : Z) : list A :=
  repeat x (Z.to_nat k).

(** [len(l)]. *)
Definition len {A : Type} (l : list A) : Z := Z.of_nat (length l).

(** [str(n)] for an int. *)
Definition str (n : Z) : string := NilZero.string_of_int (Z.to_int n).

(** [s in l] for a list of strings. *)
Definition contains (s : string) (l : list string) : bool :=
  existsb (String.eqb s) l.

(** Nearest integer, ties to the even one. *)
Definition round_half_even (q : Q) : Z :=
  let n := Qnum q in
  let d := Zpos (Qden q) in
  let fl := (n / d)%Z in
  let r2 := (2 * (n mod d))%Z in
  if (r2 <? d)%Z then fl
  else if (d <? r2)%Z then (fl + 1)%Z
  else if Z.even fl then fl else (fl + 1)%Z.

(** The format specification [+.1%]: sign, the value times 100 with one
    decimal, and a percent sign. *)
Definition format_signed_percent1 (x : Q) : string :=
  let t := round_half_even (Qabs x * 1000) in
  (if ltb x 0 then "-" else "+")
    ++ str (t / 10) ++ "." ++ str (t mod 10) ++ "%".

(** A float that may be [float('inf')]. *)
Inductive xfloat : Set :=
| Fin (q : Q)
| PosInf.

(** [x < b] for a possibly infinite [x] and a finite [b]. *)
Definition xltb (x : xfloat) (b : Q) : bool :=
  match x with
  | Fin q => ltb q b
  | PosInf => false
  end.

End Py.

(** ** Data model *)

(** [class DriverState]. [rolling_pace_5lap] is the derived feature read by
    [pace_adjustment] as an attribute of the driver. *)
Record DriverState : Type := mkDriverState {
  driver_id : string;
  position : Z;
  gap_to_leader : Q;
  gap_to_ahead : Q;
  last_lap_time : Q;
  best_lap_time : Q;
  lap_times_history : list Q;
  tire_compound : string;
  tire_age_laps : Z;
  pit_stops_completed : Z;
  is_on_track : bool;
  in_pit_lane : bool;
  status : string;
  rolling_pace_5lap : Q
}.

Record WeatherState : Type := mkWeatherState {
  rain_chance : Q;
  track_temp : Q;
  air_temp : Q
}.

(** [class RaceState]. *)
Record RaceState : Type := mkRaceState {
  current_lap : Z;
  total_laps : Z;
  race_progress : Q;
  drivers : list DriverState;
  flag_status : string;
  weather : WeatherState
}.

(** [TrackConfig]: the class is not declared in the source; these are the
    fields the track profiles set. *)
Record TrackConfig : Type := mkTrackConfig {
  overtake_difficulty : Q;
  pit_time_loss : Q;
  typical_stint : list (string * Z);
  safety_car_probability : Q;
  drs_effectiveness : option Q
}.

(** [PredictionResult]: the class is not declared in the source; these are
    the fields [compute_win_probability] sets. An entry of [key_factors] is
    a string or [None]. *)
Record PredictionResult : Type := mkPredictionResult {
  pr_driver_id : string;
  win_probability : Q;
  confidence_interval_of : Q * Q;
  key_factors : list (option string)
}.

(** ** Component 1: position-based probability *)

(** The local [weights] of [position_baseline]: the table is chosen by
    [laps_remaining > 20], else [laps_remaining > 10], else the last one,
    and is padded to the field size. *)
Definition baseline_weights (laps_remaining total_drivers : Z) : list Q :=
  if (20 <? laps_remaining)%Z then
    ([0.65; 0.18; 0.08; 0.04; 0.02]
       ++ Py.replicate 0.01 (total_drivers - 5))%list
  else if (10 <? laps_remaining)%Z then
    ([0.75; 0.14; 0.06; 0.03; 0.01]
       ++ Py.replicate 0.005 (total_drivers - 5))%list
  else
    ([0.85; 0.10; 0.03; 0.015; 0.005]
       ++ Py.replicate 0.001 (total_drivers - 5))%list.

(** [position_baseline(position, laps_remaining, total_drivers)];
    [weights[position - 1]] is a Python list access. *)
Definition position_baseline (position laps_remaining total_drivers : Z)
  : Py.M Q :=
  let weights := baseline_weights laps_remaining total_drivers in
  if (position <=? Py.len weights)%Z then Py.getitem weights (position - 1)
  else ret 0.001.

(** ** Component 2: pace differential adjustment *)

(** The local [laps_to_catch] of [pace_adjustment]: the quotient is taken
    only when [pace_delta > 0]. *)
Definition laps_to_catch (gap_to_leader pace_delta : Q) : Py.M Py.xfloat :=
  if Py.ltb 0 pace_delta then
    q <- Py.truediv gap_to_leader pace_delta ;; ret (Py.Fin q)
  else ret Py.PosInf.

(** [pace_adjustment(driver, leader, gap_to_leader, laps_remaining,
    track_difficulty)]. *)
Definition pace_adjustment (driver leader : DriverState) (gap_to_leader : Q)
    (laps_remaining : Z) (track_difficulty : Q) : Py.M Q :=
  let pace_delta := rolling_pace_5lap leader - rolling_pace_5lap driver in
  ltc <- laps_to_catch gap_to_leader pace_delta ;;
  let can_catch := Py.xltb ltc (inject_Z laps_remaining * 0.9) in
  let overtake_factor := 1.0 - (track_difficulty * 0.5) in
  if Py.ltb 0.5 pace_delta then
    ret (if can_catch then 0.15 * overtake_factor else 0.02)
  else if Py.ltb 0.2 pace_delta then
    ret (if can_catch then 0.08 * overtake_factor else 0.01)
  else if Py.ltb pace_delta (- 0.3) then
    ret (- 0.10)
  else ret 0.0.

(** ** Component 3: strategy projection *)

(** The dictionary [tire_life] with [.get(compound, 25)]. *)
Definition tire_life : list (string * Z) :=
  [("SOFT", 15); ("MEDIUM", 25); ("HARD", 35);
   ("PRIMARY", 30); ("ALTERNATE", 35)]%Z.

Fixpoint dict_get (d : list (string * Z)) (k : string) (default : Z) : Z :=
  match d with
  | [] => default
  | (k', v) :: rest => if String.eqb k k' then v else dict_get rest k default
  end.

(** [estimate_remaining_stops(driver, laps_remaining)]; [//] is floor
    division and every stint length of the table is positive. *)
Definition estimate_remaining_stops (driver : DriverState) (laps_remaining : Z)
  : Z :=
  let max_stint := dict_get tire_life (tire_compound driver) 25 in
  let laps_on_current := tire_age_laps driver in
  let remaining_on_current := (max_stint - laps_on_current)%Z in
  if (laps_remaining <=? remaining_on_current)%Z then 0%Z
  else
    let laps_after_stop := (laps_remaining - remaining_on_current)%Z in
    (1 + laps_after_stop / max_stint)%Z.

(** The [for competitor in competitors] loop of [strategy_projection]: the
    first competitor, in list order, that is one position behind the driver
    and whose tires are more than 5 laps younger; [None] when the loop runs
    to its end. *)
Fixpoint undercut_scan (driver : DriverState) (laps_remaining : Z)
    (competitors : list DriverState) : option DriverState :=
  match competitors with
  | [] => None
  | competitor :: rest =>
      if (position competitor =? position driver + 1)%Z then
        let expected_stops_comp :=
          estimate_remaining_stops competitor laps_remaining in
        if (tire_age_laps competitor <? tire_age_laps driver - 5)%Z
        then Some competitor
        else undercut_scan driver laps_remaining rest
      else undercut_scan driver laps_remaining rest
  end.

(** [strategy_projection(driver, competitors, laps_remaining,
    pit_time_loss)]. *)
Definition strategy_projection (driver : DriverState)
    (competitors : list DriverState) (laps_remaining : Z) (pit_time_loss : Q)
  : Py.M (Q * string) :=
  let expected_stops_driver := estimate_remaining_stops driver laps_remaining in
  match undercut_scan driver laps_remaining competitors with
  | Some competitor =>
      ret (- 0.05, "Undercut vulnerable to P" ++ Py.str (position competitor))
  | None =>
      if String.eqb (tire_compound driver) "HARD" && (1 <? position driver)%Z
      then
        leader <- Py.getitem competitors 0 ;;
        if Py.contains (tire_compound leader) ["SOFT"; "MEDIUM"]
           && (15 <? tire_age_laps leader)%Z
        then ret (0.05, "Overcut potential as leader on worn tires")
        else ret (0.0, "Strategy neutral")
      else ret (0.0, "Strategy neutral")
  end.

(** ** Component 4: safety car / caution model *)

(** [safety_car_adjustment(driver, flag_status, gap_to_leader,
    laps_remaining)]. *)
Definition safety_car_adjustment (driver : DriverState) (flag_status : string)
    (gap_to_leader : Q) (laps_remaining : Z) : Q :=
  if negb (Py.contains flag_status ["SC"; "VSC"; "YELLOW"]) then 0.0
  else if (position driver =? 1)%Z then - 0.10
  else if (position driver <=? 5)%Z then
    0.05 + inject_Z (5 - position driver) * 0.02
  else 0.02.

(** ** Ensemble combination *)

(** The local [confidence_width] of [compute_win_probability]. *)
Definition confidence_width (race_progress : Q) : Q :=
  0.25 * (1.0 - race_progress) + 0.05.

(** [compute_win_probability(driver, race_state, all_drivers,
    track_config)], statement by statement. *)
Definition compute_win_probability (driver : DriverState)
    (race_state : RaceState) (all_drivers : list DriverState)
    (track_config : TrackConfig) : Py.M PredictionResult :=
  let laps_remaining := (total_laps race_state - current_lap race_state)%Z in
  base_prob <-
    position_baseline (position driver) laps_remaining (Py.len all_drivers) ;;
  leader <- Py.getitem all_drivers 0 ;;
  pace_adj <-
    pace_adjustment driver leader (gap_to_leader driver) laps_remaining
      (overtake_difficulty track_config) ;;
  strat <-
    strategy_projection driver all_drivers laps_remaining
      (pit_time_loss track_config) ;;
  let strat_adj := fst strat in
  let strat_reason := snd strat in
  let sc_adj :=
    safety_car_adjustment driver (flag_status race_state)
      (gap_to_leader driver) laps_remaining in
  let raw_prob := base_prob + pace_adj + strat_adj + sc_adj in
  let confidence_width := confidence_width (race_progress race_state) in
  ret {| pr_driver_id := driver_id driver;
         win_probability := Py.max 0.001 (Py.min 0.99 raw_prob);
         confidence_interval_of :=
           (Py.max 0.0 (raw_prob - confidence_width),
            Py.min 1.0 (raw_prob + confidence_width));
         key_factors :=
           [ Some ("Position: P" ++ Py.str (position driver));
             Some ("Pace: " ++ Py.format_signed_percent1 pace_adj
                     ++ " adjustment");
             (if Py.neb strat_adj 0 then Some strat_reason else None);
             (if Py.ltb 0 sc_adj then Some "SC boost" else None) ] |}.

(** The local [raw_prob] of [compute_win_probability] as a function of the
    same arguments: the unclamped sum of the four components. *)
Definition raw_prob (driver : DriverState) (race_state : RaceState)
    (all_drivers : list DriverState) (track_config : TrackConfig) : Py.M Q :=
  let laps_remaining := (total_laps race_state - current_lap race_state)%Z in
  base_prob <-
    position_baseline (position driver) laps_remaining (Py.len all_drivers) ;;
  leader <- Py.getitem all_drivers 0 ;;
  pace_adj <-
    pace_adjustment driver leader (gap_to_leader driver) laps_remaining
      (overtake_difficulty track_config) ;;
  strat <-
    strategy_projection driver all_drivers laps_remaining
      (pit_time_loss track_config) ;;
  let sc_adj :=
    safety_car_adjustment driver (flag_status race_state)
      (gap_to_leader driver) laps_remaining in
  ret (base_prob + pace_adj + fst strat + sc_adj).

(** ** Confidence interval *)

(** The local [staleness_factor] and [total_width] of
    [confidence_interval]. *)
Definition staleness_factor (data_staleness : Q) : Q :=
  Py.min 0.10 (data_staleness / 60.0 * 0.05).

Definition total_width (race_progress data_staleness : Q) (has_pit_data : bool)
  : Q :=
  let progress_factor := 0.30 * (1.0 - race_progress) in
  let pit_factor := if negb has_pit_data then 0.05 else 0.0 in
  progress_factor + staleness_factor data_staleness + pit_factor + 0.05.

(** [confidence_interval(base_probability, race_progress, data_staleness,
    has_pit_data)]. The divisions are by the non-zero literals [60.0] and
    [2]. *)
Definition confidence_interval (base_probability race_progress
    data_staleness : Q) (has_pit_data : bool) : Q * Q :=
  let total_width := total_width race_progress data_staleness has_pit_data in
  let lower := Py.max 0.0 (base_probability - total_width / 2) in
  let upper := Py.min 1.0 (base_probability + total_width / 2) in
  (lower, upper).

(** ** Sample inputs *)

Definition sample_weather : WeatherState :=
  {| rain_chance := 0.1; track_temp := 35.0; air_temp := 24.0 |}.

Definition mk_driver (id : string) (pos : Z) (gap pace : Q) (compound : string)
    (age : Z) : DriverState :=
  {| driver_id := id; position := pos; gap_to_leader := gap;
     gap_to_ahead := gap; last_lap_time := pace; best_lap_time := pace;
     lap_times_history := [pace]; tire_compound := compound;
     tire_age_laps := age; pit_stops_completed := 1;
     is_on_track := true; in_pit_lane := false; status := "RUNNING";
     rolling_pace_5lap := pace |}.

(** The [monza] track profile. *)
Definition monza : TrackConfig :=
  {| overtake_difficulty := 0.40; pit_time_loss := 25.0;
     typical_stint := [("soft", 12); ("medium", 22); ("hard", 32)]%Z;
     safety_car_probability := 0.25; drs_effectiveness := Some 0.9 |}.

Definition mk_race (lap total : Z) (progress : Q) (ds : list DriverState)
    (flag : string) : RaceState :=
  {| current_lap := lap; total_laps := total; race_progress := progress;
     drivers := ds; flag_status := flag; weather := sample_weather |}.

(** The same race state under another flag. *)
Definition with_flag (race_state : RaceState) (flag : string) : RaceState :=
  {| current_lap := current_lap race_state;
     total_laps := total_laps race_state;
     race_progress := race_progress race_state;
     drivers := drivers race_state;
     flag_status := flag;
     weather := weather race_state |}.

(** A late-race field: the leader, a pace-equal second, and a backmarker half
    a second per lap slower. *)
Definition leader_ver : DriverState := mk_driver "VER" 1 0 80.0 "MEDIUM" 12.
Definition second_lec : DriverState := mk_driver "LEC" 2 2.0 80.0 "HARD" 10.
Definition sixth_bot : DriverState := mk_driver "BOT" 6 40.0 80.5 "HARD" 10.
Definition late_field : list DriverState := [leader_ver; second_lec; sixth_bot].
Definition late_race : RaceState := mk_race 45 50 0.9 late_field "GREEN".

(** ** Vocabulary of the statements *)

(** Catching is feasible when the driver is faster and the laps needed
    are fewer than 90% of the laps remaining. *)
Definition feasible (gap pace_delta : Q) (laps_remaining : Z) : Prop :=
  0 < pace_delta /\ gap / pace_delta < inject_Z laps_remaining * 0.9.

(** The caution-type flag states of the code. *)
Definition caution (flag : string) : Prop :=
  flag = "SC" \/ flag = "VSC" \/ flag = "YELLOW".

(** [c] threatens [driver] with an undercut: it runs directly behind on
    tires more than 5 laps younger. *)
Definition undercut_by (driver c : DriverState) : Prop :=
  position c = (position driver + 1)%Z
  /\ (tire_age_laps c < tire_age_laps driver - 5)%Z.

(** The overcut test of the code: the driver is on the hard compound and
    not first, and [leader] is on soft or medium tires older than 15 laps. *)
Definition overcut_on (driver leader : DriverState) : Prop :=
  tire_compound driver = "HARD"
  /\ (1 < position driver)%Z
  /\ (tire_compound leader = "SOFT" \/ tire_compound leader = "MEDIUM")
  /\ (15 < tire_age_laps leader)%Z.

(** The safety-car component as [compute_win_probability] evaluates it. *)
Definition sc_component (driver : DriverState) (race_state : RaceState) : Q :=
  safety_car_adjustment driver (flag_status race_state)
    (gap_to_leader driver)
    (total_laps race_state - current_lap race_state)%Z.

(** The values the four component calls of [compute_win_probability]
    return, with the leader [all_drivers[0]]. *)
Definition components_are (driver : DriverState) (race_state : RaceState)
    (all_drivers : list DriverState) (track_config : TrackConfig)
    (base : Q) (leader : DriverState) (pace : Q) (strat : Q * string) : Prop :=
  let laps_remaining := (total_laps race_state - current_lap race_state)%Z in
  position_baseline (position driver) laps_remaining (Py.len all_drivers)
  = inr base
  /\ Py.getitem all_drivers 0 = inr leader
  /\ pace_adjustment driver leader (gap_to_leader driver) laps_remaining
       (overtake_difficulty track_config) = inr pace
  /\ strategy_projection driver all_drivers laps_remaining
       (pit_time_loss track_config) = inr strat.

(** The record [compute_win_probability] builds from the component
    values. *)
Definition result_of (driver : DriverState) (race_state : RaceState)
    (base pace : Q) (strat : Q * string) : PredictionResult :=
  let raw := base + pace + fst strat + sc_component driver race_state in
  let width := confidence_width (race_progress race_state) in
  {| pr_driver_id := driver_id driver;
     win_probability := Py.max 0.001 (Py.min 0.99 raw);
     confidence_interval_of :=
       (Py.max 0.0 (raw - width), Py.min 1.0 (raw + width));
     key_factors :=
       [ Some ("Position: P" ++ Py.str (position driver));
         Some ("Pace: " ++ Py.format_signed_percent1 pace ++ " adjustment");
         (if Py.neb (fst strat) 0 then Some (snd strat) else None);
         (if Py.ltb 0 (sc_component driver race_state)
          then Some "SC boost" else None) ] |}.

(** ** The specification's wording, for comparison *)

(** The bucket labels as the specification words them: more than 20 laps,
    10 to 20 laps, fewer than 10 laps. The label "10 to 20" puts the value
    10 in the middle table. *)
Definition spec_bucket_weights (laps_remaining total_drivers : Z) : list Q :=
  if (20 <? laps_remaining)%Z then
    ([0.65; 0.18; 0.08; 0.04; 0.02]
       ++ Py.replicate 0.01 (total_drivers - 5))%list
  else if (10 <=? laps_remaining)%Z then
    ([0.75; 0.14; 0.06; 0.03; 0.01]
       ++ Py.replicate 0.005 (total_drivers - 5))%list
  else
    ([0.85; 0.10; 0.03; 0.015; 0.005]
       ++ Py.replicate 0.001 (total_drivers - 5))%list.

(** The overcut condition as the specification words it: the driver trails
    a leader whose tires are of a softer compound than the driver's own and
    materially older (older than 15 laps and more than 5 laps older than
    the driver's). *)
Definition compound_rank (compound : string) : option Z :=
  if String.eqb compound "SOFT" then Some 0%Z
  else if String.eqb compound "MEDIUM" then Some 1%Z
  else if String.eqb compound "HARD" then Some 2%Z
  else None.

Definition spec_overcut (driver leader : DriverState) : bool :=
  (1 <? position driver)%Z
  && match compound_rank (tire_compound leader),
           compound_rank (tire_compound driver) with
     | Some a, Some b => (a <? b)%Z
     | _, _ => false
     end
  && (15 <? tire_age_laps leader)%Z
  && (tire_age_laps driver + 5 <? tire_age_laps leader)%Z.

(** ** Decompression of [.z] topic payloads *)

(** [zlib.MAX_WBITS]. *)
Definition MAX_WBITS : Z := 15.

(** The library functions [decompress] and its inverse are built from, over
    a type [J] of JSON values: [base64.b64encode] / [b64decode], a raw
    deflate compressor / [zlib.decompress(data, wbits)], [str.encode] /
    [bytes.decode] and [json.dumps] / [json.loads]. A [bytes] object is a
    list of bytes, a [str] a string. *)
Record Codecs (J : Type) : Type := mkCodecs {
  b64encode : list byte -> string;
  b64decode : string -> Py.M (list byte);
  raw_deflate : list byte -> list byte;
  zlib_decompress : list byte -> Z -> Py.M (list byte);
  str_encode : string -> list byte;
  bytes_decode : list byte -> Py.M string;
  json_dumps : J -> string;
  json_loads : string -> Py.M J
}.

Arguments b64encode {J}.
Arguments b64decode {J}.
Arguments raw_deflate {J}.
Arguments zlib_decompress {J}.
Arguments str_encode {J}.
Arguments bytes_decode {J}.
Arguments json_dumps {J}.
Arguments json_loads {J}.

(** [decompress(data)]: base64 decode, inflate with [-zlib.MAX_WBITS], decode
    the bytes and parse the JSON text. *)
Definition decompress {J : Type} (lib : Codecs J) (data : string) : Py.M J :=
  compressed <- b64decode lib data ;;
  decompressed <- zlib_decompress lib compressed (- MAX_WBITS) ;;
  text <- bytes_decode lib decompressed ;;
  json_loads lib text.

(** Modelled from the spec: the repository has no compressor, the payloads
    come from the timing provider. A [.z] payload is the base64 encoding of
    the raw-deflate compression of the JSON serialization of a value. *)
Definition compress {J : Type} (lib : Codecs J) (v : J) : string :=
  b64encode lib (raw_deflate lib (str_encode lib (json_dumps lib v))).

(** The contracts of the library functions: each decoder undoes its
    encoder, the inflater when it is given the raw-deflate window bits. *)
Definition lawful {J : Type} (lib : Codecs J) : Prop :=
  (forall b, b64decode lib (b64encode lib b) = inr b)
  /\ (forall b, zlib_decompress lib (raw_deflate lib b) (- MAX_WBITS) = inr b)
  /\ (forall s, bytes_decode lib (str_encode lib s) = inr s)
  /\ (forall v, json_loads lib (json_dumps lib v) = inr v).

(** *** Bytes *)

Definition byte_val (b : byte) : N := Byte.to_N b.

Definition byte_of (n : N) : byte := byte_of_ascii (ascii_of_N n).

(** *** Base64 (RFC 4648, standard alphabet, with padding) *)

Definition b64_alphabet : string :=
  "ABCDEFGHIJKLMNOPQRSTUVWXYZabcdefghijklmnopqrstuvwxyz0123456789+/".

Definition b64_char (n : N) : ascii :=
  match String.get (N.to_nat n) b64_alphabet with
  | Some c => c
  | None => "="%char
  end.

Fixpoint index_from (c : ascii) (s : string) (i : N) : option N :=
  match s with
  | EmptyString => None
  | String d s' => if Ascii.eqb c d then Some i else index_from c s' (i + 1)%N
  end.

Definition b64_index (c : ascii) : option N := index_from c b64_alphabet 0%N.

(** Three bytes give four sextets; one or two trailing bytes give two or
    three, completed with [=]. *)
Fixpoint rfc_b64encode (bs : list byte) : string :=
  match bs with
  | [] => EmptyString
  | [a] =>
      let x := byte_val a in
      String (b64_char (x / 4))
        (String (b64_char ((x mod 4) * 16)) "==")
  | [a; b] =>
      let x := byte_val a in
      let y := byte_val b in
      String (b64_char (x / 4))
        (String (b64_char ((x mod 4) * 16 + y / 16))
           (String (b64_char ((y mod 16) * 4)) "="))
  | a :: b :: c :: rest =>
      let x := byte_val a in
      let y := byte_val b in
      let z := byte_val c in
      String (b64_char (x / 4))
        (String (b64_char ((x mod 4) * 16 + y / 16))
           (String (b64_char ((y mod 16) * 4 + z / 64))
              (String (b64_char (z mod 64)) (rfc_b64encode rest))))
  end%N.

Definition is_pad (c : ascii) : bool := Ascii.eqb c "="%char.

Definition is_empty (s : string) : bool :=
  match s with
  | EmptyString => true
  | String _ _ => false
  end.

(** Decoding of padded quadruples; anything else is [binascii.Error]. *)
Fixpoint rfc_b64decode (s : string) : Py.M (list byte) :=
  match s with
  | EmptyString => ret []
  | String c0 (String c1 (String c2 (String c3 rest))) =>
      match b64_index c0, b64_index c1 with
      | Some s0, Some s1 =>
          let b0 := byte_of (s0 * 4 + s1 / 16) in
          if is_pad c2 then
            if is_pad c3 && is_empty rest then ret [b0]
            else raise Py.BinasciiError
          else
            match b64_index c2 with
            | Some s2 =>
                let b1 := byte_of ((s1 mod 16) * 16 + s2 / 4) in
                if is_pad c3 then
                  if is_empty rest then ret [b0; b1]
                  else raise Py.BinasciiError
                else
                  match b64_index c3 with
                  | Some s3 =>
                      let b2 := byte_of ((s2 mod 4) * 64 + s3) in
                      tail <- rfc_b64decode rest ;;
                      ret (b0 :: b1 :: b2 :: tail)
                  | None => raise Py.BinasciiError
                  end
            | None => raise Py.BinasciiError
            end
      | _, _ => raise Py.BinasciiError
      end
  | _ => raise Py.BinasciiError
  end%N.

(** [base64.b64decode] in its default, non-validating mode first discards
    every character outside the alphabet and the padding sign. *)
Definition b64_keep (c : ascii) : bool :=
  match b64_index c with
  | Some _ => true
  | None => is_pad c
  end.

Fixpoint string_filter (f : ascii -> bool) (s : string) : string :=
  match s with
  | EmptyString => EmptyString
  | String c s' =>
      if f c then String c (string_filter f s') else string_filter f s'
  end.

Definition py_b64decode (s : string) : Py.M (list byte) :=
  rfc_b64decode (string_filter b64_keep s).

(** *** Inflate (RFC 1951) *)

(** The bits of a byte, least significant first, as the format packs
    them. *)
Definition bits_of_byte (b : byte) : list bool :=
  map (N.testbit (byte_val b)) [0; 1; 2; 3; 4; 5; 6; 7]%N.

Definition bits_of_bytes (bs : list byte) : list bool :=
  flat_map bits_of_byte bs.

(** An [n]-bit integer, least significant bit first. *)
Fixpoint read_bits (n : nat) (bits : list bool) : option (N * list bool) :=
  match n with
  | O => Some (0%N, bits)
  | S n' =>
      match bits with
      | [] => None
      | b :: rest =>
          match read_bits n' rest with
          | Some (v, rest') => Some (((if b then 1 else 0) + 2 * v)%N, rest')
          | None => None
          end
      end
  end.

Fixpoint read_bytes (n : nat) (bits : list bool)
  : option (list byte * list bool) :=
  match n with
  | O => Some ([], bits)
  | S n' =>
      match read_bits 8 bits with
      | Some (v, rest) =>
          match read_bytes n' rest with
          | Some (bs, rest') => Some (byte_of v :: bs, rest')
          | None => None
          end
      | None => None
      end
  end.

(** Skips to the next byte boundary of a bit sequence that ends on one. *)
Definition align (bits : list bool) : list bool :=
  skipn (length bits mod 8) bits.

(** A stored block: [LEN], its complement [NLEN], then [LEN] bytes. The
    output is kept in reverse. *)
Definition inflate_stored (bits : list bool) (out : list byte)
  : option (list bool * list byte) :=
  match read_bits 16 (align bits) with
  | Some (len, bits1) =>
      match read_bits 16 bits1 with
      | Some (nlen, bits2) =>
          if (len + nlen =? 65535)%N then
            match read_bytes (N.to_nat len) bits2 with
            | Some (data, bits3) => Some (bits3, (rev data ++ out)%list)
            | None => None
            end
          else None
      | None => None
      end
  | None => None
  end.

(** A canonical Huffman code: the number of codes of each length from 1 to
    15, and the symbols ordered by code length, then by value. *)
Record huffman : Type := mkHuffman {
  counts : list N;
  symbols : list N
}.

Definition symbols_of_length (lengths : list N) (len : N) : list N :=
  map (fun p => N.of_nat (fst p))
    (filter (fun p => (snd p =? len)%N)
       (combine (seq 0 (length lengths)) lengths)).

Definition code_lengths_1_15 : list N :=
  [1; 2; 3; 4; 5; 6; 7; 8; 9; 10; 11; 12; 13; 14; 15]%N.

Definition mk_huffman (lengths : list N) : huffman :=
  {| counts :=
       map (fun len => N.of_nat (length (symbols_of_length lengths len)))
         code_lengths_1_15;
     symbols := flat_map (symbols_of_length lengths) code_lengths_1_15 |}.

(** Reads one symbol: code bits arrive most significant first; [first] is
    the first code of the current length and [index] the rank of its
    symbol. *)
Fixpoint decode_from (cnts : list N) (syms : list N) (code first index : N)
    (bits : list bool) : option (N * list bool) :=
  match cnts with
  | [] => None
  | count :: cnts' =>
      match bits with
      | [] => None
      | b :: rest =>
          let code := (code + if b then 1 else 0)%N in
          if (code <? first + count)%N then
            match nth_error syms (N.to_nat (index + (code - first))) with
            | Some s => Some (s, rest)
            | None => None
            end
          else
            decode_from cnts' syms (2 * code)%N (2 * (first + count))%N
              (index + count)%N rest
      end
  end.

Definition decode_symbol (h : huffman) (bits : list bool)
  : option (N * list bool) :=
  decode_from (counts h) (symbols h) 0%N 0%N 0%N bits.

(** Base values and extra bits of the length symbols 257..285 and of the
    distance symbols 0..29. *)
Definition length_base : list N :=
  [3; 4; 5; 6; 7; 8; 9; 10; 11; 13; 15; 17; 19; 23; 27; 31; 35; 43; 51; 59;
   67; 83; 99; 115; 131; 163; 195; 227; 258]%N.

Definition length_extra : list nat :=
  [0; 0; 0; 0; 0; 0; 0; 0; 1; 1; 1; 1; 2; 2; 2; 2; 3; 3; 3; 3; 4; 4; 4; 4;
   5; 5; 5; 5; 0]%nat.

Definition dist_base : list N :=
  [1; 2; 3; 4; 5; 7; 9; 13; 17; 25; 33; 49; 65; 97; 129; 193; 257; 385; 513;
   769; 1025; 1537; 2049; 3073; 4097; 6145; 8193; 12289; 16385; 24577]%N.

Definition dist_extra : list nat :=
  [0; 0; 0; 0; 1; 1; 2; 2; 3; 3; 4; 4; 5; 5; 6; 6; 7; 7; 8; 8; 9; 9; 10; 10;
   11; 11; 12; 12; 13; 13]%nat.

(** Appends [n] bytes, each copied from [dist] bytes back in the output
    (kept in reverse), so that a copy may overlap what it writes. *)
Fixpoint copy_back (n : nat) (dist : nat) (out : list byte) : list byte :=
  match n with
  | O => out
  | S n' =>
      match nth_error out (dist - 1) with
      | Some b => copy_back n' dist (b :: out)
      | None => out
      end
  end.

(** The symbols of a compressed block, up to the end-of-block symbol 256.
    [window] bounds the distance of a copy. *)
Fixpoint inflate_codes (fuel : nat) (window : N) (lit dist : huffman)
    (bits : list bool) (out : list byte) : option (list bool * list byte) :=
  match fuel with
  | O => None
  | S fuel' =>
      match decode_symbol lit bits with
      | None => None
      | Some (sym, bits1) =>
          if (sym <? 256)%N then
            inflate_codes fuel' window lit dist bits1 (byte_of sym :: out)
          else if (sym =? 256)%N then Some (bits1, out)
          else
            let i := N.to_nat (sym - 257) in
            match nth_error length_base i, nth_error length_extra i with
            | Some lbase, Some lextra =>
                match read_bits lextra bits1 with
                | None => None
                | Some (e1, bits2) =>
                    match decode_symbol dist bits2 with
                    | None => None
                    | Some (dsym, bits3) =>
                        match nth_error dist_base (N.to_nat dsym),
                              nth_error dist_extra (N.to_nat dsym) with
                        | Some dbase, Some dextra =>
                            match read_bits dextra bits3 with
                            | None => None
                            | Some (e2, bits4) =>
                                let d := (dbase + e2)%N in
                                if ((N.of_nat (length out) <? d)
                                    || (window <? d))%N
                                then None
                                else
                                  inflate_codes fuel' window lit dist bits4
                                    (copy_back (N.to_nat (lbase + e1))
                                       (N.to_nat d) out)
                            end
                        | _, _ => None
                        end
                    end
                end
            | _, _ => None
            end
      end
  end.

(** The codes of a fixed-Huffman block. *)
Definition fixed_lit : huffman :=
  mk_huffman
    (repeat 8%N 144 ++ repeat 9%N 112 ++ repeat 7%N 24 ++ repeat 8%N 8)%list.

Definition fixed_dist : huffman := mk_huffman (repeat 5%N 30).

(** The order in which a dynamic block stores the lengths of its
    code-length code. *)
Definition cl_order : list nat :=
  [16; 17; 18; 0; 8; 7; 9; 6; 10; 5; 11; 4; 12; 3; 13; 2; 14; 1; 15]%nat.

Fixpoint read_n_fields (n width : nat) (bits : list bool)
  : option (list N * list bool) :=
  match n with
  | O => Some ([], bits)
  | S n' =>
      match read_bits width bits with
      | Some (v, rest) =>
          match read_n_fields n' width rest with
          | Some (vs, rest') => Some (v :: vs, rest')
          | None => None
          end
      | None => None
      end
  end.

(** The length, in [0, 18], of each symbol of the code-length code, from
    the values read in [cl_order]. *)
Definition cl_lengths (read : list N) : list N :=
  map (fun sym =>
         match find (fun p => Nat.eqb (fst p) sym) (combine cl_order read) with
         | Some p => snd p
         | None => 0%N
         end)
    (seq 0 19).

(** The run-length coded code lengths of the literal and distance codes;
    [acc] holds the lengths read so far, last first. *)
Fixpoint read_code_lengths (fuel : nat) (total : nat) (cl : huffman)
    (bits : list bool) (acc : list N) : option (list N * list bool) :=
  match fuel with
  | O => None
  | S fuel' =>
      if (total <=? length acc)%nat then
        if (length acc =? total)%nat then Some (rev acc, bits) else None
      else
        match decode_symbol cl bits with
        | None => None
        | Some (sym, bits1) =>
            if (sym <? 16)%N then
              read_code_lengths fuel' total cl bits1 (sym :: acc)
            else if (sym =? 16)%N then
              match acc, read_bits 2 bits1 with
              | prev :: _, Some (e, bits2) =>
                  read_code_lengths fuel' total cl bits2
                    (repeat prev (N.to_nat (3 + e)) ++ acc)%list
              | _, _ => None
              end
            else if (sym =? 17)%N then
              match read_bits 3 bits1 with
              | Some (e, bits2) =>
                  read_code_lengths fuel' total cl bits2
                    (repeat 0%N (N.to_nat (3 + e)) ++ acc)%list
              | None => None
              end
            else
              match read_bits 7 bits1 with
              | Some (e, bits2) =>
                  read_code_lengths fuel' total cl bits2
                    (repeat 0%N (N.to_nat (11 + e)) ++ acc)%list
              | None => None
              end
        end
  end.

(** The header of a dynamic block: [HLIT], [HDIST], [HCLEN], the
    code-length code, then the two codes. *)
Definition read_dynamic_codes (bits : list bool)
  : option (huffman * huffman * list bool) :=
  match read_bits 5 bits with
  | None => None
  | Some (hlit, bits1) =>
      match read_bits 5 bits1 with
      | None => None
      | Some (hdist, bits2) =>
          match read_bits 4 bits2 with
          | None => None
          | Some (hclen, bits3) =>
              match read_n_fields (N.to_nat (hclen + 4)) 3 bits3 with
              | None => None
              | Some (read, bits4) =>
                  let nlit := N.to_nat (hlit + 257) in
                  let ndist := N.to_nat (hdist + 1) in
                  match read_code_lengths (S (length bits4)) (nlit + ndist)
                          (mk_huffman (cl_lengths read)) bits4 [] with
                  | None => None
                  | Some (lens, bits5) =>
                      Some (mk_huffman (firstn nlit lens),
                            mk_huffman (skipn nlit lens), bits5)
                  end
              end
          end
      end
  end.

(** The blocks of a stream, up to and including the one marked final:
    the output and the bits that follow the final block. *)
Fixpoint inflate_blocks (fuel : nat) (window : N) (bits : list bool)
    (out : list byte) : option (list byte * list bool) :=
  match fuel with
  | O => None
  | S fuel' =>
      match read_bits 1 bits with
      | None => None
      | Some (bfinal, bits1) =>
          match read_bits 2 bits1 with
          | None => None
          | Some (btype, bits2) =>
              let block :=
                if (btype =? 0)%N then inflate_stored bits2 out
                else if (btype =? 1)%N then
                  inflate_codes (S (length bits2)) window fixed_lit fixed_dist
                    bits2 out
                else if (btype =? 2)%N then
                  match read_dynamic_codes bits2 with
                  | Some (lit, dist, bits3) =>
                      inflate_codes (S (length bits3)) window lit dist bits3
                        out
                  | None => None
                  end
                else None in
              match block with
              | None => None
              | Some (bits3, out') =>
                  if (bfinal =? 1)%N then Some (rev out', bits3)
                  else inflate_blocks fuel' window bits3 out'
              end
          end
      end
  end.

Definition inflate_raw (window : N) (data : list byte)
  : option (list byte * list bool) :=
  let bits := bits_of_bytes data in
  inflate_blocks (S (length bits)) window bits [].

(** The Adler-32 checksum of the zlib wrapper. *)
Fixpoint adler32_from (a b : N) (data : list byte) : N :=
  match data with
  | [] => (b * 65536 + a)%N
  | x :: rest =>
      let a' := ((a + byte_val x) mod 65521)%N in
      adler32_from a' ((b + a') mod 65521)%N rest
  end.

Definition adler32 (data : list byte) : N := adler32_from 1 0 data.

(** A stream in the zlib wrapper (RFC 1950): a two-byte header, the deflate
    stream, and the big-endian Adler-32 of the output. *)
Definition inflate_zlib (wbits : N) (data : list byte) : option (list byte) :=
  match data with
  | cmf :: flg :: body =>
      let cmf := byte_val cmf in
      let flg := byte_val flg in
      if ((cmf mod 16 =? 8) && (cmf / 16 + 8 <=? wbits)
          && ((cmf * 256 + flg) mod 31 =? 0)
          && ((flg / 32) mod 2 =? 0))%N
      then
        match inflate_raw (2 ^ (cmf / 16 + 8))%N body with
        | Some (out, rest) =>
            match read_bytes 4 (align rest) with
            | Some ([c3; c2; c1; c0], _) =>
                if (((byte_val c3 * 256 + byte_val c2) * 256 + byte_val c1)
                    * 256 + byte_val c0 =? adler32 out)%N
                then Some out else None
            | _ => None
            end
        | None => None
        end
      else None
  | _ => None
  end.

(** [zlib.decompress(data, wbits)]. A [wbits] between -8 and -15 reads a raw
    deflate stream with a window of [2 ** -wbits] bytes and ignores what
    follows it; a [wbits] between 8 and 15 reads a stream in the zlib
    wrapper. The gzip and automatic modes ([wbits] 0 or above 15) are not
    part of this model and are reported as [zlib.error], like every
    malformed stream. *)
Definition py_zlib_decompress (data : list byte) (wbits : Z) : Py.M (list byte) :=
  if ((-15 <=? wbits) && (wbits <=? -8))%Z then
    match inflate_raw (2 ^ Z.to_N (- wbits)) data with
    | Some (out, _) => ret out
    | None => raise Py.ZlibError
    end
  else if ((8 <=? wbits) && (wbits <=? 15))%Z then
    match inflate_zlib (Z.to_N wbits) data with
    | Some out => ret out
    | None => raise Py.ZlibError
    end
  else raise Py.ZlibError.

(** *** A raw-deflate compressor: stored blocks *)

(** A 16-bit field, low byte first. *)
Definition le16 (n : N) : list byte :=
  [byte_of (n mod 256); byte_of (n / 256)]%N.

(** One stored block: the header byte (BFINAL in bit 0, BTYPE 00), LEN, NLEN
    and the data, at most 65535 bytes. *)
Definition stored_block (final : bool) (data : list byte) : list byte :=
  let len := N.of_nat (length data) in
  (byte_of (if final then 1 else 0) :: le16 len ++ le16 (65535 - len)
     ++ data)%list.

Definition max_stored : nat := N.to_nat 65535.

Fixpoint stored_blocks (fuel : nat) (data : list byte) : list byte :=
  match fuel with
  | O => stored_block true data
  | S fuel' =>
      if (length data <=? max_stored)%nat then stored_block true data
      else
        (stored_block false (firstn max_stored data)
           ++ stored_blocks fuel' (skipn max_stored data))%list
  end.

(** What a deflate compressor at level 0 emits: the input cut into stored
    blocks, the last one marked final. *)
Definition stored_deflate (data : list byte) : list byte :=
  stored_blocks (length data / max_stored) data.

(** *** Text encoding *)

(** A [str] is modelled by a [string] whose characters are the code points
    0 to 255. [str.encode()] writes UTF-8: one byte below 128, two bytes
    from 128. *)
Fixpoint utf8_encode (s : string) : list byte :=
  match s with
  | EmptyString => []
  | String c s' =>
      let n := N_of_ascii c in
      if (n <? 128)%N then byte_of n :: utf8_encode s'
      else byte_of (192 + n / 64) :: byte_of (128 + n mod 64) :: utf8_encode s'
  end.

(** [bytes.decode()]: the one- and two-byte sequences of the code points 0
    to 255; a malformed sequence, and a well-formed one for a code point
    beyond this model's strings, is [UnicodeDecodeError]. *)
Fixpoint utf8_decode (bs : list byte) : Py.M string :=
  match bs with
  | [] => ret EmptyString
  | b :: rest =>
      let n := byte_val b in
      if (n <? 128)%N then
        s <- utf8_decode rest ;; ret (String (ascii_of_N n) s)
      else
        match rest with
        | b' :: rest' =>
            let n' := byte_val b' in
            if ((194 <=? n) && (n <=? 195) && (128 <=? n') && (n' <? 192))%N
            then
              s <- utf8_decode rest' ;;
              ret (String (ascii_of_N ((n - 192) * 64 + (n' - 128))) s)
            else raise Py.UnicodeDecodeError
        | [] => raise Py.UnicodeDecodeError
        end
  end.

(** *** JSON *)

(** The values [json.loads] builds: [None], [bool], [int], [str], [list]
    and [dict] in insertion order. Numbers with a fraction or an exponent
    (Python floats) are outside this model. *)
#[local] Unset Elimination Schemes.
Inductive json : Type :=
| JNull
| JBool (b : bool)
| JInt (n : Z)
| JStr (s : string)
| JList (items : list json)
| JDict (members : list (string * json)).
#[local] Set Elimination Schemes.

Definition dquote : ascii := ascii_of_nat 34.
Definition backslash : ascii := ascii_of_nat 92.

Definition hex_char (n : N) : ascii :=
  match String.get (N.to_nat n) "0123456789abcdef" with
  | Some c => c
  | None => "0"%char
  end.

Definition hex_val (c : ascii) : option N :=
  match index_from c "0123456789abcdef" 0%N with
  | Some n => Some n
  | None => index_from c "ABCDEF" 10%N
  end.

(** One character of a string as [json.dumps] writes it, with the default
    [ensure_ascii=True]. *)
Definition escape_char (c : ascii) : string :=
  let n := N_of_ascii c in
  if Ascii.eqb c dquote then String backslash (String dquote EmptyString)
  else if Ascii.eqb c backslash then String backslash (String backslash EmptyString)
  else if (n =? 10)%N then String backslash "n"
  else if (n =? 13)%N then String backslash "r"
  else if (n =? 9)%N then String backslash "t"
  else if (n =? 8)%N then String backslash "b"
  else if (n =? 12)%N then String backslash "f"
  else if ((n <? 32) || (126 <? n))%N then
    String backslash
      (String "u" (String "0" (String "0"
         (String (hex_char (n / 16)) (String (hex_char (n mod 16)) EmptyString)))))
  else String c EmptyString.

Fixpoint escape (s : string) : string :=
  match s with
  | EmptyString => EmptyString
  | String c s' => escape_char c ++ escape s'
  end.

Definition quote (s : string) : string :=
  String dquote (escape s ++ String dquote EmptyString).

Fixpoint join (parts : list string) : string :=
  match parts with
  | [] => EmptyString
  | [x] => x
  | x :: rest => x ++ ", " ++ join rest
  end.

(** [json.dumps(v)] with its default separators. *)
Fixpoint dumps (v : json) : string :=
  match v with
  | JNull => "null"
  | JBool true => "true"
  | JBool false => "false"
  | JInt n => Py.str n
  | JStr s => quote s
  | JList items => "[" ++ join (map dumps items) ++ "]"
  | JDict members =>
      "{" ++ join (map (fun kv => quote (fst kv) ++ ": " ++ dumps (snd kv))
                     members) ++ "}"
  end.

(** One member of a dictionary as [dumps] writes it. *)
Definition member_text (kv : string * json) : string :=
  quote (fst kv) ++ ": " ++ dumps (snd kv).

Definition is_ws (c : ascii) : bool :=
  let n := N_of_ascii c in
  ((n =? 32) || (n =? 9) || (n =? 10) || (n =? 13))%N.

Fixpoint skip_ws (s : string) : string :=
  match s with
  | EmptyString => EmptyString
  | String c s' => if is_ws c then skip_ws s' else s
  end.

Definition push (c : ascii) (r : option (string * string))
  : option (string * string) :=
  match r with
  | Some (s, rest) => Some (String c s, rest)
  | None => None
  end.

(** The character a one-letter escape stands for. *)
Definition simple_escape (e : ascii) : option ascii :=
  if Ascii.eqb e dquote then Some dquote
  else if Ascii.eqb e backslash then Some backslash
  else if Ascii.eqb e "/" then Some "/"%char
  else if Ascii.eqb e "b" then Some (ascii_of_nat 8)
  else if Ascii.eqb e "f" then Some (ascii_of_nat 12)
  else if Ascii.eqb e "n" then Some (ascii_of_nat 10)
  else if Ascii.eqb e "r" then Some (ascii_of_nat 13)
  else if Ascii.eqb e "t" then Some (ascii_of_nat 9)
  else None.

Definition hex4 (h1 h2 h3 h4 : ascii) : option N :=
  match hex_val h1, hex_val h2, hex_val h3, hex_val h4 with
  | Some a, Some b, Some c, Some d => Some (((a * 16 + b) * 16 + c) * 16 + d)%N
  | _, _, _, _ => None
  end.

(** The characters of a string literal after its opening quote, and the
    text after its closing quote. A raw control character is rejected, as
    is an escape for a code point beyond this model's strings. *)
Fixpoint parse_chars (s : string) : option (string * string) :=
  match s with
  | EmptyString => None
  | String c rest =>
      if Ascii.eqb c dquote then Some (EmptyString, rest)
      else if Ascii.eqb c backslash then
        match rest with
        | EmptyString => None
        | String e rest' =>
            match simple_escape e with
            | Some x => push x (parse_chars rest')
            | None =>
                if Ascii.eqb e "u" then
                  match rest' with
                  | String h1 (String h2 (String h3 (String h4 rest''))) =>
                      match hex4 h1 h2 h3 h4 with
                      | Some n =>
                          if (n <? 256)%N
                          then push (ascii_of_N n) (parse_chars rest'')
                          else None
                      | None => None
                      end
                  | _ => None
                  end
                else None
            end
        end
      else if (N_of_ascii c <? 32)%N then None
      else push c (parse_chars rest)
  end.

Definition is_num_char (c : ascii) : bool :=
  Ascii.eqb c "-" || ((48 <=? N_of_ascii c) && (N_of_ascii c <=? 57))%N.

Fixpoint span_num (s : string) : string * string :=
  match s with
  | EmptyString => (EmptyString, EmptyString)
  | String c s' =>
      if is_num_char c then
        let (tok, rest) := span_num s' in (String c tok, rest)
      else (EmptyString, s)
  end.

(** A character that would turn an integer token into a float. *)
Definition starts_fraction (s : string) : bool :=
  match s with
  | EmptyString => false
  | String c _ => Ascii.eqb c "." || Ascii.eqb c "e" || Ascii.eqb c "E"
  end.

(** An integer in canonical form (or [-0]). *)
Definition parse_int (s : string) : option (json * string) :=
  let (tok, rest) := span_num s in
  match NilZero.int_of_string tok with
  | Some d =>
      let z := Z.of_int d in
      if (String.eqb (Py.str z) tok || String.eqb tok "-0")
         && negb (starts_fraction rest)
      then Some (JInt z, rest)
      else None
  | None => None
  end.

Fixpoint strip_prefix (p s : string) : option string :=
  match p with
  | EmptyString => Some s
  | String c p' =>
      match s with
      | String d s' => if Ascii.eqb c d then strip_prefix p' s' else None
      | EmptyString => None
      end
  end.

(** The elements of a non-empty array, from its first element on. *)
Fixpoint parse_elements (value : string -> option (json * string))
    (fuel : nat) (s : string) : option (list json * string) :=
  match fuel with
  | O => None
  | S fuel' =>
      match value s with
      | Some (v, rest) =>
          match skip_ws rest with
          | String c rest' =>
              if Ascii.eqb c "," then
                match parse_elements value fuel' (skip_ws rest') with
                | Some (vs, rest'') => Some (v :: vs, rest'')
                | None => None
                end
              else if Ascii.eqb c "]" then Some ([v], rest')
              else None
          | EmptyString => None
          end
      | None => None
      end
  end.

(** The members of a non-empty object, from its first key on. *)
Fixpoint parse_members (value : string -> option (json * string))
    (fuel : nat) (s : string) : option (list (string * json) * string) :=
  match fuel with
  | O => None
  | S fuel' =>
      match s with
      | String q s1 =>
          if Ascii.eqb q dquote then
            match parse_chars s1 with
            | Some (key, s2) =>
                match skip_ws s2 with
                | String colon s3 =>
                    if Ascii.eqb colon ":" then
                      match value (skip_ws s3) with
                      | Some (v, s4) =>
                          match skip_ws s4 with
                          | String c s5 =>
                              if Ascii.eqb c "," then
                                match parse_members value fuel' (skip_ws s5)
                                with
                                | Some (kvs, s6) => Some ((key, v) :: kvs, s6)
                                | None => None
                                end
                              else if Ascii.eqb c "}"
                              then Some ([(key, v)], s5)
                              else None
                          | EmptyString => None
                          end
                      | None => None
                      end
                    else None
                | EmptyString => None
                end
            | None => None
            end
          else None
      | EmptyString => None
      end
  end.

(** One JSON value at the head of the text, and the text after it. *)
Fixpoint parse_value (fuel : nat) (s : string) : option (json * string) :=
  match fuel with
  | O => None
  | S fuel' =>
      match s with
      | EmptyString => None
      | String c rest =>
          if Ascii.eqb c dquote then
            match parse_chars rest with
            | Some (x, rest') => Some (JStr x, rest')
            | None => None
            end
          else if Ascii.eqb c "[" then
            match skip_ws rest with
            | String d rest' =>
                if Ascii.eqb d "]" then Some (JList [], rest')
                else
                  match parse_elements (parse_value fuel') fuel'
                          (skip_ws rest) with
                  | Some (vs, rest'') => Some (JList vs, rest'')
                  | None => None
                  end
            | EmptyString => None
            end
          else if Ascii.eqb c "{" then
            match skip_ws rest with
            | String d rest' =>
                if Ascii.eqb d "}" then Some (JDict [], rest')
                else
                  match parse_members (parse_value fuel') fuel'
                          (skip_ws rest) with
                  | Some (kvs, rest'') => Some (JDict kvs, rest'')
                  | None => None
                  end
            | EmptyString => None
            end
          else if Ascii.eqb c "n" then
            match strip_prefix "null" s with
            | Some rest' => Some (JNull, rest')
            | None => None
            end
          else if Ascii.eqb c "t" then
            match strip_prefix "true" s with
            | Some rest' => Some (JBool true, rest')
            | None => None
            end
          else if Ascii.eqb c "f" then
            match strip_prefix "false" s with
            | Some rest' => Some (JBool false, rest')
            | None => None
            end
          else parse_int s
      end
  end.

(** [json.loads(s)]: one value, surrounded by optional whitespace. *)
Definition loads (s : string) : Py.M json :=
  match parse_value (S (String.length s)) (skip_ws s) with
  | Some (v, rest) =>
      if is_empty (skip_ws rest) then ret v else raise Py.JSONDecodeError
  | None => raise Py.JSONDecodeError
  end.

(** What may follow an integer token without changing it: the end of the
    text, or a character that is neither part of a number nor the start of
    a fraction or an exponent. *)
Definition int_stop (s : string) : bool :=
  match s with
  | EmptyString => true
  | String c _ => negb (is_num_char c) && negb (starts_fraction s)
  end.

(** *** The decoder with these libraries *)

Definition python_codecs : Codecs json :=
  {| b64encode := rfc_b64encode;
     b64decode := py_b64decode;
     raw_deflate := stored_deflate;
     zlib_decompress := py_zlib_decompress;
     str_encode := utf8_encode;
     bytes_decode := utf8_decode;
     json_dumps := dumps;
     json_loads := loads |}.

(** *** A timing payload *)

(** A [TimingData.z]-shaped document: three cars with position, gap,
    lap count and pit flag. *)
Definition timing_fixture : json :=
  JDict
    [("Lines",
      JDict
        [("1",
          JDict
            [("Position", JStr "1"); ("GapToLeader", JStr EmptyString);
             ("NumberOfLaps", JInt 45); ("InPit", JBool false)]);
         ("16",
          JDict
            [("Position", JStr "2"); ("GapToLeader", JStr "+2.041");
             ("NumberOfLaps", JInt 45); ("InPit", JBool false)]);
         ("77",
          JDict
            [("Position", JStr "6"); ("GapToLeader", JStr "+40.312");
             ("NumberOfLaps", JInt 45); ("InPit", JBool true)])]);
     ("Withheld", JNull);
     ("SessionPart", JList [JInt 1; JInt 2; JInt (-3)])].

(** The base64 text of that document serialized by [json.dumps] and
    compressed by zlib at its default level without header (one block
    with dynamic Huffman codes). *)
Definition timing_payload : string :=
  ("jc1BC8IgFMDxryJeszHd2qAvMAKpQUGH6GDsjQnmhrrT8Lv37LpBXR68P/p7"
    ++ "C5XagqdHslD+ne3oddCjxQULI7RR022UoDpwqaV0nt8vcJdeqil9LQ/YTrbV"
    ++ "AZdeGQ8RA69WntjwdiLLS/63WtcrtdpSyzwruPjFBjdDTOxdh2EA02GzszFY"
    ++ "ruA9HmiVSw8fnBHByL54xg8=")%string.

(** The same document compressed with the zlib header and checksum. *)
Definition timing_payload_wrapped : string :=
  ("eJyNzUELwiAUwPGvIl6zMd3aoC8wAqlBQYfoYOyNCeaGutPwu/fsukFdHrw/"
    ++ "+nsLldqCp0eyUP6d7eh10KPFBQsjtFHTbZSgOnCppXSe3y9wl16qKX0tD9hO"
    ++ "ttUBl14ZDxEDr1ae2PB2IstL/rda1yu12lLLPCu4+MUGN0NM7F2HYQDTYbOz"
    ++ "MViu4D0eaJVLDx+cEcHIvnjGD7f7WDY=")%string.

(** ** IndyCar polling *)


(** What the polling functions can raise: [NameError] for a name that is
    bound nowhere, [AttributeError] from [.get] on a value without that
    method, and whatever the request or the JSON parser raise. *)
Inductive poll_exn : Set :=
| NameError
| AttributeError
| URLError
| ValueError.

(** The names the Python snippets of the timing document bind at module
    level, by import, assignment or [def]. No snippet imports [time]. *)
Definition module_globals : list string :=
  ["F1SignalRClient"; "client"; "AlkamelSystemsClient"; "NASCARLiveFeed";
   "feed"; "state"; "IndyCarLiveFeed"; "urllib"; "json"; "INDYCAR_BASE";
   "fetch_json"; "is_session_active"; "get_live_standings"; "base64";
   "zlib"; "decompress"; "url"].

(** The built-in names the polling functions use. *)
Definition builtins : list string := ["int"].

(** Evaluating a global name: it is looked up among the module's globals,
    then among the built-ins, and raises [NameError] when it is in
    neither. *)
Definition load_name (name : string) : sum poll_exn unit :=
  if Py.contains name module_globals || Py.contains name builtins
  then ret tt else raise NameError.



Section Polling.

(** The world outside the snippet: the JSON documents [json.loads] returns
    (type [J]) with their [.get] method and truth value, the three default
    values the code passes, the network and the clock. *)
Variable J : Type.
Variable json_loads : list byte -> sum poll_exn J.
Variable get : J -> string -> J -> sum poll_exn J.
Variable truth : J -> bool.
Variables py_true empty_dict empty_list : J.
Variable urlopen : string -> sum poll_exn (list byte).
Variable now : Z.




End Polling.

(** ** Further vocabulary *)

(** The stint length [estimate_remaining_stops] assumes for a compound. *)
Definition max_stint_of (compound : string) : Z :=
  dict_get tire_life compound 25.

(** The five leading weights and the padding weight of the table chosen for
    a laps-remaining value. *)
Definition head_weights (laps_remaining : Z) : list Q :=
  if (20 <? laps_remaining)%Z then [0.65; 0.18; 0.08; 0.04; 0.02]
  else if (10 <? laps_remaining)%Z then [0.75; 0.14; 0.06; 0.03; 0.01]
  else [0.85; 0.10; 0.03; 0.015; 0.005].

Definition tail_weight (laps_remaining : Z) : Q :=
  if (20 <? laps_remaining)%Z then 0.01
  else if (10 <? laps_remaining)%Z then 0.005
  else 0.001.

(** The weight of a 1-based position in closed form: one of the five
    leading weights, the padding weight up to the field size, and the
    fallback value behind it. *)
Definition weight_at (position laps_remaining total_drivers : Z) : Q :=
  if (position <=? 5)%Z then
    nth (Z.to_nat (position - 1)) (head_weights laps_remaining) 0.001
  else if (position <=? total_drivers)%Z then tail_weight laps_remaining
  else 0.001.

(** ** Documents a Python dictionary can hold *)

(** No key occurs twice in a list of keys. *)
Fixpoint distinct (keys : list string) : bool :=
  match keys with
  | [] => true
  | k :: rest => negb (Py.contains k rest) && distinct rest
  end.

(** Every object of the document has distinct keys, as a [dict] has. *)
Fixpoint unique_keys (v : json) : bool :=
  match v with
  | JList items => forallb unique_keys items
  | JDict members =>
      distinct (map fst members)
      && forallb (fun kv => unique_keys (snd kv)) members
  | _ => true
  end.

(** ** The pace adjustment in binary64 arithmetic *)

(** The comparisons of [pace_adjustment] sit on thresholds that decimal
    inputs reach: [13 * 0.9] is not 11.7 in floating point, and
    [80.1 - 80.4] is not -0.3. Where the outcome of a comparison is part of
    a statement, the function is therefore read in the arithmetic Python
    uses, IEEE 754 binary64 with rounding to nearest, ties to even, as
    specified by the Standard Library's [SpecFloat]. *)
Module B64.

Definition prec : Z := 53.
Definition emax : Z := 1024.

(** A Python [float]. *)
Definition float : Type := spec_float.

(** The exceptions of float arithmetic: division by zero, and an [int] too
    large to convert. *)
Inductive exn : Set :=
| ZeroDivisionError
| OverflowError.

Definition sub (a b : float) : float := SFsub prec emax a b.
Definition mul (a b : float) : float := SFmul prec emax a b.
Definition neg (a : float) : float := SFopp a.

(** [a < b] and [a <= b]; both are false when an operand is NaN. *)
Definition ltb (a b : float) : bool := SFltb a b.
Definition leb (a b : float) : bool := SFleb a b.

Definition is_zero (a : float) : bool :=
  match a with
  | S754_zero _ => true
  | _ => false
  end.

(** [a / b]: a zero divisor raises. *)
Definition truediv (a b : float) : sum exn float :=
  if is_zero b then raise ZeroDivisionError else ret (SFdiv prec emax a b).

(** The float nearest to an integer; an integer whose nearest float would
    be infinite raises, as in [float(n)] and in [n * 0.9]. *)
Definition of_int (n : Z) : sum exn float :=
  match binary_normalize prec emax n 0 false with
  | S754_infinity _ => raise OverflowError
  | x => ret x
  end.

(** The value of a decimal literal with the given digits and number of
    decimals: the float nearest to [digits / 10 ^ decimals] (the quotient of
    two exactly representable integers, correctly rounded). *)
Definition decimal (digits decimals : Z) : float :=
  SFdiv prec emax (binary_normalize prec emax digits 0 false)
    (binary_normalize prec emax (10 ^ decimals) 0 false).

(** [float('inf')] and the literal [0]. *)
Definition inf : float := S754_infinity false.
Definition zero : float := S754_zero false.

(** [class DriverState] with its floats in binary64. *)
Record DriverState : Type := mkDriverState {
  driver_id : string;
  position : Z;
  gap_to_leader : float;
  gap_to_ahead : float;
  last_lap_time : float;
  best_lap_time : float;
  lap_times_history : list float;
  tire_compound : string;
  tire_age_laps : Z;
  pit_stops_completed : Z;
  is_on_track : bool;
  in_pit_lane : bool;
  status : string;
  rolling_pace_5lap : float
}.

(** The local [laps_to_catch] of [pace_adjustment]. *)
Definition laps_to_catch (gap_to_leader pace_delta : float) : sum exn float :=
  if ltb zero pace_delta then truediv gap_to_leader pace_delta else ret inf.

(** [pace_adjustment(driver, leader, gap_to_leader, laps_remaining,
    track_difficulty)], statement by statement; [laps_remaining * 0.9]
    converts the integer first. *)
Definition pace_adjustment (driver leader : DriverState)
    (gap_to_leader : float) (laps_remaining : Z) (track_difficulty : float)
  : sum exn float :=
  let pace_delta := sub (rolling_pace_5lap leader) (rolling_pace_5lap driver) in
  ltc <- laps_to_catch gap_to_leader pace_delta ;;
  laps <- of_int laps_remaining ;;
  let can_catch := ltb ltc (mul laps (decimal 9 1)) in
  let overtake_factor := sub (decimal 10 1) (mul track_difficulty (decimal 5 1)) in
  if ltb (decimal 5 1) pace_delta then
    ret (if can_catch then mul (decimal 15 2) overtake_factor
         else decimal 2 2)
  else if ltb (decimal 2 1) pace_delta then
    ret (if can_catch then mul (decimal 8 2) overtake_factor
         else decimal 1 2)
  else if ltb pace_delta (neg (decimal 3 1)) then
    ret (neg (decimal 10 2))
  else ret (decimal 0 1).

(** A driver of whom only the pace matters. *)
Definition with_pace (id : string) (pace : float) : DriverState :=
  {| driver_id := id; position := 1; gap_to_leader := zero;
     gap_to_ahead := zero; last_lap_time := pace; best_lap_time := pace;
     lap_times_history := [pace]; tire_compound := "MEDIUM";
     tire_age_laps := 10; pit_stops_completed := 1; is_on_track := true;
     in_pit_lane := false; status := "RUNNING";
     rolling_pace_5lap := pace |}.

End B64.

(** The test [can_catch] of the binary64 reading, on the computed values:
    the driver is faster and the quotient of gap and pace delta is below
    0.9 times the laps remaining. *)
Definition can_catch64 (gap pace_delta laps : B64.float) : bool :=
  B64.ltb B64.zero pace_delta
  && B64.ltb (SFdiv B64.prec B64.emax gap pace_delta)
       (B64.mul laps (B64.decimal 9 1)).

(** A float that is zero or positive, with a mantissa of at most 53 bits:
    the non-negative finite doubles. *)
Definition nonneg53 (x : spec_float) : Prop :=
  match x with
  | S754_zero _ => True
  | S754_finite false m _ => (Zpos m < 2 ^ 53)%Z
  | _ => False
  end.

(** The doubles 1.0 and 0.5. *)
Definition one : spec_float := S754_finite false 4503599627370496 (-52).
Definition half : spec_float := S754_finite false 4503599627370496 (-53).

(** ** The prediction on a store of objects *)

(** In Python the arguments of the prediction are references to mutable
    objects. Here the objects live in a store, the functions receive
    references, every attribute access and list access reads the store, and
    a call returns its outcome together with the store it leaves. Objects a
    call creates for itself (the weight table, the tire-life dictionary,
    the result) are values. Numbers are as in the first part. *)
Module Obj.

Definition ref : Type := N.

Inductive obj : Type :=
| ODriver (d : DriverState)
| ORace (r : RaceState)
| OTrack (t : TrackConfig)
| OList (items : list ref).

Definition store : Type := ref -> option obj.

(** An exception of the arithmetic or of a list access, or an object of
    the wrong kind: [AttributeError] for a missing attribute, [TypeError]
    for [len] or indexing on something that is not a list. *)
Inductive exn : Set :=
| Raised (e : Py.exn)
| AttributeError
| TypeError.

Definition M (A : Type) : Type := store -> sum exn A * store.

Definition unit_M {A : Type} (x : A) : M A := fun s => (inr x, s).

Definition bind_M {A B : Type} (c : M A) (k : A -> M B) : M B :=
  fun s =>
    match c s with
    | (inl e, s') => (inl e, s')
    | (inr x, s') => k x s'
    end.

#[global] Instance Monad_M : Monad M :=
  {| ret := @unit_M; bind := @bind_M |}.

(** The outcome of a computation that does not touch the store. *)
Definition outcome {A : Type} (r : Py.M A) : sum exn A :=
  match r with
  | inl e => inl (Raised e)
  | inr x => inr x
  end.

Definition lift {A : Type} (r : Py.M A) : M A := fun s => (outcome r, s).

(** [o.field] on a driver, a race state, a track profile. *)
Definition driver_attr {A : Type} (field : DriverState -> A) (r : ref)
  : M A :=
  fun s =>
    match s r with
    | Some (ODriver d) => (inr (field d), s)
    | _ => (inl AttributeError, s)
    end.

Definition race_attr {A : Type} (field : RaceState -> A) (r : ref) : M A :=
  fun s =>
    match s r with
    | Some (ORace x) => (inr (field x), s)
    | _ => (inl AttributeError, s)
    end.

Definition track_attr {A : Type} (field : TrackConfig -> A) (r : ref)
  : M A :=
  fun s =>
    match s r with
    | Some (OTrack x) => (inr (field x), s)
    | _ => (inl AttributeError, s)
    end.

(** [len(l)] and [l[i]] on a list object. *)
Definition list_len (r : ref) : M Z :=
  fun s =>
    match s r with
    | Some (OList items) => (inr (Py.len items), s)
    | _ => (inl TypeError, s)
    end.

Definition list_getitem (r : ref) (i : Z) : M ref :=
  fun s =>
    match s r with
    | Some (OList items) => (outcome (Py.getitem items i), s)
    | _ => (inl TypeError, s)
    end.

(** [for x in l: body], where the body may return from the function: the
    list iterator reads entry [i] of the list while [i] is below its
    current length. The fuel is the number of entries at most visited. *)
Fixpoint for_each {A : Type} (fuel : nat) (l : ref) (i : Z)
    (body : ref -> M (option A)) : M (option A) :=
  match fuel with
  | O => ret None
  | S fuel' =>
      n <- list_len l ;;
      if (i <? n)%Z then
        x <- list_getitem l i ;;
        returned <- body x ;;
        match returned with
        | Some v => ret (Some v)
        | None => for_each fuel' l (i + 1) body
        end
      else ret None
  end.

(** [pace_adjustment]; the arithmetic after the two attribute reads is that
    of the first part. *)
Definition pace_adjustment (driver leader : ref) (gap_to_leader : Q)
    (laps_remaining : Z) (track_difficulty : Q) : M Q :=
  leader_pace <- driver_attr rolling_pace_5lap leader ;;
  driver_pace <- driver_attr rolling_pace_5lap driver ;;
  let pace_delta := leader_pace - driver_pace in
  ltc <- lift (laps_to_catch gap_to_leader pace_delta) ;;
  let can_catch := Py.xltb ltc (inject_Z laps_remaining * 0.9) in
  let overtake_factor := 1.0 - (track_difficulty * 0.5) in
  if Py.ltb 0.5 pace_delta then
    ret (if can_catch then 0.15 * overtake_factor else 0.02)
  else if Py.ltb 0.2 pace_delta then
    ret (if can_catch then 0.08 * overtake_factor else 0.01)
  else if Py.ltb pace_delta (- 0.3) then
    ret (- 0.10)
  else ret 0.0.

(** [estimate_remaining_stops]. *)
Definition estimate_remaining_stops (driver : ref) (laps_remaining : Z)
  : M Z :=
  compound <- driver_attr tire_compound driver ;;
  let max_stint := dict_get tire_life compound 25 in
  laps_on_current <- driver_attr tire_age_laps driver ;;
  let remaining_on_current := (max_stint - laps_on_current)%Z in
  if (laps_remaining <=? remaining_on_current)%Z then ret 0%Z
  else
    let laps_after_stop := (laps_remaining - remaining_on_current)%Z in
    ret (1 + laps_after_stop / max_stint)%Z.

(** The body of the undercut loop of [strategy_projection]. *)
Definition undercut_body (driver : ref) (laps_remaining : Z)
    (competitor : ref) : M (option (Q * string)) :=
  competitor_position <- driver_attr position competitor ;;
  driver_position <- driver_attr position driver ;;
  if (competitor_position =? driver_position + 1)%Z then
    expected_stops_comp <- estimate_remaining_stops competitor laps_remaining ;;
    competitor_age <- driver_attr tire_age_laps competitor ;;
    driver_age <- driver_attr tire_age_laps driver ;;
    if (competitor_age <? driver_age - 5)%Z then
      p <- driver_attr position competitor ;;
      ret (Some (- 0.05, "Undercut vulnerable to P" ++ Py.str p))
    else ret None
  else ret None.

(** [strategy_projection]. *)
Definition strategy_projection (driver competitors : ref)
    (laps_remaining : Z) (pit_time_loss : Q) : M (Q * string) :=
  expected_stops_driver <- estimate_remaining_stops driver laps_remaining ;;
  entries <- list_len competitors ;;
  returned <-
    for_each (Z.to_nat entries) competitors 0
      (undercut_body driver laps_remaining) ;;
  match returned with
  | Some result => ret result
  | None =>
      compound <- driver_attr tire_compound driver ;;
      if String.eqb compound "HARD" then
        driver_position <- driver_attr position driver ;;
        if (1 <? driver_position)%Z then
          leader <- list_getitem competitors 0 ;;
          leader_compound <- driver_attr tire_compound leader ;;
          if Py.contains leader_compound ["SOFT"; "MEDIUM"] then
            leader_age <- driver_attr tire_age_laps leader ;;
            if (15 <? leader_age)%Z
            then ret (0.05, "Overcut potential as leader on worn tires")
            else ret (0.0, "Strategy neutral")
          else ret (0.0, "Strategy neutral")
        else ret (0.0, "Strategy neutral")
      else ret (0.0, "Strategy neutral")
  end.

(** [safety_car_adjustment]. *)
Definition safety_car_adjustment (driver : ref) (flag_status : string)
    (gap_to_leader : Q) (laps_remaining : Z) : M Q :=
  if negb (Py.contains flag_status ["SC"; "VSC"; "YELLOW"]) then ret 0.0
  else
    p <- driver_attr position driver ;;
    if (p =? 1)%Z then ret (- 0.10)
    else
      p' <- driver_attr position driver ;;
      if (p' <=? 5)%Z then
        p'' <- driver_attr position driver ;;
        ret (0.05 + inject_Z (5 - p'') * 0.02)
      else ret 0.02.

(** [compute_win_probability], the arguments of every call and of the
    result evaluated from left to right. *)
Definition compute_win_probability
    (driver race_state all_drivers track_config : ref)
  : M PredictionResult :=
  total <- race_attr total_laps race_state ;;
  current <- race_attr current_lap race_state ;;
  let laps_remaining := (total - current)%Z in
  p <- driver_attr position driver ;;
  entries <- list_len all_drivers ;;
  base_prob <- lift (position_baseline p laps_remaining entries) ;;
  leader <- list_getitem all_drivers 0 ;;
  gap <- driver_attr gap_to_leader driver ;;
  difficulty <- track_attr overtake_difficulty track_config ;;
  pace_adj <- pace_adjustment driver leader gap laps_remaining difficulty ;;
  loss <- track_attr pit_time_loss track_config ;;
  strat <- strategy_projection driver all_drivers laps_remaining loss ;;
  let strat_adj := fst strat in
  let strat_reason := snd strat in
  flag <- race_attr flag_status race_state ;;
  gap' <- driver_attr gap_to_leader driver ;;
  sc_adj <- safety_car_adjustment driver flag gap' laps_remaining ;;
  let raw_prob := base_prob + pace_adj + strat_adj + sc_adj in
  progress <- race_attr race_progress race_state ;;
  let confidence_width := 0.25 * (1.0 - progress) + 0.05 in
  id <- driver_attr driver_id driver ;;
  p' <- driver_attr position driver ;;
  ret {| pr_driver_id := id;
         win_probability := Py.max 0.001 (Py.min 0.99 raw_prob);
         confidence_interval_of :=
           (Py.max 0.0 (raw_prob - confidence_width),
            Py.min 1.0 (raw_prob + confidence_width));
         key_factors :=
           [ Some ("Position: P" ++ Py.str p');
             Some ("Pace: " ++ Py.format_signed_percent1 pace_adj
                     ++ " adjustment");
             (if Py.neb strat_adj 0 then Some strat_reason else None);
             (if Py.ltb 0 sc_adj then Some "SC boost" else None) ] |}.

(** The store holds a driver, a list of drivers, at a reference. *)
Definition holds_driver (s : store) (r : ref) (d : DriverState) : Prop :=
  s r = Some (ODriver d).

Definition holds_list (s : store) (r : ref) (items : list ref)
    (ds : list DriverState) : Prop :=
  s r = Some (OList items) /\ Forall2 (holds_driver s) items ds.

(** Two stores agree on a set of references. *)
Definition agree (refs : list ref) (s s' : store) : Prop :=
  forall r, In r refs -> s' r = s r.

(** A store with the late-race field: the three drivers at 0, 1 and 2, the
    driver list at 3, the race state at 4 and the track at 5. *)
Definition late_store : store :=
  fun r =>
    nth_error
      [ODriver leader_ver; ODriver second_lec; ODriver sixth_bot;
       OList [0%N; 1%N; 2%N]; ORace late_race; OTrack monza]
      (N.to_nat r).

End Obj.

(** * Properties *)

(** ** Facts about the Python primitives *)

Section PyFacts.

Lemma ltb_lt (a b : Q) : Py.ltb a b = true <-> a < b.
Proof.
  unfold Py.ltb, Qlt. rewrite Z.ltb_lt. reflexivity.
Qed.

Lemma ltb_ge (a b : Q) : Py.ltb a b = false <-> b <= a.
Proof.
  unfold Py.ltb, Qle. rewrite Z.ltb_ge. reflexivity.
Qed.

Lemma ltb_reflect (a b : Q) : reflect (a < b) (Py.ltb a b).
Proof.
  destruct (Py.ltb a b) eqn:E; constructor.
  - now apply ltb_lt.
  - apply ltb_ge in E. now apply Qle_not_lt.
Qed.

Lemma eqb_eq (a b : Q) : Py.eqb a b = true <-> a == b.
Proof. unfold Py.eqb. apply Qeq_bool_iff. Qed.

Lemma neb_neq (a b : Q) : Py.neb a b = true <-> ~ a == b.
Proof.
  unfold Py.neb. rewrite negb_true_iff.
  destruct (Qeq_bool a b) eqn:E.
  - apply Qeq_bool_iff in E. split; [discriminate | tauto].
  - split; [| reflexivity]. intros _ H.
    apply Qeq_bool_iff in H. congruence.
Qed.

Lemma max_lower (a b : Q) : a <= Py.max a b.
Proof.
  unfold Py.max. destruct (ltb_reflect a b); lra.
Qed.

Lemma max_upper (a b c : Q) : a <= c -> b <= c -> Py.max a b <= c.
Proof.
  unfold Py.max. destruct (ltb_reflect a b); lra.
Qed.

Lemma max_ge_r (a b : Q) : b <= Py.max a b.
Proof.
  unfold Py.max. destruct (ltb_reflect a b); lra.
Qed.

Lemma min_upper (a b : Q) : Py.min a b <= a.
Proof.
  unfold Py.min. destruct (ltb_reflect b a); lra.
Qed.

Lemma min_le_r (a b : Q) : Py.min a b <= b.
Proof.
  unfold Py.min. destruct (ltb_reflect b a); lra.
Qed.

Lemma min_lower (a b c : Q) : c <= a -> c <= b -> c <= Py.min a b.
Proof.
  unfold Py.min. destruct (ltb_reflect b a); lra.
Qed.

(** A value inside the bounds passes through both clamps unchanged. *)
Lemma clamp_inside (lo hi x : Q) :
  lo <= x -> x <= hi -> Py.max lo (Py.min hi x) == x.
Proof.
  intros Hl Hh. unfold Py.max, Py.min.
  destruct (ltb_reflect x hi); destruct (ltb_reflect lo x);
    try destruct (ltb_reflect lo hi); lra.
Qed.

Lemma clamp_bounds (lo hi x : Q) :
  lo <= hi -> lo <= Py.max lo (Py.min hi x) <= hi.
Proof.
  intros H. split.
  - apply max_lower.
  - apply max_upper; [exact H | apply min_upper].
Qed.

Lemma getitem_head {A : Type} (x : A) (l : list A) :
  Py.getitem (x :: l) 0 = inr x.
Proof.
  unfold Py.getitem. cbn [length Z.ltb Z.compare].
  replace (0 <? 0)%Z with false by reflexivity.
  destruct (Z.leb_spec (Z.of_nat (S (length l))) 0) as [H | H]; [lia |].
  reflexivity.
Qed.

Lemma getitem_nil {A : Type} (i : Z) :
  Py.getitem (@nil A) i = inl Py.IndexError.
Proof.
  unfold Py.getitem. cbn [length Z.of_nat].
  destruct (Z.ltb_spec i 0) as [H | H].
  - rewrite Z.add_0_r. destruct (Z.ltb_spec i 0); [reflexivity | lia].
  - destruct (Z.ltb_spec i 0); [lia |].
    destruct (Z.leb_spec 0 i); [reflexivity | lia].
Qed.

(** An index within [0, len) reads the element at that offset. *)
Lemma getitem_in_range {A : Type} (l : list A) (i : Z) :
  (0 <= i < Py.len l)%Z ->
  exists x, nth_error l (Z.to_nat i) = Some x /\ Py.getitem l i = inr x.
Proof.
  unfold Py.len, Py.getitem. intros [H0 Hn].
  destruct (Z.ltb_spec i 0) as [H | _]; [lia |].
  destruct (Z.ltb_spec i 0) as [H | _]; [lia |].
  destruct (Z.leb_spec (Z.of_nat (length l)) i) as [H | _]; [lia |].
  cbn [orb].
  destruct (nth_error l (Z.to_nat i)) as [x |] eqn:E.
  - exists x. split; reflexivity.
  - apply nth_error_None in E. lia.
Qed.

Lemma len_app {A : Type} (l1 l2 : list A) :
  Py.len (l1 ++ l2) = (Py.len l1 + Py.len l2)%Z.
Proof. unfold Py.len. rewrite length_app. lia. Qed.

Lemma len_replicate {A : Type} (x : A) (k : Z) :
  Py.len (Py.replicate x k) = Z.max 0 k.
Proof. unfold Py.len, Py.replicate. rewrite repeat_length. lia. Qed.

Lemma contains_In (s : string) (l : list string) :
  Py.contains s l = true <-> In s l.
Proof.
  unfold Py.contains. rewrite existsb_exists. split.
  - intros [x [Hin Heq]]. apply String.eqb_eq in Heq. now subst.
  - intros Hin. exists s. split; [exact Hin | apply String.eqb_refl].
Qed.

End PyFacts.

(** ** Position baseline *)

Section PositionBaseline.

Variables laps_remaining total_drivers : Z.

Lemma baseline_weights_early :
  (20 < laps_remaining)%Z ->
  baseline_weights laps_remaining total_drivers =
  ([0.65; 0.18; 0.08; 0.04; 0.02]
     ++ Py.replicate 0.01 (total_drivers - 5))%list.
Proof.
  intros H. unfold baseline_weights.
  destruct (Z.ltb_spec 20 laps_remaining); [reflexivity | lia].
Qed.

Lemma baseline_weights_mid :
  (10 < laps_remaining <= 20)%Z ->
  baseline_weights laps_remaining total_drivers =
  ([0.75; 0.14; 0.06; 0.03; 0.01]
     ++ Py.replicate 0.005 (total_drivers - 5))%list.
Proof.
  intros H. unfold baseline_weights.
  destruct (Z.ltb_spec 20 laps_remaining); [lia |].
  destruct (Z.ltb_spec 10 laps_remaining); [reflexivity | lia].
Qed.

Lemma baseline_weights_late :
  (laps_remaining <= 10)%Z ->
  baseline_weights laps_remaining total_drivers =
  ([0.85; 0.10; 0.03; 0.015; 0.005]
     ++ Py.replicate 0.001 (total_drivers - 5))%list.
Proof.
  intros H. unfold baseline_weights.
  destruct (Z.ltb_spec 20 laps_remaining); [lia |].
  destruct (Z.ltb_spec 10 laps_remaining); [lia | reflexivity].
Qed.

(** Every table has one entry per entrant and at least five. *)
Lemma baseline_weights_len :
  Py.len (baseline_weights laps_remaining total_drivers)
  = Z.max 5 total_drivers.
Proof.
  unfold baseline_weights.
  destruct (20 <? laps_remaining)%Z; [| destruct (10 <? laps_remaining)%Z];
    rewrite len_app, len_replicate; unfold Py.len; cbn [length]; lia.
Qed.

Lemma position_baseline_in_table (position : Z) :
  (1 <= position <= Z.max 5 total_drivers)%Z ->
  exists w,
    nth_error (baseline_weights laps_remaining total_drivers)
      (Z.to_nat (position - 1)) = Some w
    /\ position_baseline position laps_remaining total_drivers = inr w.
Proof.
  intros H. unfold position_baseline.
  rewrite baseline_weights_len.
  destruct (Z.leb_spec position (Z.max 5 total_drivers)); [| lia].
  apply getitem_in_range. rewrite baseline_weights_len. lia.
Qed.

Lemma position_baseline_beyond (position : Z) :
  (Z.max 5 total_drivers < position)%Z ->
  position_baseline position laps_remaining total_drivers = inr 0.001.
Proof.
  intros H. unfold position_baseline.
  rewrite baseline_weights_len.
  destruct (Z.leb_spec position (Z.max 5 total_drivers)); [lia |].
  reflexivity.
Qed.

Lemma position_baseline_late_p1 :
  (laps_remaining <= 10)%Z ->
  position_baseline 1 laps_remaining total_drivers = inr 0.85.
Proof.
  intros H.
  destruct (position_baseline_in_table 1) as [w [Hn Hw]]; [lia |].
  rewrite baseline_weights_late in Hn by exact H.
  cbn in Hn. injection Hn as <-. exact Hw.
Qed.

Lemma position_baseline_late_p2 :
  (laps_remaining <= 10)%Z ->
  position_baseline 2 laps_remaining total_drivers = inr 0.10.
Proof.
  intros H.
  destruct (position_baseline_in_table 2) as [w [Hn Hw]]; [lia |].
  rewrite baseline_weights_late in Hn by exact H.
  cbn in Hn. injection Hn as <-. exact Hw.
Qed.

End PositionBaseline.

(** C3, as worded, fails at exactly 10 laps remaining: the "10 to 20" table
    gives the leader 0.75, the code returns 0.85. *)
Lemma position_baseline_spec_bucket_10 :
  nth_error (spec_bucket_weights 10 20) 0 = Some 0.75
  /\ position_baseline 1 10 20 = inr 0.85
  /\ ~ 0.85 == 0.75.
Proof.
  split; [reflexivity | split; [reflexivity |]].
  intros H. discriminate H.
Qed.

(** C3 (amended). For a position [p >= 1], any laps-remaining value and any
    field size, [position_baseline] reads entry [p] (1-based) of the table
    chosen by the code's buckets -- more than 20 laps, more than 10 and at
    most 20, at most 10 -- and returns the minimal weight 0.001 when [p] is
    beyond the table, whose length is the larger of 5 and the field size.
    With at most 10 laps remaining the leader gets 0.85 and second place
    0.10. *)
Theorem position_baseline_lookup (p laps_remaining total_drivers : Z) :
  (1 <= p)%Z ->
  let weights := baseline_weights laps_remaining total_drivers in
  ((20 < laps_remaining)%Z ->
     weights = ([0.65; 0.18; 0.08; 0.04; 0.02]
                  ++ Py.replicate 0.01 (total_drivers - 5))%list)
  /\ ((10 < laps_remaining <= 20)%Z ->
     weights = ([0.75; 0.14; 0.06; 0.03; 0.01]
                  ++ Py.replicate 0.005 (total_drivers - 5))%list)
  /\ ((laps_remaining <= 10)%Z ->
     weights = ([0.85; 0.10; 0.03; 0.015; 0.005]
                  ++ Py.replicate 0.001 (total_drivers - 5))%list)
  /\ Py.len weights = Z.max 5 total_drivers
  /\ ((p <= Py.len weights)%Z ->
      exists w, nth_error weights (Z.to_nat (p - 1)) = Some w
                /\ position_baseline p laps_remaining total_drivers = inr w)
  /\ ((Py.len weights < p)%Z ->
      position_baseline p laps_remaining total_drivers = inr 0.001)
  /\ ((laps_remaining <= 10)%Z ->
      position_baseline 1 laps_remaining total_drivers = inr 0.85
      /\ position_baseline 2 laps_remaining total_drivers = inr 0.10).
Proof.
  intros Hp weights. subst weights.
  repeat split.
  - apply baseline_weights_early.
  - apply baseline_weights_mid.
  - apply baseline_weights_late.
  - apply baseline_weights_len.
  - intros H. rewrite baseline_weights_len in H.
    apply position_baseline_in_table. lia.
  - intros H. rewrite baseline_weights_len in H.
    now apply position_baseline_beyond.
  - now apply position_baseline_late_p1.
  - now apply position_baseline_late_p2.
Qed.

Lemma position_baseline_lookup_witness :
  position_baseline 3 15 20 = inr 0.06
  /\ position_baseline 21 15 20 = inr 0.001.
Proof.
  pose proof (position_baseline_lookup 3 15 20 ltac:(lia)) as H3.
  pose proof (position_baseline_lookup 21 15 20 ltac:(lia)) as H21.
  cbv zeta in H3, H21.
  destruct H3 as (_ & _ & _ & _ & Hin & _).
  destruct H21 as (_ & _ & _ & _ & _ & Hout & _).
  split.
  - destruct Hin as [w [Hn Hw]]; [vm_compute; discriminate |].
    vm_compute in Hn. injection Hn as <-. exact Hw.
  - apply Hout. vm_compute. reflexivity.
Defined.

(** ** Pace differential *)

Section PaceAdjustment.

Lemma truediv_nonzero (a b : Q) :
  ~ b == 0 -> Py.truediv a b = inr (a / b).
Proof.
  intros H. unfold Py.truediv.
  destruct (Py.eqb b 0) eqn:E; [| reflexivity].
  apply eqb_eq in E. contradiction.
Qed.

Lemma truediv_zero (a b : Q) :
  b == 0 -> Py.truediv a b = inl Py.ZeroDivisionError.
Proof.
  intros H. unfold Py.truediv.
  apply eqb_eq in H. rewrite H. reflexivity.
Qed.

Lemma laps_to_catch_faster (gap pace_delta : Q) :
  0 < pace_delta ->
  laps_to_catch gap pace_delta = inr (Py.Fin (gap / pace_delta)).
Proof.
  intros H. unfold laps_to_catch.
  destruct (ltb_reflect 0 pace_delta); [| contradiction].
  rewrite truediv_nonzero by lra. reflexivity.
Qed.

Lemma laps_to_catch_not_faster (gap pace_delta : Q) :
  pace_delta <= 0 ->
  laps_to_catch gap pace_delta = inr Py.PosInf.
Proof.
  intros H. unfold laps_to_catch.
  destruct (ltb_reflect 0 pace_delta); [lra | reflexivity].
Qed.

Lemma can_catch_feasible (gap pace_delta : Q) (laps_remaining : Z) :
  exists ltc,
    laps_to_catch gap pace_delta = inr ltc
    /\ (Py.xltb ltc (inject_Z laps_remaining * 0.9) = true
        <-> feasible gap pace_delta laps_remaining).
Proof.
  unfold feasible.
  destruct (Qlt_le_dec 0 pace_delta) as [Hpos | Hneg].
  - exists (Py.Fin (gap / pace_delta)). split.
    + now apply laps_to_catch_faster.
    + cbn [Py.xltb]. rewrite ltb_lt. tauto.
  - exists Py.PosInf. split.
    + now apply laps_to_catch_not_faster.
    + cbn [Py.xltb]. split; [discriminate | lra].
Qed.

Variables driver leader : DriverState.
Variable gap : Q.
Variable laps_remaining : Z.

Let pace_delta : Q := rolling_pace_5lap leader - rolling_pace_5lap driver.

(** The value returned in each of the code's branches. *)
Lemma pace_adjustment_branches (difficulty : Q) :
  let overtake_factor := 1.0 - difficulty * 0.5 in
  exists v,
    pace_adjustment driver leader gap laps_remaining difficulty = inr v
    /\ (0.5 < pace_delta -> feasible gap pace_delta laps_remaining ->
        v = 0.15 * overtake_factor)
    /\ (0.5 < pace_delta -> ~ feasible gap pace_delta laps_remaining ->
        v = 0.02)
    /\ (0.2 < pace_delta <= 0.5 -> feasible gap pace_delta laps_remaining ->
        v = 0.08 * overtake_factor)
    /\ (0.2 < pace_delta <= 0.5 ->
        ~ feasible gap pace_delta laps_remaining -> v = 0.01)
    /\ (pace_delta < - 0.3 -> v = - 0.10)
    /\ (- 0.3 <= pace_delta <= 0.2 -> v = 0.0).
Proof.
  intros overtake_factor. unfold pace_adjustment.
  fold pace_delta. fold overtake_factor.
  destruct (can_catch_feasible gap pace_delta laps_remaining)
    as [ltc [Hltc Hcan]].
  rewrite Hltc. cbn [bind Py.Monad_M Monad_either].
  assert (Hdec : Py.xltb ltc (inject_Z laps_remaining * 0.9) = true
                 /\ feasible gap pace_delta laps_remaining
                 \/ Py.xltb ltc (inject_Z laps_remaining * 0.9) = false
                    /\ ~ feasible gap pace_delta laps_remaining).
  { destruct (Py.xltb ltc (inject_Z laps_remaining * 0.9)).
    - left. split; [reflexivity | now apply Hcan].
    - right. split; [reflexivity |]. intros F. apply Hcan in F.
      discriminate. }
  destruct (ltb_reflect 0.5 pace_delta) as [H5 | H5];
    [| destruct (ltb_reflect 0.2 pace_delta) as [H2 | H2];
       [| destruct (ltb_reflect pace_delta (- 0.3)) as [H3 | H3]]];
    try (destruct Hdec as [[-> Hf] | [-> Hf]]);
    (eexists; split; [reflexivity |]);
    repeat split; intros; try reflexivity; try lra; try contradiction.
Qed.

End PaceAdjustment.

Lemma feasible_dec (gap pace_delta : Q) (laps_remaining : Z) :
  feasible gap pace_delta laps_remaining
  \/ ~ feasible gap pace_delta laps_remaining.
Proof.
  destruct (can_catch_feasible gap pace_delta laps_remaining)
    as [ltc [_ Hcan]].
  destruct (Py.xltb ltc (inject_Z laps_remaining * 0.9)).
  - left. now apply Hcan.
  - right. intros F. apply Hcan in F. discriminate.
Qed.

(** The five ranges of the pace delta the code distinguishes. *)
Lemma pace_delta_ranges (pace_delta : Q) :
  0.5 < pace_delta \/ 0.2 < pace_delta <= 0.5
  \/ pace_delta < - 0.3 \/ - 0.3 <= pace_delta <= 0.2.
Proof.
  destruct (Qlt_le_dec 0.5 pace_delta); [now left |].
  destruct (Qlt_le_dec 0.2 pace_delta); [right; left; now split |].
  destruct (Qlt_le_dec pace_delta (- 0.3)); [right; right; now left |].
  right; right; right. now split.
Qed.

(** C10. [pace_adjustment] returns a value for every driver, leader, gap,
    laps-remaining and difficulty input: float division raises exactly on a
    zero divisor, the quotient [gap_to_leader / pace_delta] is taken only
    when [pace_delta > 0], and for a zero or negative pace delta the laps
    to catch are [float('inf')]. *)
Theorem pace_adjustment_total (driver leader : DriverState) (gap : Q)
    (laps_remaining : Z) (difficulty : Q) :
  let pace_delta := rolling_pace_5lap leader - rolling_pace_5lap driver in
  (exists v,
     pace_adjustment driver leader gap laps_remaining difficulty = inr v)
  /\ (forall a b, Py.truediv a b = inl Py.ZeroDivisionError <-> b == 0)
  /\ (0 < pace_delta ->
      laps_to_catch gap pace_delta = inr (Py.Fin (gap / pace_delta)))
  /\ (pace_delta <= 0 -> laps_to_catch gap pace_delta = inr Py.PosInf).
Proof.
  intros pace_delta. repeat split.
  - destruct (pace_adjustment_branches driver leader gap laps_remaining
                difficulty) as (v & Hv & _).
    now exists v.
  - intros H. destruct (Qeq_dec b 0) as [E | E]; [exact E |].
    rewrite truediv_nonzero in H by exact E. discriminate H.
  - apply truediv_zero.
  - apply laps_to_catch_faster.
  - apply laps_to_catch_not_faster.
Qed.

Lemma pace_adjustment_total_witness :
  let leader := mk_driver "L" 1 0 80.0 "MEDIUM" 10 in
  let level := mk_driver "E" 2 2.0 80.0 "MEDIUM" 10 in
  laps_to_catch 2.0 (80.0 - 80.0) = inr Py.PosInf
  /\ laps_to_catch 2.0 (80.5 - 80.0) = inr (Py.Fin (2.0 / (80.5 - 80.0)))
  /\ exists v, pace_adjustment level leader 2.0 5 0.4 = inr v.
Proof.
  intros leader level.
  pose proof (pace_adjustment_total level leader 2.0 5 0.4) as Hlevel.
  pose proof (pace_adjustment_total level
                (mk_driver "L" 1 0 80.5 "MEDIUM" 10) 2.0 5 0.4) as Hfast.
  cbv zeta in Hlevel, Hfast.
  destruct Hlevel as (Hret & _ & _ & Hinf).
  destruct Hfast as (_ & _ & Hfin & _).
  split; [| split].
  - apply Hinf. vm_compute. discriminate.
  - apply Hfin. reflexivity.
  - exact Hret.
Defined.

(** ** Safety car *)

Lemma caution_contains (flag : string) :
  Py.contains flag ["SC"; "VSC"; "YELLOW"] = true <-> caution flag.
Proof.
  rewrite contains_In. unfold caution. cbn [In].
  intuition congruence.
Qed.

Lemma not_caution_contains (flag : string) :
  Py.contains flag ["SC"; "VSC"; "YELLOW"] = false <-> ~ caution flag.
Proof.
  rewrite <- caution_contains.
  destruct (Py.contains flag ["SC"; "VSC"; "YELLOW"]); intuition congruence.
Qed.

Section SafetyCar.

Variable driver : DriverState.
Variable gap : Q.
Variable laps_remaining : Z.

Lemma safety_car_green (flag : string) :
  ~ caution flag ->
  safety_car_adjustment driver flag gap laps_remaining = 0.0.
Proof.
  intros H. unfold safety_car_adjustment.
  apply not_caution_contains in H. rewrite H. reflexivity.
Qed.

Lemma safety_car_leader (flag : string) :
  caution flag -> position driver = 1%Z ->
  safety_car_adjustment driver flag gap laps_remaining = - 0.10.
Proof.
  intros H Hp. unfold safety_car_adjustment.
  apply caution_contains in H. rewrite H, Hp. reflexivity.
Qed.

Lemma safety_car_top5 (flag : string) :
  caution flag -> position driver <> 1%Z -> (position driver <= 5)%Z ->
  safety_car_adjustment driver flag gap laps_remaining
  = 0.05 + inject_Z (5 - position driver) * 0.02.
Proof.
  intros H Hp H5. unfold safety_car_adjustment.
  apply caution_contains in H. rewrite H. cbn [negb].
  destruct (Z.eqb_spec (position driver) 1); [contradiction |].
  destruct (Z.leb_spec (position driver) 5); [reflexivity | lia].
Qed.

Lemma safety_car_rest (flag : string) :
  caution flag -> (5 < position driver)%Z ->
  safety_car_adjustment driver flag gap laps_remaining = 0.02.
Proof.
  intros H H5. unfold safety_car_adjustment.
  apply caution_contains in H. rewrite H. cbn [negb].
  destruct (Z.eqb_spec (position driver) 1); [lia |].
  destruct (Z.leb_spec (position driver) 5); [lia | reflexivity].
Qed.

End SafetyCar.

(** The gain of positions 2 to 5 as a function of the position. *)
Lemma top5_gain_positive (p : Z) :
  (p <= 5)%Z -> 0.05 <= 0.05 + inject_Z (5 - p) * 0.02.
Proof.
  intros H.
  assert (0 <= inject_Z (5 - p)).
  { change 0 with (inject_Z 0). rewrite <- Zle_Qle. lia. }
  nra.
Qed.

Lemma top5_gain_decays (p p' : Z) :
  (p < p')%Z ->
  0.05 + inject_Z (5 - p') * 0.02 < 0.05 + inject_Z (5 - p) * 0.02.
Proof.
  intros H.
  assert (inject_Z (5 - p') < inject_Z (5 - p)).
  { rewrite <- Zlt_Qlt. lia. }
  lra.
Qed.

(** ** Strategy projection *)

Section StrategyProjection.

Variable driver : DriverState.
Variable laps_remaining : Z.

Lemma undercut_scan_some (competitors : list DriverState) (c : DriverState) :
  undercut_scan driver laps_remaining competitors = Some c ->
  In c competitors /\ undercut_by driver c.
Proof.
  induction competitors as [| x rest IH]; cbn [undercut_scan].
  - discriminate.
  - destruct (Z.eqb_spec (position x) (position driver + 1)) as [Hp | Hp].
    + destruct (Z.ltb_spec (tire_age_laps x) (tire_age_laps driver - 5))
        as [Ha | Ha].
      * intros [= <-]. split; [now left | now split].
      * intros H. destruct (IH H). split; [now right | assumption].
    + intros H. destruct (IH H). split; [now right | assumption].
Qed.

Lemma undercut_scan_none (competitors : list DriverState) :
  undercut_scan driver laps_remaining competitors = None <->
  (forall c, In c competitors -> ~ undercut_by driver c).
Proof.
  unfold undercut_by.
  induction competitors as [| x rest IH]; cbn [undercut_scan].
  - split; [intros _ c [] | reflexivity].
  - destruct (Z.eqb_spec (position x) (position driver + 1)) as [Hp | Hp];
      [destruct (Z.ltb_spec (tire_age_laps x) (tire_age_laps driver - 5))
        as [Ha | Ha] |].
    + split; [discriminate |]. intros H. exfalso.
      apply (H x); [now left | now split].
    + rewrite IH. split.
      * intros H c [<- | Hin]; [lia | now apply H].
      * intros H c Hin. apply H. now right.
    + rewrite IH. split.
      * intros H c [<- | Hin]; [tauto | now apply H].
      * intros H c Hin. apply H. now right.
Qed.

Lemma undercut_scan_found (competitors : list DriverState) :
  (exists c, In c competitors /\ undercut_by driver c) ->
  exists c, undercut_scan driver laps_remaining competitors = Some c.
Proof.
  intros [c [Hin Hu]].
  destruct (undercut_scan driver laps_remaining competitors) as [c' |] eqn:E.
  - now exists c'.
  - exfalso. rewrite undercut_scan_none in E. now apply (E c).
Qed.

Variable pit_time_loss : Q.

Lemma strategy_undercut (competitors : list DriverState) :
  (exists c, In c competitors /\ undercut_by driver c) ->
  strategy_projection driver competitors laps_remaining pit_time_loss
  = inr (- 0.05,
         "Undercut vulnerable to P" ++ Py.str (position driver + 1)).
Proof.
  intros H. destruct (undercut_scan_found competitors H) as [c Hc].
  unfold strategy_projection. rewrite Hc.
  apply undercut_scan_some in Hc. destruct Hc as [_ [Hp _]].
  rewrite Hp. reflexivity.
Qed.

Lemma overcut_test (leader : DriverState) :
  String.eqb (tire_compound driver) "HARD" && (1 <? position driver)%Z
  && (Py.contains (tire_compound leader) ["SOFT"; "MEDIUM"]
      && (15 <? tire_age_laps leader)%Z) = true
  <-> overcut_on driver leader.
Proof.
  unfold overcut_on.
  rewrite !andb_true_iff, String.eqb_eq, !Z.ltb_lt, contains_In.
  cbn [In]. intuition congruence.
Qed.

Lemma strategy_overcut (leader : DriverState) (rest : list DriverState) :
  (forall c, In c (leader :: rest) -> ~ undercut_by driver c) ->
  overcut_on driver leader ->
  strategy_projection driver (leader :: rest) laps_remaining pit_time_loss
  = inr (0.05, "Overcut potential as leader on worn tires").
Proof.
  intros Hno Hov. apply undercut_scan_none in Hno.
  apply overcut_test in Hov. apply andb_true_iff in Hov.
  destruct Hov as [Hd Hl].
  unfold strategy_projection. rewrite Hno, Hd, getitem_head.
  cbn [bind Py.Monad_M Monad_either]. rewrite Hl. reflexivity.
Qed.

Lemma strategy_neutral (leader : DriverState) (rest : list DriverState) :
  (forall c, In c (leader :: rest) -> ~ undercut_by driver c) ->
  ~ overcut_on driver leader ->
  strategy_projection driver (leader :: rest) laps_remaining pit_time_loss
  = inr (0.0, "Strategy neutral").
Proof.
  intros Hno Hov. apply undercut_scan_none in Hno.
  rewrite <- overcut_test in Hov. apply not_true_is_false in Hov.
  unfold strategy_projection. rewrite Hno.
  destruct (String.eqb (tire_compound driver) "HARD"
            && (1 <? position driver)%Z); [| reflexivity].
  rewrite getitem_head. cbn [bind Py.Monad_M Monad_either].
  cbn [andb] in Hov. rewrite Hov. reflexivity.
Qed.

(** With no competitor at all the overcut check indexes an empty list. *)
Lemma strategy_empty_field :
  tire_compound driver = "HARD" -> (1 < position driver)%Z ->
  strategy_projection driver [] laps_remaining pit_time_loss
  = inl Py.IndexError.
Proof.
  intros Hc Hp. unfold strategy_projection. cbn [undercut_scan].
  rewrite Hc. apply Z.ltb_lt in Hp. rewrite Hp. reflexivity.
Qed.

Lemma strategy_returns (competitors : list DriverState) :
  competitors <> [] ->
  exists adj reason,
    strategy_projection driver competitors laps_remaining pit_time_loss
    = inr (adj, reason)
    /\ (adj = - 0.05 \/ adj = 0.05 \/ adj = 0.0).
Proof.
  intros Hne. destruct competitors as [| leader rest]; [contradiction |].
  unfold strategy_projection.
  destruct (undercut_scan driver laps_remaining (leader :: rest)).
  - do 2 eexists. split; [reflexivity | now left].
  - destruct (String.eqb (tire_compound driver) "HARD"
              && (1 <? position driver)%Z).
    + rewrite getitem_head. cbn [bind Py.Monad_M Monad_either].
      destruct (Py.contains (tire_compound leader) ["SOFT"; "MEDIUM"]
                && (15 <? tire_age_laps leader)%Z);
        do 2 eexists; (split; [reflexivity | tauto]).
    + do 2 eexists. split; [reflexivity | tauto].
Qed.

End StrategyProjection.

(** C7, as worded, fails twice. A driver on fresh medium tires in second
    place behind a leader on 30-lap-old soft tires trails a leader on
    materially older, softer tires, yet gets the neutral result: the code
    asks for the driver to be on the hard compound. And a driver on hard
    tires outside first place with an empty competitor list gets an
    [IndexError], not the zero adjustment. *)
Lemma strategy_projection_medium_behind_soft :
  let leader := mk_driver "L" 1 0 80.0 "SOFT" 30 in
  let second := mk_driver "D" 2 3.0 80.0 "MEDIUM" 2 in
  let hard := mk_driver "H" 2 3.0 80.0 "HARD" 2 in
  (spec_overcut second leader = true
   /\ strategy_projection second [leader; second] 20 25.0
      = inr (0.0, "Strategy neutral"))
  /\ strategy_projection hard [] 20 25.0 = inl Py.IndexError.
Proof.
  cbv zeta. repeat split; reflexivity.
Qed.

(** C7 (amended). For every driver and every non-empty competitor list,
    whose first entry the code takes as the leader, [strategy_projection]
    returns: -0.05 with the explanation "Undercut vulnerable to P<n>" when
    some competitor runs directly behind the driver on tires more than 5
    laps younger; otherwise +0.05 with the explanation "Overcut potential
    as leader on worn tires" when the driver is on the hard compound, is
    not first, and the leader is on soft or medium tires older than 15
    laps; otherwise 0.0 with "Strategy neutral". It always returns one of
    these three. *)
Theorem strategy_projection_cases (driver leader : DriverState)
    (rest : list DriverState) (laps_remaining : Z) (pit_time_loss : Q) :
  let competitors := leader :: rest in
  let result :=
    strategy_projection driver competitors laps_remaining pit_time_loss in
  ((exists c, In c competitors /\ undercut_by driver c) ->
     result = inr (- 0.05,
                   "Undercut vulnerable to P" ++ Py.str (position driver + 1)))
  /\ ((forall c, In c competitors -> ~ undercut_by driver c) ->
      overcut_on driver leader ->
      result = inr (0.05, "Overcut potential as leader on worn tires"))
  /\ ((forall c, In c competitors -> ~ undercut_by driver c) ->
      ~ overcut_on driver leader ->
      result = inr (0.0, "Strategy neutral"))
  /\ (exists adj reason,
        result = inr (adj, reason)
        /\ (adj = - 0.05 \/ adj = 0.05 \/ adj = 0.0)).
Proof.
  intros competitors result. subst competitors result.
  split; [| split; [| split]].
  - apply strategy_undercut.
  - apply strategy_overcut.
  - apply strategy_neutral.
  - apply strategy_returns. discriminate.
Qed.

Lemma strategy_projection_cases_witness :
  let leader := mk_driver "L" 1 0 80.0 "SOFT" 30 in
  let second := mk_driver "D" 2 3.0 80.0 "HARD" 20 in
  let third := mk_driver "T" 3 5.0 80.0 "MEDIUM" 4 in
  strategy_projection second [leader; second; third] 20 25.0
  = inr (- 0.05, "Undercut vulnerable to P3")
  /\ strategy_projection third [leader; second; third] 20 25.0
     = inr (0.0, "Strategy neutral")
  /\ strategy_projection second [leader; second] 20 25.0
     = inr (0.05, "Overcut potential as leader on worn tires").
Proof.
  intros leader second third.
  destruct (strategy_projection_cases second leader [second; third] 20 25.0)
    as (Hunder & _).
  destruct (strategy_projection_cases third leader [second; third] 20 25.0)
    as (_ & _ & Hneutral & _).
  destruct (strategy_projection_cases second leader [second] 20 25.0)
    as (_ & Hover & _).
  split; [| split].
  - apply Hunder. exists third. split.
    + cbn [In]. tauto.
    + split; vm_compute; reflexivity.
  - apply Hneutral.
    + intros c Hin [Hp _]. cbn [In] in Hin.
      destruct Hin as [<- | [<- | [<- | []]]]; vm_compute in Hp;
        discriminate Hp.
    + intros (Hc & _). vm_compute in Hc. discriminate Hc.
  - apply Hover.
    + intros c Hin [Hp _]. cbn [In] in Hin.
      destruct Hin as [<- | [<- | []]]; vm_compute in Hp; discriminate Hp.
    + repeat split; try reflexivity. now left.
Defined.

(** ** Ensemble combination *)

Lemma position_baseline_returns (p laps_remaining total_drivers : Z) :
  (1 <= p)%Z ->
  exists w, position_baseline p laps_remaining total_drivers = inr w.
Proof.
  intros Hp.
  destruct (Z_le_gt_dec p (Z.max 5 total_drivers)) as [Hin | Hout].
  - destruct (position_baseline_in_table laps_remaining total_drivers p)
      as [w [_ Hw]]; [lia |].
    now exists w.
  - exists 0.001. apply position_baseline_beyond. lia.
Qed.

Lemma max_spec (a b : Q) :
  a < b /\ Py.max a b = b \/ b <= a /\ Py.max a b = a.
Proof.
  unfold Py.max. destruct (ltb_reflect a b); [left | right]; split;
    try reflexivity; lra.
Qed.

Lemma min_spec (a b : Q) :
  b < a /\ Py.min a b = b \/ a <= b /\ Py.min a b = a.
Proof.
  unfold Py.min. destruct (ltb_reflect b a); [left | right]; split;
    try reflexivity; lra.
Qed.

(** Case analysis on every [min] and [max] of the goal, innermost first. *)
Ltac case_minmax :=
  repeat match goal with
    | |- context [Py.min ?a ?b] =>
        destruct (min_spec a b) as [[? ->] | [? ->]]
    | |- context [Py.max ?a ?b] =>
        destruct (max_spec a b) as [[? ->] | [? ->]]
    end.

(** Unfolds one monadic step whose outcome is known. *)
Ltac step_bind H :=
  rewrite H; cbn [bind ret Py.Monad_M Monad_either].

Section Ensemble.

Variable driver : DriverState.
Variable race_state : RaceState.
Variable all_drivers : list DriverState.
Variable track_config : TrackConfig.

Let laps_remaining : Z :=
  (total_laps race_state - current_lap race_state)%Z.

Let components := components_are driver race_state all_drivers track_config.

Lemma compute_win_probability_of_components base leader pace strat :
  components base leader pace strat ->
  compute_win_probability driver race_state all_drivers track_config
  = inr (result_of driver race_state base pace strat).
Proof.
  intros (Hb & Hl & Hp & Hs). unfold compute_win_probability.
  step_bind Hb. step_bind Hl. step_bind Hp. step_bind Hs. reflexivity.
Qed.

Lemma compute_win_probability_inv (r : PredictionResult) :
  compute_win_probability driver race_state all_drivers track_config = inr r ->
  exists base leader pace strat,
    components base leader pace strat
    /\ r = result_of driver race_state base pace strat.
Proof.
  unfold compute_win_probability. fold laps_remaining.
  destruct (position_baseline (position driver) laps_remaining
              (Py.len all_drivers)) as [e | base] eqn:Hb;
    cbn [bind ret Py.Monad_M Monad_either]; [discriminate |].
  destruct (Py.getitem all_drivers 0) as [e | leader] eqn:Hl;
    cbn [bind ret Py.Monad_M Monad_either]; [discriminate |].
  destruct (pace_adjustment driver leader (gap_to_leader driver)
              laps_remaining (overtake_difficulty track_config))
    as [e | pace] eqn:Hp;
    cbn [bind ret Py.Monad_M Monad_either]; [discriminate |].
  destruct (strategy_projection driver all_drivers laps_remaining
              (pit_time_loss track_config)) as [e | strat] eqn:Hs;
    cbn [bind ret Py.Monad_M Monad_either]; [discriminate |].
  intros [= <-]. exists base, leader, pace, strat.
  split; [| reflexivity]. repeat split; assumption.
Qed.

Lemma raw_prob_of_components base leader pace strat :
  components base leader pace strat ->
  raw_prob driver race_state all_drivers track_config
  = inr (base + pace + fst strat + sc_component driver race_state).
Proof.
  intros (Hb & Hl & Hp & Hs). unfold raw_prob.
  step_bind Hb. step_bind Hl. step_bind Hp. step_bind Hs. reflexivity.
Qed.

Lemma raw_prob_inv (raw : Q) :
  raw_prob driver race_state all_drivers track_config = inr raw ->
  exists base leader pace strat,
    components base leader pace strat
    /\ raw = base + pace + fst strat + sc_component driver race_state.
Proof.
  unfold raw_prob. fold laps_remaining.
  destruct (position_baseline (position driver) laps_remaining
              (Py.len all_drivers)) as [e | base] eqn:Hb;
    cbn [bind ret Py.Monad_M Monad_either]; [discriminate |].
  destruct (Py.getitem all_drivers 0) as [e | leader] eqn:Hl;
    cbn [bind ret Py.Monad_M Monad_either]; [discriminate |].
  destruct (pace_adjustment driver leader (gap_to_leader driver)
              laps_remaining (overtake_difficulty track_config))
    as [e | pace] eqn:Hp;
    cbn [bind ret Py.Monad_M Monad_either]; [discriminate |].
  destruct (strategy_projection driver all_drivers laps_remaining
              (pit_time_loss track_config)) as [e | strat] eqn:Hs;
    cbn [bind ret Py.Monad_M Monad_either]; [discriminate |].
  intros [= <-]. exists base, leader, pace, strat.
  split; [| reflexivity]. repeat split; assumption.
Qed.

(** A non-empty field and a 1-based position are enough for all four
    components to return. *)
Lemma components_exist :
  all_drivers <> [] -> (1 <= position driver)%Z ->
  exists base leader pace strat, components base leader pace strat.
Proof.
  intros Hne Hp. subst components. unfold components_are.
  fold laps_remaining.
  destruct (position_baseline_returns (position driver) laps_remaining
              (Py.len all_drivers) Hp) as [base Hb].
  destruct all_drivers as [| leader rest] eqn:E; [contradiction |].
  destruct (pace_adjustment_branches driver leader (gap_to_leader driver)
              laps_remaining (overtake_difficulty track_config))
    as (pace & Hpace & _).
  destruct (strategy_returns driver laps_remaining
              (pit_time_loss track_config) (leader :: rest) Hne)
    as (adj & reason & Hs & _).
  exists base, leader, pace, (adj, reason).
  rewrite getitem_head. repeat split; assumption.
Qed.

End Ensemble.

(** The clamp of the win probability, case by case. *)
Lemma win_clamp_cases (raw : Q) :
  let win := Py.max 0.001 (Py.min 0.99 raw) in
  0.001 <= win <= 0.99
  /\ (0.001 <= raw <= 0.99 -> win == raw)
  /\ (raw <= 0.001 -> win == 0.001)
  /\ (0.99 <= raw -> win == 0.99).
Proof.
  cbv zeta. unfold Py.max, Py.min.
  destruct (ltb_reflect raw 0.99);
    [destruct (ltb_reflect 0.001 raw) | destruct (ltb_reflect 0.001 0.99)];
    repeat split; intros; lra.
Qed.

(** C1. Whenever [compute_win_probability] returns, the win probability of
    the result is the sum of the four components -- position baseline, pace
    adjustment, strategy adjustment and safety-car adjustment, each
    evaluated on its own inputs -- clamped to [0.001, 0.99], with nothing
    divided by a field total; so it lies in [0.001, 0.99], equals the sum
    when the sum lies in that interval and the nearer bound otherwise. It
    does return for a non-empty driver list and a position of at least 1. *)
Theorem win_probability_clamped_sum (driver : DriverState)
    (race_state : RaceState) (all_drivers : list DriverState)
    (track_config : TrackConfig) :
  (forall r,
     compute_win_probability driver race_state all_drivers track_config
     = inr r ->
     exists base leader pace strat,
       components_are driver race_state all_drivers track_config
         base leader pace strat
       /\ let raw := base + pace + fst strat + sc_component driver race_state in
          win_probability r = Py.max 0.001 (Py.min 0.99 raw)
          /\ 0.001 <= win_probability r <= 0.99
          /\ (0.001 <= raw <= 0.99 -> win_probability r == raw)
          /\ (raw <= 0.001 -> win_probability r == 0.001)
          /\ (0.99 <= raw -> win_probability r == 0.99))
  /\ (all_drivers <> [] -> (1 <= position driver)%Z ->
      exists r,
        compute_win_probability driver race_state all_drivers track_config
        = inr r).
Proof.
  split.
  - intros r Hr.
    destruct (compute_win_probability_inv _ _ _ _ _ Hr)
      as (base & leader & pace & strat & Hc & ->).
    exists base, leader, pace, strat. split; [exact Hc |].
    cbv zeta. cbn [win_probability result_of].
    split; [reflexivity |]. apply win_clamp_cases.
  - intros Hne Hp.
    destruct (components_exist driver race_state all_drivers track_config
                Hne Hp) as (base & leader & pace & strat & Hc).
    eexists. apply (compute_win_probability_of_components _ _ _ _ _ _ _ _ Hc).
Qed.

Lemma win_probability_clamped_sum_witness :
  exists r,
    compute_win_probability second_lec late_race late_field monza = inr r
    /\ 0.001 <= win_probability r <= 0.99.
Proof.
  destruct (win_probability_clamped_sum second_lec late_race late_field monza)
    as [Hval Hret].
  destruct Hret as [r Hr].
  - discriminate.
  - vm_compute. discriminate.
  - exists r. split; [exact Hr |].
    destruct (Hval r Hr) as (base & leader & pace & strat & _ & Hw).
    cbv zeta in Hw. tauto.
Defined.

(** The win probabilities of a field are not rescaled to sum to 1. *)
Lemma late_field_not_normalized :
  exists r1 r2 r3,
    compute_win_probability leader_ver late_race late_field monza = inr r1
    /\ compute_win_probability second_lec late_race late_field monza = inr r2
    /\ compute_win_probability sixth_bot late_race late_field monza = inr r3
    /\ win_probability r1 + win_probability r2 + win_probability r3 < 1.
Proof.
  do 3 eexists. repeat split; try reflexivity.
Qed.

(** ** Safety car *)

(** C6. Under a caution-type flag (SC, VSC or YELLOW) the entrant in
    position 1 gets the fixed adjustment -0.10, every other position up to
    5 gets [0.05 + (5 - position) * 0.02], which is positive and strictly
    smaller for a later position, and every position beyond 5 gets the flat
    gain 0.02. Under any other flag the adjustment is exactly 0.0. Hence,
    for the entrant in position 1 and all other inputs unchanged, a change of
    the flag from a non-caution to a caution state lowers the raw score by
    exactly 0.10. *)
Theorem safety_car_adjustment_cases (driver : DriverState) (flag : string)
    (gap : Q) (laps_remaining : Z) :
  (caution flag ->
     (position driver = 1%Z ->
        safety_car_adjustment driver flag gap laps_remaining = - 0.10)
     /\ (position driver <> 1%Z -> (position driver <= 5)%Z ->
         safety_car_adjustment driver flag gap laps_remaining
         = 0.05 + inject_Z (5 - position driver) * 0.02
         /\ 0 < safety_car_adjustment driver flag gap laps_remaining)
     /\ ((5 < position driver)%Z ->
         safety_car_adjustment driver flag gap laps_remaining = 0.02)
     /\ (forall driver' gap',
           (2 <= position driver)%Z ->
           (position driver < position driver')%Z ->
           (position driver' <= 5)%Z ->
           safety_car_adjustment driver' flag gap' laps_remaining
           < safety_car_adjustment driver flag gap laps_remaining))
  /\ (~ caution flag ->
      safety_car_adjustment driver flag gap laps_remaining = 0.0)
  /\ (forall race_state all_drivers track_config green raw,
        position driver = 1%Z -> ~ caution green -> caution flag ->
        raw_prob driver (with_flag race_state green) all_drivers track_config
        = inr raw ->
        exists raw',
          raw_prob driver (with_flag race_state flag) all_drivers track_config
          = inr raw'
          /\ raw' == raw - 0.10).
Proof.
  split; [| split].
  - intros Hc. split; [| split; [| split]].
    + now apply safety_car_leader.
    + intros H1 H5. rewrite safety_car_top5 by assumption.
      split; [reflexivity |].
      pose proof (top5_gain_positive (position driver) H5). lra.
    + now apply safety_car_rest.
    + intros driver' gap' H2 Hlt H5.
      rewrite !safety_car_top5 by (assumption || lia).
      now apply top5_gain_decays.
  - now apply safety_car_green.
  - intros race_state all_drivers track_config green raw Hp Hg Hc Hraw.
    apply raw_prob_inv in Hraw.
    destruct Hraw as (base & leader & pace & strat & Hcomp & ->).
    exists (base + pace + fst strat
            + sc_component driver (with_flag race_state flag)).
    split.
    + apply (raw_prob_of_components driver (with_flag race_state flag)
               all_drivers track_config base leader pace strat).
      exact Hcomp.
    + unfold sc_component. cbn [flag_status with_flag].
      rewrite (safety_car_leader driver _ _ flag Hc Hp).
      rewrite (safety_car_green driver _ _ green Hg). lra.
Qed.

Lemma safety_car_adjustment_cases_witness :
  safety_car_adjustment leader_ver "SC" 0 5 = - 0.10
  /\ safety_car_adjustment second_lec "VSC" 2.0 5 = 0.05 + inject_Z 3 * 0.02
  /\ safety_car_adjustment sixth_bot "YELLOW" 40.0 5 = 0.02
  /\ safety_car_adjustment leader_ver "GREEN" 0 5 = 0.0
  /\ exists raw',
       raw_prob leader_ver (with_flag late_race "SC") late_field monza
       = inr raw'
       /\ raw' == 0.85 - 0.10.
Proof.
  assert (Hsc : caution "SC") by (now left).
  assert (Hvsc : caution "VSC") by (right; now left).
  assert (Hy : caution "YELLOW") by (right; now right).
  assert (Hg : ~ caution "GREEN") by (intros [H | [H | H]]; discriminate H).
  destruct (safety_car_adjustment_cases leader_ver "SC" 0 5)
    as (Hlead & _ & Htrans).
  destruct (safety_car_adjustment_cases second_lec "VSC" 2.0 5)
    as (Htop & _).
  destruct (safety_car_adjustment_cases sixth_bot "YELLOW" 40.0 5)
    as (Hrest & _).
  destruct (safety_car_adjustment_cases leader_ver "GREEN" 0 5)
    as (_ & Hgreen & _).
  split; [| split; [| split; [| split]]].
  - apply (proj1 (Hlead Hsc)). reflexivity.
  - destruct (Htop Hvsc) as (_ & H5 & _).
    apply H5; [discriminate | vm_compute; discriminate].
  - destruct (Hrest Hy) as (_ & _ & H6 & _). apply H6. reflexivity.
  - apply Hgreen, Hg.
  - edestruct (Htrans late_race late_field monza "GREEN")
      as (raw' & Hraw' & Heq);
      [reflexivity | exact Hg | exact Hsc | reflexivity |].
    exists raw'. split; [exact Hraw' |]. rewrite Heq. reflexivity.
Defined.

(** ** Factor list *)

(** C9, as worded, fails: for the pace-equal second-placed car under a
    green flag the factor list holds two [None] entries. *)
Lemma key_factors_with_none :
  exists r,
    compute_win_probability second_lec late_race late_field monza = inr r
    /\ key_factors r
       = [Some "Position: P2"; Some "Pace: +0.0% adjustment"; None; None]
    /\ In None (key_factors r).
Proof.
  eexists. split; [reflexivity |]. split; [reflexivity |].
  cbn. tauto.
Qed.

(** C9 (amended). The factor list of every returned result has exactly four
    entries. The first two are always strings: the position line and the
    pace line. The third is the strategy explanation string when the
    strategy adjustment is non-zero and [None] when it is zero; the fourth
    is the string "SC boost" when the safety-car adjustment is strictly
    positive and [None] otherwise. *)
Theorem key_factors_shape (driver : DriverState) (race_state : RaceState)
    (all_drivers : list DriverState) (track_config : TrackConfig)
    (r : PredictionResult) :
  compute_win_probability driver race_state all_drivers track_config = inr r ->
  exists base leader pace strat third fourth,
    components_are driver race_state all_drivers track_config
      base leader pace strat
    /\ key_factors r
       = [ Some ("Position: P" ++ Py.str (position driver));
           Some ("Pace: " ++ Py.format_signed_percent1 pace ++ " adjustment");
           third; fourth ]
    /\ (~ fst strat == 0 -> third = Some (snd strat))
    /\ (fst strat == 0 -> third = None)
    /\ (0 < sc_component driver race_state -> fourth = Some "SC boost")
    /\ (sc_component driver race_state <= 0 -> fourth = None).
Proof.
  intros Hr.
  destruct (compute_win_probability_inv _ _ _ _ _ Hr)
    as (base & leader & pace & strat & Hc & ->).
  exists base, leader, pace, strat.
  exists (if Py.neb (fst strat) 0 then Some (snd strat) else None).
  exists (if Py.ltb 0 (sc_component driver race_state)
          then Some "SC boost" else None).
  split; [exact Hc |]. split; [reflexivity |].
  repeat split.
  - intros H. apply neb_neq in H. now rewrite H.
  - intros H. destruct (Py.neb (fst strat) 0) eqn:E; [| reflexivity].
    apply neb_neq in E. contradiction.
  - intros H. apply ltb_lt in H. now rewrite H.
  - intros H. apply ltb_ge in H. now rewrite H.
Qed.

Lemma key_factors_shape_witness :
  exists r,
    compute_win_probability leader_ver (with_flag late_race "SC")
      (leader_ver :: mk_driver "RUS" 2 1.0 80.0 "SOFT" 2 :: nil) monza = inr r
    /\ nth_error (key_factors r) 2 = Some (Some "Undercut vulnerable to P2")
    /\ nth_error (key_factors r) 3 = Some None.
Proof.
  destruct (compute_win_probability leader_ver (with_flag late_race "SC")
              (leader_ver :: mk_driver "RUS" 2 1.0 80.0 "SOFT" 2 :: nil) monza)
    as [e | r] eqn:Hr; [vm_compute in Hr; discriminate Hr |].
  exists r. split; [reflexivity |].
  destruct (key_factors_shape _ _ _ _ _ Hr)
    as (base & leader & pace & strat & third & fourth
        & Hc & Hk & H3 & _ & _ & H4).
  destruct Hc as (_ & _ & _ & Hs).
  vm_compute in Hs. injection Hs as <-.
  rewrite Hk. cbn [nth_error]. split.
  - rewrite H3; [reflexivity |]. intros H. discriminate H.
  - rewrite H4; [reflexivity |]. intros H. discriminate H.
Defined.

(** ** Confidence interval *)

(** Around a centre within [0,1], clamping the lower bound at 0 and the
    upper bound at 1 is the same as clamping each bound to [0,1]. *)
Lemma one_sided_clamps (centre half : Q) :
  0 <= centre <= 1 -> 0 <= half ->
  Py.max 0.0 (centre - half) == Py.max 0.0 (Py.min 1.0 (centre - half))
  /\ Py.min 1.0 (centre + half) == Py.max 0.0 (Py.min 1.0 (centre + half))
  /\ 0 <= Py.max 0.0 (centre - half) <= centre
  /\ centre <= Py.min 1.0 (centre + half) <= 1.
Proof.
  intros Hc Hh. case_minmax; repeat split; lra.
Qed.

Section ConfidenceInterval.

Variable data_staleness : Q.
Variable has_pit_data : bool.

Lemma staleness_capped : staleness_factor data_staleness <= 0.10.
Proof. unfold staleness_factor. apply min_upper. Qed.

Lemma staleness_nonneg :
  0 <= data_staleness -> 0 <= staleness_factor data_staleness.
Proof.
  intros H. unfold staleness_factor. apply min_lower; [lra |].
  assert (0 <= data_staleness / 60.0).
  { apply Qle_shift_div_l; lra. }
  nra.
Qed.

(** The width loses 0.30 per unit of race progress. *)
Lemma total_width_progress (p1 p2 : Q) :
  total_width p1 data_staleness has_pit_data
  - total_width p2 data_staleness has_pit_data == 0.30 * (p2 - p1).
Proof. unfold total_width. cbv zeta. ring. Qed.

Lemma total_width_decreasing (p1 p2 : Q) :
  p1 < p2 ->
  total_width p2 data_staleness has_pit_data
  < total_width p1 data_staleness has_pit_data.
Proof.
  intros H. pose proof (total_width_progress p1 p2). lra.
Qed.

(** The floor: with a non-negative staleness the width is at least 0.05 up
    to and at full race progress. *)
Lemma total_width_floor (race_progress : Q) :
  race_progress <= 1 -> 0 <= data_staleness ->
  0.05 <= total_width race_progress data_staleness has_pit_data.
Proof.
  intros Hp Hs. unfold total_width. cbv zeta.
  pose proof (staleness_nonneg Hs).
  destruct has_pit_data; cbn [negb]; lra.
Qed.

Lemma total_width_upper (race_progress : Q) :
  0 <= race_progress ->
  total_width race_progress data_staleness has_pit_data <= 0.5.
Proof.
  intros Hp. unfold total_width. cbv zeta.
  pose proof staleness_capped.
  destruct has_pit_data; cbn [negb]; lra.
Qed.

(** For a base probability within [0,1] and a non-negative width the
    one-sided clamps of the code keep both bounds within [0,1], around the
    base probability. *)
Lemma confidence_interval_in_range (base_probability race_progress : Q) :
  0 <= base_probability <= 1 ->
  0 <= total_width race_progress data_staleness has_pit_data ->
  let w := total_width race_progress data_staleness has_pit_data in
  let ci := confidence_interval base_probability race_progress
              data_staleness has_pit_data in
  fst ci == Py.max 0.0 (Py.min 1.0 (base_probability - w / 2))
  /\ snd ci == Py.max 0.0 (Py.min 1.0 (base_probability + w / 2))
  /\ 0 <= fst ci <= base_probability
  /\ base_probability <= snd ci <= 1.
Proof.
  intros Hb Hw w ci. subst ci w. unfold confidence_interval.
  cbv zeta. cbn [fst snd].
  apply one_sided_clamps; [exact Hb |].
  apply Qle_shift_div_l; lra.
Qed.

End ConfidenceInterval.

(** The half-width used by the ensemble shrinks with race progress too. *)
Lemma confidence_width_decreasing (p1 p2 : Q) :
  p1 < p2 -> confidence_width p2 < confidence_width p1.
Proof. unfold confidence_width. intros H. lra. Qed.

(** Between 10% and 90% of the race the interval itself, after clamping,
    gets strictly narrower as the race progresses, whatever the base
    probability. *)
Lemma interval_width_decreasing (base_probability p1 p2 data_staleness : Q)
    (has_pit_data : bool) :
  0.1 <= p1 -> p1 < p2 -> p2 <= 0.9 ->
  let ci1 := confidence_interval base_probability p1 data_staleness
               has_pit_data in
  let ci2 := confidence_interval base_probability p2 data_staleness
               has_pit_data in
  snd ci2 - fst ci2 < snd ci1 - fst ci1.
Proof.
  intros H1 Hlt H2 ci1 ci2. subst ci1 ci2. unfold confidence_interval.
  cbv zeta. cbn [fst snd].
  pose proof (total_width_decreasing data_staleness has_pit_data p1 p2 Hlt)
    as Hw.
  pose proof (total_width_upper data_staleness has_pit_data p1) as Hu.
  assert (Hu' : total_width p1 data_staleness has_pit_data <= 0.5)
    by (apply Hu; lra).
  clear Hu.
  generalize dependent (total_width p1 data_staleness has_pit_data).
  generalize dependent (total_width p2 data_staleness has_pit_data).
  intros w2 w1 Hw Hu.
  assert (Hh1 : w1 / 2 <= 0.25) by (apply Qle_shift_div_r; lra).
  assert (Hh2 : w2 / 2 < w1 / 2).
  { unfold Qdiv. apply Qmult_lt_compat_r; [reflexivity | exact Hw]. }
  generalize dependent (w1 / 2). generalize dependent (w2 / 2).
  intros h2 h1 Hh1 Hh2.
  case_minmax; lra.
Qed.

(** The interval of a returned result: the raw score plus and minus
    [confidence_width], the lower bound clamped at 0 and the upper at 1. *)
Lemma ensemble_interval (driver : DriverState) (race_state : RaceState)
    (all_drivers : list DriverState) (track_config : TrackConfig)
    (r : PredictionResult) :
  compute_win_probability driver race_state all_drivers track_config = inr r ->
  exists raw,
    raw_prob driver race_state all_drivers track_config = inr raw
    /\ confidence_interval_of r
       = (Py.max 0.0 (raw - confidence_width (race_progress race_state)),
          Py.min 1.0 (raw + confidence_width (race_progress race_state))).
Proof.
  intros Hr.
  destruct (compute_win_probability_inv _ _ _ _ _ Hr)
    as (base & leader & pace & strat & Hc & ->).
  eexists. split.
  - apply (raw_prob_of_components _ _ _ _ _ _ _ _ Hc).
  - reflexivity.
Qed.

(** C4. The interval is meant to be clamped to [0,1]: the ensemble clamps
    its lower bound with [max(0.0, .)] and its upper bound with
    [min(1.0, .)], and clamps the win probability itself on both sides. The
    upper bound is never clamped from below, though, nor the lower bound
    from above, and the interval is centred on the unclamped raw score. For
    the backmarker of the late-race field (position 6, five laps left, half
    a second per lap slower than the leader, green flag, 90% of the race
    run) the raw score is -0.099, the win probability is clamped to 0.001,
    and the interval of the result is (0.0, -0.024): its upper bound is
    negative, below the lower bound and outside [0,1].
    [confidence_interval] has the same one-sided clamps: around -0.099 at
    full race progress it returns (0.0, -0.074). *)
Lemma confidence_interval_upper_below_zero :
  (exists r raw,
     compute_win_probability sixth_bot late_race late_field monza = inr r
     /\ raw_prob sixth_bot late_race late_field monza = inr raw
     /\ raw == - 0.099
     /\ win_probability r = 0.001
     /\ fst (confidence_interval_of r) = 0.0
     /\ snd (confidence_interval_of r) == - 0.024
     /\ ~ 0 <= snd (confidence_interval_of r) <= 1)
  /\ fst (confidence_interval (- 0.099) 1.0 0 true) = 0.0
  /\ snd (confidence_interval (- 0.099) 1.0 0 true) == - 0.074
  /\ ~ 0 <= snd (confidence_interval (- 0.099) 1.0 0 true) <= 1.
Proof.
  split; [| repeat split; try reflexivity].
  - do 2 eexists. repeat split; try reflexivity.
    intros [H _]. vm_compute in H. now apply H.
  - intros [H _]. vm_compute in H. now apply H.
Qed.

(** What the two interval computations do guarantee. With all other
    inputs equal, the width
    [0.30 * (1 - race_progress) + staleness + missing-data + 0.05] is
    strictly decreasing in the race progress, and between 10% and 90% of the
    race so is the width of the returned interval; the staleness term is
    capped at 0.10 and, for a non-negative staleness, the floor keeps the
    width at least 0.05 at 100% completion. For a base probability within
    [0,1] and a non-negative width both bounds of [confidence_interval] lie
    in [0,1]; for a raw score within [0,1] and a race progress of at most 1
    so do the bounds the ensemble stores, whose half-width
    [0.25 * (1 - race_progress) + 0.05] also decreases strictly with the
    race progress. *)
Theorem confidence_interval_width (base_probability p1 p2 data_staleness : Q)
    (has_pit_data : bool) :
  let width p := total_width p data_staleness has_pit_data in
  let ci p := confidence_interval base_probability p data_staleness
                has_pit_data in
  (forall p,
     width p == 0.30 * (1.0 - p) + staleness_factor data_staleness
                + (if has_pit_data then 0.0 else 0.05) + 0.05)
  /\ staleness_factor data_staleness <= 0.10
  /\ (p1 < p2 -> width p2 < width p1)
  /\ (0.1 <= p1 -> p1 < p2 -> p2 <= 0.9 ->
      snd (ci p2) - fst (ci p2) < snd (ci p1) - fst (ci p1))
  /\ (0 <= data_staleness -> 0.05 <= width 1.0)
  /\ (0 <= base_probability <= 1 -> 0 <= width p1 ->
      fst (ci p1)
      == Py.max 0.0 (Py.min 1.0 (base_probability - width p1 / 2))
      /\ snd (ci p1)
         == Py.max 0.0 (Py.min 1.0 (base_probability + width p1 / 2))
      /\ 0 <= fst (ci p1) <= base_probability
      /\ base_probability <= snd (ci p1) <= 1)
  /\ (forall driver race_state all_drivers track_config r raw,
        compute_win_probability driver race_state all_drivers track_config
        = inr r ->
        raw_prob driver race_state all_drivers track_config = inr raw ->
        0 <= raw <= 1 -> race_progress race_state <= 1 ->
        let half := confidence_width (race_progress race_state) in
        fst (confidence_interval_of r)
        == Py.max 0.0 (Py.min 1.0 (raw - half))
        /\ snd (confidence_interval_of r)
           == Py.max 0.0 (Py.min 1.0 (raw + half)))
  /\ (p1 < p2 -> confidence_width p2 < confidence_width p1).
Proof.
  intros width ci. subst width ci. cbv beta.
  split; [| split; [| split; [| split; [| split; [| split; [| split]]]]]].
  - intros p. unfold total_width. cbv zeta.
    destruct has_pit_data; reflexivity.
  - apply staleness_capped.
  - apply total_width_decreasing.
  - apply interval_width_decreasing.
  - apply total_width_floor. lra.
  - apply confidence_interval_in_range.
  - intros driver race_state all_drivers track_config r raw Hr Hraw Hin Hp
      half.
    destruct (ensemble_interval _ _ _ _ _ Hr) as (raw' & Hraw' & Hci).
    rewrite Hraw in Hraw'. injection Hraw' as <-.
    rewrite Hci. cbn [fst snd].
    assert (Hh : 0 <= half) by (subst half; unfold confidence_width; lra).
    destruct (one_sided_clamps raw half Hin Hh) as (Hlo & Hhi & _).
    split; assumption.
  - apply confidence_width_decreasing.
Qed.

Lemma confidence_interval_width_witness :
  total_width 0.7 30.0 true < total_width 0.2 30.0 true
  /\ 0.05 <= total_width 1.0 30.0 true
  /\ 0 <= fst (confidence_interval 0.5 0.2 30.0 true)
  /\ snd (confidence_interval 0.5 0.2 30.0 true) <= 1
  /\ exists r,
       compute_win_probability second_lec late_race late_field monza = inr r
       /\ snd (confidence_interval_of r)
          == Py.max 0.0 (Py.min 1.0 (0.10 + confidence_width 0.9)).
Proof.
  destruct (confidence_interval_width 0.5 0.2 0.7 30.0 true)
    as (_ & _ & Hdec & _ & Hfloor & Hrange & Hens & _).
  cbv beta in Hdec, Hfloor, Hrange.
  split; [apply Hdec; reflexivity |].
  split; [apply Hfloor; vm_compute; discriminate |].
  destruct Hrange as (_ & _ & [Hlo _] & [_ Hhi]).
  - split; vm_compute; discriminate.
  - vm_compute; discriminate.
  - split; [exact Hlo |]. split; [exact Hhi |].
    destruct (compute_win_probability second_lec late_race late_field monza)
      as [e | r] eqn:Hr; [vm_compute in Hr; discriminate Hr |].
    exists r. split; [reflexivity |].
    edestruct (Hens second_lec late_race late_field monza r) as [_ Hsnd];
      [exact Hr | reflexivity | | | ].
    + split; vm_compute; discriminate.
    + vm_compute; discriminate.
    + cbv zeta in Hsnd. rewrite Hsnd.
      vm_compute. reflexivity.
Defined.

(** ** Payload decompression *)

(** Whenever the library decoders undo their encoders, [decompress] undoes
    [compress]. *)
Lemma decompress_compress_lawful {J : Type} (lib : Codecs J) (v : J) :
  lawful lib -> decompress lib (compress lib v) = inr v.
Proof.
  intros (Hb64 & Hzlib & Htext & Hjson).
  unfold decompress, compress.
  step_bind (Hb64 (raw_deflate lib (str_encode lib (json_dumps lib v)))).
  step_bind (Hzlib (str_encode lib (json_dumps lib v))).
  step_bind (Htext (json_dumps lib v)).
  apply Hjson.
Qed.

(** *** Bytes *)

Lemma byte_of_val (b : byte) : byte_of (byte_val b) = b.
Proof.
  unfold byte_of, byte_val. rewrite <- ascii_of_byte_via_N.
  apply byte_of_ascii_of_byte.
Qed.

Lemma byte_val_bound (b : byte) : (byte_val b < 256)%N.
Proof.
  unfold byte_val. pose proof (Byte.to_N_bounded b). lia.
Qed.

Lemma byte_val_of (n : N) : (n < 256)%N -> byte_val (byte_of n) = n.
Proof.
  intros H. unfold byte_of, byte_val.
  pose proof (byte_of_ascii_via_N (ascii_of_N n)) as E.
  rewrite N_ascii_embedding in E by exact H.
  symmetry in E. now apply Byte.to_of_N.
Qed.

(** *** Base64 *)

(** Every number below 64 is one of 64 numerals. *)
Lemma below_64_cases (P : N -> Prop) :
  (forall i, In i (seq 0 64) -> P (N.of_nat i)) ->
  forall n, (n < 64)%N -> P n.
Proof.
  intros H n Hn. rewrite <- (N2Nat.id n). apply H.
  apply in_seq. lia.
Qed.

Lemma b64_index_char (n : N) :
  (n < 64)%N -> b64_index (b64_char n) = Some n.
Proof.
  revert n. apply below_64_cases. intros i Hi.
  repeat (destruct Hi as [<- | Hi]; [vm_compute; reflexivity |]).
  destruct Hi.
Qed.

Lemma b64_char_not_pad (n : N) :
  (n < 64)%N -> is_pad (b64_char n) = false.
Proof.
  revert n. apply below_64_cases. intros i Hi.
  repeat (destruct Hi as [<- | Hi]; [vm_compute; reflexivity |]).
  destruct Hi.
Qed.

Lemma b64_keep_char (n : N) : (n < 64)%N -> b64_keep (b64_char n) = true.
Proof.
  intros H. unfold b64_keep. now rewrite b64_index_char.
Qed.

(** Linear arithmetic with division and remainder by numerals. *)
Ltac lia_div := zify; Z.to_euclidean_division_equations; lia.

Lemma list_ind3 {A : Type} (P : list A -> Prop) :
  P [] -> (forall a, P [a]) -> (forall a b, P [a; b]) ->
  (forall a b c l, P l -> P (a :: b :: c :: l)) ->
  forall l, P l.
Proof.
  intros H0 H1 H2 H3 l.
  enough (P l /\ (forall a, P (a :: l)) /\ (forall a b, P (a :: b :: l)))
    by tauto.
  induction l as [| x l (IH0 & IH1 & IH2)].
  - repeat split; auto.
  - repeat split; auto.
Qed.

(** One byte split over two sextets, two bytes over three, three over
    four, and back. *)
Lemma sextets_of_one (x : N) :
  (x < 256 ->
   x / 4 < 64 /\ (x mod 4) * 16 < 64
   /\ (x / 4) * 4 + ((x mod 4) * 16) / 16 = x)%N.
Proof. intros H. repeat split; lia_div. Qed.

Lemma sextets_of_two (x y : N) :
  (x < 256 -> y < 256 ->
   (x mod 4) * 16 + y / 16 < 64 /\ (y mod 16) * 4 < 64
   /\ (x / 4) * 4 + ((x mod 4) * 16 + y / 16) / 16 = x
   /\ (((x mod 4) * 16 + y / 16) mod 16) * 16 + ((y mod 16) * 4) / 4 = y)%N.
Proof. intros Hx Hy. repeat split; lia_div. Qed.

Lemma sextets_of_three (y z : N) :
  (y < 256 -> z < 256 ->
   (y mod 16) * 4 + z / 64 < 64 /\ z mod 64 < 64
   /\ (((y mod 16) * 4 + z / 64) mod 4) * 64 + z mod 64 = z)%N.
Proof. intros Hy Hz. repeat split; lia_div. Qed.

Lemma sextets_middle (x y z : N) :
  (x < 256 -> y < 256 -> z < 256 ->
   (((x mod 4) * 16 + y / 16) mod 16) * 16
   + ((y mod 16) * 4 + z / 64) / 4 = y)%N.
Proof. intros Hx Hy Hz. lia_div. Qed.

(** The base64 layer: decoding undoes encoding. *)
Lemma rfc_b64decode_encode (bs : list byte) :
  rfc_b64decode (rfc_b64encode bs) = inr bs.
Proof.
  induction bs as [| a | a b | a b c rest IH] using list_ind3.
  - reflexivity.
  - pose proof (byte_val_bound a) as Ha.
    destruct (sextets_of_one (byte_val a) Ha) as (H0 & H1 & Hx).
    cbn [rfc_b64encode rfc_b64decode].
    rewrite !b64_index_char by assumption.
    change (is_pad "=") with true. cbn [andb is_empty].
    now rewrite Hx, byte_of_val.
  - pose proof (byte_val_bound a) as Ha.
    pose proof (byte_val_bound b) as Hb.
    destruct (sextets_of_one (byte_val a) Ha) as (H0 & _ & _).
    destruct (sextets_of_two (byte_val a) (byte_val b) Ha Hb)
      as (H1 & H2 & Hx & Hy).
    cbn [rfc_b64encode rfc_b64decode].
    rewrite !b64_index_char by assumption.
    rewrite (b64_char_not_pad _ H2).
    change (is_pad "=") with true. cbn [is_empty].
    now rewrite Hx, Hy, !byte_of_val.
  - pose proof (byte_val_bound a) as Ha.
    pose proof (byte_val_bound b) as Hb.
    pose proof (byte_val_bound c) as Hc.
    destruct (sextets_of_one (byte_val a) Ha) as (H0 & _ & _).
    destruct (sextets_of_two (byte_val a) (byte_val b) Ha Hb)
      as (H1 & _ & Hx & _).
    destruct (sextets_of_three (byte_val b) (byte_val c) Hb Hc)
      as (H2 & H3 & Hz).
    pose proof (sextets_middle _ _ _ Ha Hb Hc) as Hy.
    cbn [rfc_b64encode rfc_b64decode].
    rewrite !b64_index_char by assumption.
    rewrite (b64_char_not_pad _ H2), (b64_char_not_pad _ H3).
    step_bind IH.
    now rewrite Hx, Hy, Hz, !byte_of_val.
Qed.

Lemma b64_keep_encode (bs : list byte) :
  string_filter b64_keep (rfc_b64encode bs) = rfc_b64encode bs.
Proof.
  induction bs as [| a | a b | a b c rest IH] using list_ind3.
  - reflexivity.
  - pose proof (byte_val_bound a) as Ha.
    destruct (sextets_of_one (byte_val a) Ha) as (H0 & H1 & _).
    cbn [rfc_b64encode string_filter].
    rewrite !b64_keep_char by assumption. reflexivity.
  - pose proof (byte_val_bound a) as Ha.
    pose proof (byte_val_bound b) as Hb.
    destruct (sextets_of_one (byte_val a) Ha) as (H0 & _ & _).
    destruct (sextets_of_two (byte_val a) (byte_val b) Ha Hb)
      as (H1 & H2 & _).
    cbn [rfc_b64encode string_filter].
    rewrite !b64_keep_char by assumption. reflexivity.
  - pose proof (byte_val_bound a) as Ha.
    pose proof (byte_val_bound b) as Hb.
    pose proof (byte_val_bound c) as Hc.
    destruct (sextets_of_one (byte_val a) Ha) as (H0 & _ & _).
    destruct (sextets_of_two (byte_val a) (byte_val b) Ha Hb)
      as (H1 & _).
    destruct (sextets_of_three (byte_val b) (byte_val c) Hb Hc)
      as (H2 & H3 & _).
    cbn [rfc_b64encode string_filter].
    rewrite !b64_keep_char by assumption. now rewrite IH.
Qed.

Lemma py_b64decode_encode (bs : list byte) :
  py_b64decode (rfc_b64encode bs) = inr bs.
Proof.
  unfold py_b64decode. rewrite b64_keep_encode.
  apply rfc_b64decode_encode.
Qed.

(** *** Stored blocks through the inflater *)

Local Open Scope list_scope.

Lemma bits_of_bytes_cons (b : byte) (bs : list byte) :
  bits_of_bytes (b :: bs) = bits_of_byte b ++ bits_of_bytes bs.
Proof. reflexivity. Qed.

Lemma bits_of_bytes_app (l1 l2 : list byte) :
  bits_of_bytes (l1 ++ l2) = bits_of_bytes l1 ++ bits_of_bytes l2.
Proof. unfold bits_of_bytes. apply flat_map_app. Qed.

Lemma bits_of_byte_length (b : byte) : length (bits_of_byte b) = 8%nat.
Proof. reflexivity. Qed.

Lemma bits_of_bytes_length (bs : list byte) :
  length (bits_of_bytes bs) = (8 * length bs)%nat.
Proof.
  induction bs as [| b bs IH]; [reflexivity |].
  rewrite bits_of_bytes_cons, length_app, bits_of_byte_length, IH.
  cbn [length]. lia.
Qed.

(** Eight bits read back the value of the byte they come from. *)
Lemma read_bits_byte (b : byte) (rest : list bool) :
  read_bits 8 (bits_of_byte b ++ rest) = Some (byte_val b, rest).
Proof. destruct b; reflexivity. Qed.

Lemma read_bits_add (a b : nat) (bits : list bool) :
  read_bits (a + b) bits =
  match read_bits a bits with
  | Some (v1, rest1) =>
      match read_bits b rest1 with
      | Some (v2, rest2) => Some ((v1 + 2 ^ N.of_nat a * v2)%N, rest2)
      | None => None
      end
  | None => None
  end.
Proof.
  revert bits. induction a as [| a IH]; intros bits.
  - cbn [Nat.add read_bits]. destruct (read_bits b bits) as [[v r] |];
      [| reflexivity].
    f_equal. f_equal. change (N.of_nat 0) with 0%N.
    rewrite N.pow_0_r. lia.
  - cbn [Nat.add read_bits]. destruct bits as [| x bits]; [reflexivity |].
    rewrite IH. destruct (read_bits a bits) as [[v1 r1] |]; [| reflexivity].
    destruct (read_bits b r1) as [[v2 r2] |]; [| reflexivity].
    f_equal. f_equal. rewrite Nat2N.inj_succ, N.pow_succ_r'. lia.
Qed.

Lemma read_bits_le16 (n : N) (rest : list bool) :
  (n < 65536)%N ->
  read_bits 16 (bits_of_bytes (le16 n) ++ rest) = Some (n, rest).
Proof.
  intros H. unfold le16.
  rewrite !bits_of_bytes_cons, <- !app_assoc.
  change 16%nat with (8 + 8)%nat. rewrite read_bits_add.
  rewrite read_bits_byte. cbn [bits_of_bytes flat_map app].
  rewrite read_bits_byte.
  rewrite !byte_val_of by lia_div.
  f_equal. f_equal. change (2 ^ N.of_nat 8)%N with 256%N. lia_div.
Qed.

Lemma read_bytes_bits (data : list byte) (rest : list bool) :
  read_bytes (length data) (bits_of_bytes data ++ rest) = Some (data, rest).
Proof.
  induction data as [| b data IH]; [reflexivity |].
  cbn [length read_bytes].
  rewrite bits_of_bytes_cons, <- app_assoc, read_bits_byte, IH, byte_of_val.
  reflexivity.
Qed.

(** After the three header bits, five bits of padding remain in the first
    byte. *)
Lemma align_padding (pad : list bool) (bs : list byte) :
  length pad = 5%nat ->
  align (pad ++ bits_of_bytes bs) = bits_of_bytes bs.
Proof.
  intros H. unfold align.
  rewrite length_app, bits_of_bytes_length, H.
  assert (E : ((5 + 8 * length bs) mod 8 = 5)%nat)
    by (rewrite (Nat.mul_comm 8), Nat.Div0.mod_add; reflexivity).
  rewrite E, <- H, skipn_app, skipn_all, Nat.sub_diag. reflexivity.
Qed.

Lemma inflate_stored_block (pad : list bool) (data more out : list byte) :
  length pad = 5%nat -> (length data <= max_stored)%nat ->
  let len := N.of_nat (length data) in
  inflate_stored
    (pad ++ bits_of_bytes (le16 len ++ le16 (65535 - len) ++ data ++ more))
    out
  = Some (bits_of_bytes more, rev data ++ out).
Proof.
  intros Hpad Hlen len. unfold inflate_stored.
  assert (Hl : (len <= 65535)%N) by (unfold max_stored in Hlen; lia).
  rewrite align_padding by exact Hpad.
  rewrite !bits_of_bytes_app.
  rewrite read_bits_le16 by lia.
  rewrite read_bits_le16 by lia.
  replace (len + (65535 - len) =? 65535)%N with true
    by (symmetry; apply N.eqb_eq; lia).
  subst len. rewrite Nat2N.id, read_bytes_bits. reflexivity.
Qed.

Lemma max_stored_value : N.of_nat max_stored = 65535%N.
Proof. unfold max_stored. apply N2Nat.id. Qed.

Lemma header_bits (final : bool) :
  bits_of_byte (byte_of (if final then 1 else 0))
  = final :: repeat false 7.
Proof. destruct final; reflexivity. Qed.

(** The inflater on one stored block: a final block ends the stream, any
    other is followed by the next block. *)
Lemma inflate_blocks_stored (fuel : nat) (window : N) (final : bool)
    (data more out : list byte) :
  (length data <= max_stored)%nat ->
  inflate_blocks (S fuel) window
    (bits_of_bytes (stored_block final data ++ more)) out
  = if final then Some (rev (rev data ++ out), bits_of_bytes more)
    else inflate_blocks fuel window (bits_of_bytes more) (rev data ++ out).
Proof.
  intros Hlen. unfold stored_block.
  rewrite <- app_comm_cons, bits_of_bytes_cons, header_bits.
  rewrite <- !app_assoc.
  cbn [inflate_blocks repeat app read_bits].
  change (0 + 2 * (0 + 2 * 0) =? 0)%N with true. cbv iota.
  pose proof (inflate_stored_block (repeat false 5) data more out eq_refl
                Hlen) as Hblock.
  cbn [repeat app] in Hblock. rewrite Hblock.
  destruct final; reflexivity.
Qed.

Lemma stored_blocks_inflate (window : N) (fuel : nat) :
  forall (data more out : list byte) (ifuel : nat),
    (length data <= max_stored * S fuel)%nat -> (fuel < ifuel)%nat ->
    inflate_blocks ifuel window
      (bits_of_bytes (stored_blocks fuel data ++ more)) out
    = Some (rev out ++ data, bits_of_bytes more).
Proof.
  induction fuel as [| fuel IH]; intros data more out ifuel Hlen Hfuel;
    (destruct ifuel as [| ifuel]; [lia |]); cbn [stored_blocks].
  - rewrite inflate_blocks_stored by lia.
    now rewrite rev_app_distr, rev_involutive.
  - destruct (Nat.leb_spec (length data) max_stored) as [Hs | Hl].
    + rewrite inflate_blocks_stored by lia.
      now rewrite rev_app_distr, rev_involutive.
    + rewrite <- app_assoc.
      rewrite inflate_blocks_stored by (rewrite length_firstn; lia).
      rewrite IH.
      * rewrite rev_app_distr, rev_involutive, <- app_assoc.
        now rewrite firstn_skipn.
      * rewrite length_skipn. lia.
      * lia.
Qed.

Lemma stored_blocks_length (fuel : nat) (data : list byte) :
  (length data <= length (stored_blocks fuel data))%nat.
Proof.
  revert data. induction fuel as [| fuel IH]; intros data;
    cbn [stored_blocks].
  - unfold stored_block. cbn [length]. rewrite !length_app. lia.
  - destruct (Nat.leb_spec (length data) max_stored) as [Hs | Hl].
    + unfold stored_block. cbn [length]. rewrite !length_app. lia.
    + rewrite length_app. specialize (IH (skipn max_stored data)).
      rewrite length_skipn in IH.
      unfold stored_block. cbn [length]. rewrite !length_app, length_firstn.
      lia.
Qed.

(** The deflate layer: the inflater in raw mode undoes the stored-block
    compressor. *)
Lemma py_zlib_decompress_stored (data : list byte) :
  py_zlib_decompress (stored_deflate data) (- MAX_WBITS) = inr data.
Proof.
  unfold py_zlib_decompress, inflate_raw, stored_deflate.
  change ((-15 <=? - MAX_WBITS) && (- MAX_WBITS <=? -8))%Z with true.
  cbv iota.
  pose proof max_stored_value as Hm.
  rewrite <- (app_nil_r (stored_blocks _ data)) at 2.
  rewrite stored_blocks_inflate.
  - reflexivity.
  - pose proof (Nat.div_mod_eq (length data) max_stored).
    pose proof (Nat.mod_upper_bound (length data) max_stored).
    nia.
  - rewrite bits_of_bytes_length.
    pose proof (stored_blocks_length (length data / max_stored) data).
    pose proof (Nat.Div0.div_le_upper_bound (length data) max_stored
                  (length data)).
    assert (length data / max_stored <= length data)%nat by (apply H0; nia).
    lia.
Qed.

(** *** Text encoding *)

Local Open Scope string_scope.

Lemma utf8_decode_encode (s : string) : utf8_decode (utf8_encode s) = inr s.
Proof.
  induction s as [| c s IH]; [reflexivity |].
  cbn [utf8_encode].
  pose proof (N_ascii_bounded c) as Hc.
  destruct (N.ltb_spec (N_of_ascii c) 128) as [Hlow | Hhigh].
  - cbn [utf8_decode]. rewrite byte_val_of by lia.
    destruct (N.ltb_spec (N_of_ascii c) 128); [| lia].
    step_bind IH. now rewrite ascii_N_embedding.
  - cbn [utf8_decode].
    rewrite !byte_val_of by lia_div.
    destruct (N.ltb_spec (192 + N_of_ascii c / 64) 128); [lia_div |].
    replace ((194 <=? 192 + N_of_ascii c / 64)
             && (192 + N_of_ascii c / 64 <=? 195)
             && (128 <=? 128 + N_of_ascii c mod 64)
             && (128 + N_of_ascii c mod 64 <? 192))%N with true.
    + step_bind IH.
      replace ((192 + N_of_ascii c / 64 - 192) * 64
               + (128 + N_of_ascii c mod 64 - 128))%N
        with (N_of_ascii c) by lia_div.
      now rewrite ascii_N_embedding.
    + symmetry. rewrite !andb_true_iff, !N.leb_le, N.ltb_lt.
      repeat split; lia_div.
Qed.

(** *** JSON *)

Lemma append_assoc (a b c : string) : (a ++ b) ++ c = a ++ (b ++ c).
Proof. induction a as [| x a IH]; cbn; [reflexivity | now rewrite IH]. Qed.

Lemma append_nil_r (a : string) : a ++ EmptyString = a.
Proof. induction a as [| x a IH]; cbn; [reflexivity | now rewrite IH]. Qed.

Lemma length_append (a b : string) :
  String.length (a ++ b) = (String.length a + String.length b)%nat.
Proof. induction a as [| x a IH]; cbn; [reflexivity | now rewrite IH]. Qed.

(** Induction on JSON values that reaches the items of a list and the
    values of a dictionary. *)
Lemma json_nested_ind (P : json -> Prop) :
  P JNull -> (forall b, P (JBool b)) -> (forall n, P (JInt n)) ->
  (forall s, P (JStr s)) ->
  (forall items, Forall P items -> P (JList items)) ->
  (forall members, Forall (fun kv => P (snd kv)) members ->
                   P (JDict members)) ->
  forall v, P v.
Proof.
  intros Hnull Hbool Hint Hstr Hlist Hdict.
  fix IH 1. intros [| b | n | s | items | members].
  - exact Hnull.
  - apply Hbool.
  - apply Hint.
  - apply Hstr.
  - apply Hlist. induction items as [| x items IHitems]; constructor.
    + apply IH.
    + exact IHitems.
  - apply Hdict. induction members as [| [k x] members IHm]; constructor.
    + apply IH.
    + exact IHm.
Qed.

(** Strings *)

Lemma parse_chars_escape_char (c : ascii) (tail : string) :
  parse_chars (escape_char c ++ tail) = push c (parse_chars tail).
Proof.
  destruct c as [[|] [|] [|] [|] [|] [|] [|] [|]]; reflexivity.
Qed.

Lemma parse_chars_escape (s tail : string) :
  parse_chars (escape s ++ String dquote tail) = Some (s, tail).
Proof.
  induction s as [| c s IH]; [reflexivity |].
  cbn [escape]. rewrite append_assoc, parse_chars_escape_char, IH.
  reflexivity.
Qed.

Lemma parse_chars_quote (s rest : string) :
  exists body,
    quote s ++ rest = String dquote body
    /\ parse_chars body = Some (s, rest).
Proof.
  exists (escape s ++ String dquote rest). split.
  - unfold quote. cbn [append]. now rewrite append_assoc.
  - apply parse_chars_escape.
Qed.

(** Integers *)

Lemma span_num_stop (rest : string) :
  int_stop rest = true -> span_num rest = (EmptyString, rest).
Proof.
  destruct rest as [| c rest]; [reflexivity |].
  cbn [int_stop span_num]. intros H. apply andb_true_iff in H.
  destruct H as [H _]. apply negb_true_iff in H. now rewrite H.
Qed.

Lemma span_num_uint (d : Decimal.uint) (rest : string) :
  int_stop rest = true ->
  span_num (NilEmpty.string_of_uint d ++ rest)
  = (NilEmpty.string_of_uint d, rest).
Proof.
  intros H. induction d as [| d IH | d IH | d IH | d IH | d IH | d IH
                            | d IH | d IH | d IH | d IH];
    cbn [NilEmpty.string_of_uint append];
    [now apply span_num_stop | ..];
    cbn [span_num]; change (is_num_char _) with true; cbv iota;
    now rewrite IH.
Qed.

Lemma span_num_nzuint (d : Decimal.uint) (rest : string) :
  int_stop rest = true ->
  span_num (NilZero.string_of_uint d ++ rest)
  = (NilZero.string_of_uint d, rest).
Proof.
  intros H. destruct d; try (now apply (span_num_uint _ rest H)).
  cbn [NilZero.string_of_uint append span_num].
  change (is_num_char "0") with true. cbv iota.
  now rewrite span_num_stop.
Qed.

Lemma span_num_str (n : Z) (rest : string) :
  int_stop rest = true -> span_num (Py.str n ++ rest) = (Py.str n, rest).
Proof.
  intros H. unfold Py.str, NilZero.string_of_int.
  destruct (Z.to_int n) as [d | d].
  - now apply span_num_nzuint.
  - cbn [append span_num]. change (is_num_char "-") with true. cbv iota.
    now rewrite span_num_nzuint.
Qed.

Lemma int_of_str (n : Z) :
  NilZero.int_of_string (Py.str n) = Some (Z.to_int n).
Proof.
  unfold Py.str. apply NilZero.isi.
  - destruct n; cbn [Z.to_int]; try discriminate.
    intros [= H]. now apply Unsigned.to_uint_nonnil in H.
  - destruct n; cbn [Z.to_int]; try discriminate.
    intros [= H]. now apply Unsigned.to_uint_nonnil in H.
Qed.

Lemma int_stop_no_fraction (rest : string) :
  int_stop rest = true -> starts_fraction rest = false.
Proof.
  destruct rest as [| c rest]; [reflexivity |].
  unfold int_stop. intros H. apply andb_true_iff in H.
  destruct H as [_ H]. now apply negb_true_iff in H.
Qed.

Lemma parse_int_str (n : Z) (rest : string) :
  int_stop rest = true ->
  parse_int (Py.str n ++ rest) = Some (JInt n, rest).
Proof.
  intros H. unfold parse_int.
  rewrite span_num_str by exact H.
  rewrite int_of_str, DecimalZ.of_to, String.eqb_refl.
  rewrite (int_stop_no_fraction rest H). reflexivity.
Qed.

Lemma str_head (n : Z) :
  exists c s, Py.str n = String c s /\ is_num_char c = true.
Proof.
  unfold Py.str, NilZero.string_of_int.
  destruct (Z.to_int n) as [d | d].
  - destruct d; cbn; do 2 eexists; split; reflexivity.
  - do 2 eexists. split; reflexivity.
Qed.

(** A digit or a minus sign is none of the characters the parser
    dispatches on before it tries a number. *)
Lemma num_char_dispatch (c : ascii) :
  is_num_char c = true ->
  Ascii.eqb c dquote = false /\ Ascii.eqb c "[" = false
  /\ Ascii.eqb c "{" = false /\ Ascii.eqb c "n" = false
  /\ Ascii.eqb c "t" = false /\ Ascii.eqb c "f" = false
  /\ Ascii.eqb c "]" = false /\ Ascii.eqb c "}" = false
  /\ is_ws c = false.
Proof.
  destruct c as [[|] [|] [|] [|] [|] [|] [|] [|]];
    intros H; first [discriminate H | repeat split; reflexivity].
Qed.

Lemma parse_value_int (fuel : nat) (n : Z) (rest : string) :
  int_stop rest = true ->
  parse_value (S fuel) (Py.str n ++ rest) = Some (JInt n, rest).
Proof.
  intros H. rewrite <- (parse_int_str n rest H).
  destruct (str_head n) as (c & s & E & Hc). rewrite E.
  destruct (num_char_dispatch c Hc) as (H1 & H2 & H3 & H4 & H5 & H6 & _).
  cbn [parse_value append]. now rewrite H1, H2, H3, H4, H5, H6.
Qed.

(** The first character of a serialized value is not whitespace and not a
    closing bracket. *)
Lemma dumps_head (v : json) :
  exists c s,
    dumps v = String c s
    /\ is_ws c = false /\ Ascii.eqb c "]" = false /\ Ascii.eqb c "}" = false.
Proof.
  destruct v as [| [|] | n | s | items | members];
    try (do 2 eexists; split; [reflexivity | repeat split; reflexivity]).
  destruct (str_head n) as (c & s & E & Hc).
  destruct (num_char_dispatch c Hc) as (_ & _ & _ & _ & _ & _ & H7 & H8 & H9).
  exists c, s. cbn [dumps]. tauto.
Qed.

Lemma skip_ws_dumps (v : json) (rest : string) :
  skip_ws (dumps v ++ rest) = dumps v ++ rest.
Proof.
  destruct (dumps_head v) as (c & s & E & Hws & _).
  rewrite E. cbn [append skip_ws]. now rewrite Hws.
Qed.

Lemma dumps_nonempty (v : json) : (1 <= String.length (dumps v))%nat.
Proof.
  destruct (dumps_head v) as (c & s & E & _). rewrite E. cbn. lia.
Qed.

(** Joined parts *)

Lemma join_cons (x : string) (parts : list string) :
  exists t, join (x :: parts) = x ++ t.
Proof.
  destruct parts as [| y parts].
  - exists EmptyString. cbn [join]. now rewrite append_nil_r.
  - eexists. reflexivity.
Qed.

Lemma join_length_in (parts : list string) (p : string) :
  In p parts -> (String.length p <= String.length (join parts))%nat.
Proof.
  induction parts as [| x parts IH]; [intros [] |].
  intros Hin. destruct parts as [| y parts].
  - destruct Hin as [<- | []]. cbn [join]. lia.
  - change (join (x :: y :: parts)) with (x ++ ", " ++ join (y :: parts)).
    rewrite !length_append. destruct Hin as [<- | Hin]; [lia |].
    specialize (IH Hin). lia.
Qed.

Lemma join_length_count (parts : list string) :
  Forall (fun p => (1 <= String.length p)%nat) parts ->
  (length parts <= String.length (join parts))%nat.
Proof.
  induction 1 as [| x parts Hx Hparts IH]; [cbn; lia |].
  destruct parts as [| y parts].
  - cbn [join length]. lia.
  - change (join (x :: y :: parts)) with (x ++ ", " ++ join (y :: parts)).
    rewrite !length_append. cbn [length] in *. lia.
Qed.

Lemma skip_ws_nonws (c : ascii) (s : string) :
  is_ws c = false -> skip_ws (String c s) = String c s.
Proof. intros H. cbn [skip_ws]. now rewrite H. Qed.

Lemma skip_ws_space (s : string) : skip_ws (String " " s) = skip_ws s.
Proof. reflexivity. Qed.

(** Arrays *)

Lemma elements_head (x : json) (items : list json) (tail : string) :
  exists c s,
    join (map dumps (x :: items)) ++ tail = String c s
    /\ is_ws c = false /\ Ascii.eqb c "]" = false.
Proof.
  cbn [map]. destruct (join_cons (dumps x) (map dumps items)) as [t ->].
  destruct (dumps_head x) as (c & s & -> & Hws & Hb & _).
  exists c, ((s ++ t) ++ tail). cbn [append]. tauto.
Qed.

Lemma parse_elements_join (value : string -> option (json * string))
    (items : list json) :
  Forall (fun v => forall rest, int_stop rest = true ->
                   value (dumps v ++ rest) = Some (v, rest)) items ->
  items <> [] ->
  forall fuel rest,
    (length items <= fuel)%nat ->
    parse_elements value fuel (join (map dumps items) ++ String "]" rest)
    = Some (items, rest).
Proof.
  induction 1 as [| x items Hx Hitems IH]; [contradiction |].
  intros _ fuel rest Hfuel.
  destruct fuel as [| fuel]; [cbn in Hfuel; lia |].
  destruct items as [| y items].
  - cbn [map join parse_elements].
    rewrite Hx by reflexivity. reflexivity.
  - change (join (map dumps (x :: y :: items)))
      with (dumps x ++ ", " ++ join (map dumps (y :: items))).
    rewrite !append_assoc. cbn [parse_elements].
    rewrite Hx by reflexivity.
    cbn [append]. rewrite (skip_ws_nonws "," _ eq_refl).
    change (Ascii.eqb "," ",") with true. cbv iota.
    rewrite skip_ws_space.
    destruct (elements_head y items (String "]" rest))
      as (c & s & E & Hws & _).
    rewrite E, (skip_ws_nonws c s Hws), <- E.
    rewrite IH; [reflexivity | discriminate | cbn [length] in *; lia].
Qed.

(** Objects *)

Lemma member_text_shape (k : string) (v : json) (tail : string) :
  member_text (k, v) ++ tail
  = String dquote
      (escape k ++ String dquote (String ":" (String " " (dumps v ++ tail)))).
Proof.
  unfold member_text, quote. cbn [fst snd append].
  rewrite !append_assoc. cbn [append]. reflexivity.
Qed.

Lemma parse_members_join (value : string -> option (json * string))
    (members : list (string * json)) :
  Forall (fun kv => forall rest, int_stop rest = true ->
                    value (dumps (snd kv) ++ rest) = Some (snd kv, rest))
    members ->
  members <> [] ->
  forall fuel rest,
    (length members <= fuel)%nat ->
    parse_members value fuel
      (join (map member_text members) ++ String "}" rest)
    = Some (members, rest).
Proof.
  induction 1 as [| [k v] members Hx Hmembers IH]; [contradiction |].
  intros _ fuel rest Hfuel. cbn [snd] in Hx.
  destruct fuel as [| fuel]; [cbn in Hfuel; lia |].
  destruct members as [| kv members].
  - cbn [map join]. rewrite member_text_shape. cbn [parse_members].
    change (Ascii.eqb dquote dquote) with true. cbv iota.
    rewrite parse_chars_escape.
    rewrite (skip_ws_nonws ":" _ eq_refl).
    change (Ascii.eqb ":" ":") with true. cbv iota.
    rewrite skip_ws_space, skip_ws_dumps, Hx by reflexivity. reflexivity.
  - change (join (map member_text ((k, v) :: kv :: members)))
      with (member_text (k, v) ++ ", "
            ++ join (map member_text (kv :: members))).
    rewrite !append_assoc, member_text_shape. cbn [parse_members].
    change (Ascii.eqb dquote dquote) with true. cbv iota.
    rewrite parse_chars_escape.
    rewrite (skip_ws_nonws ":" _ eq_refl).
    change (Ascii.eqb ":" ":") with true. cbv iota.
    rewrite skip_ws_space, skip_ws_dumps, Hx by reflexivity.
    cbn [append]. rewrite (skip_ws_nonws "," _ eq_refl).
    change (Ascii.eqb "," ",") with true. cbv iota.
    rewrite skip_ws_space.
    assert (E : skip_ws (join (map member_text (kv :: members))
                         ++ String "}" rest)
                = join (map member_text (kv :: members)) ++ String "}" rest).
    { cbn [map]. destruct (join_cons (member_text kv)
                             (map member_text members)) as [t ->].
      destruct kv as [k' v']. rewrite !append_assoc, member_text_shape.
      reflexivity. }
    rewrite E.
    rewrite IH; [reflexivity | discriminate | cbn [length] in *; lia].
Qed.

(** Values *)

Lemma dumps_list_text (items : list json) (rest : string) :
  dumps (JList items) ++ rest
  = String "[" (join (map dumps items) ++ String "]" rest).
Proof. cbn [dumps append]. now rewrite append_assoc. Qed.

Lemma dumps_dict_text (members : list (string * json)) (rest : string) :
  dumps (JDict members) ++ rest
  = String "{" (join (map member_text members) ++ String "}" rest).
Proof. cbn [dumps append]. now rewrite append_assoc. Qed.

Lemma dumps_list_length (items : list json) :
  String.length (dumps (JList items))
  = (2 + String.length (join (map dumps items)))%nat.
Proof.
  cbn [dumps String.length append]. rewrite length_append.
  cbn [String.length].
  generalize (String.length (join (map dumps items))). intros n. lia.
Qed.

Lemma dumps_dict_length (members : list (string * json)) :
  String.length (dumps (JDict members))
  = (2 + String.length (join (map member_text members)))%nat.
Proof.
  change (dumps (JDict members))
    with ("{" ++ join (map member_text members) ++ "}").
  cbn [String.length append]. rewrite length_append.
  cbn [String.length].
  generalize (String.length (join (map member_text members))).
  intros n. lia.
Qed.

Lemma member_text_length (kv : string * json) :
  (String.length (dumps (snd kv)) < String.length (member_text kv))%nat.
Proof.
  unfold member_text, quote. cbn [String.length append].
  rewrite !length_append. cbn [String.length].
  generalize (String.length (dumps (snd kv))). intros n. lia.
Qed.

(** The parser reads back a serialized value and leaves what follows it,
    given fuel for the length of the serialization. *)
Lemma parse_value_dumps (v : json) :
  forall fuel rest,
    (String.length (dumps v) <= fuel)%nat -> int_stop rest = true ->
    parse_value fuel (dumps v ++ rest) = Some (v, rest).
Proof.
  induction v as [| b | n | s | items IH | members IH] using json_nested_ind;
    intros fuel rest Hfuel Hrest;
    (destruct fuel as [| fuel];
     [exfalso; revert Hfuel; apply (proj1 (Nat.lt_nge 0 _)), dumps_nonempty
     |]).
  - reflexivity.
  - destruct b; reflexivity.
  - now apply parse_value_int.
  - destruct (parse_chars_quote s rest) as (body & E & Hbody).
    cbn [dumps]. rewrite E. cbn [parse_value].
    change (Ascii.eqb dquote dquote) with true. cbv iota.
    now rewrite Hbody.
  - rewrite dumps_list_length in Hfuel.
    rewrite dumps_list_text. cbn [parse_value].
    change (Ascii.eqb "[" dquote) with false.
    change (Ascii.eqb "[" "[") with true. cbv iota.
    destruct items as [| x items]; [reflexivity |].
    destruct (elements_head x items (String "]" rest))
      as (c & t & E & Hws & Hclose).
    rewrite E, (skip_ws_nonws c t Hws), Hclose, <- E.
    rewrite parse_elements_join; [reflexivity | | discriminate |].
    + rewrite Forall_forall in *. intros item Hin rest' Hrest'.
      apply IH; [exact Hin | | exact Hrest'].
      pose proof (join_length_in (map dumps (x :: items)) (dumps item)
                    (in_map dumps _ _ Hin)). lia.
    + pose proof (join_length_count (map dumps (x :: items))) as Hc.
      rewrite length_map in Hc.
      assert (length (x :: items)
              <= String.length (join (map dumps (x :: items))))%nat; [| lia].
      apply Hc. apply Forall_map, Forall_forall.
      intros item _. apply dumps_nonempty.
  - rewrite dumps_dict_length in Hfuel.
    rewrite dumps_dict_text. cbn [parse_value].
    change (Ascii.eqb "{" dquote) with false.
    change (Ascii.eqb "{" "[") with false.
    change (Ascii.eqb "{" "{") with true. cbv iota.
    destruct members as [| [k x] members]; [reflexivity |].
    assert (E : exists t,
               join (map member_text ((k, x) :: members)) ++ String "}" rest
               = String dquote t).
    { cbn [map]. destruct (join_cons (member_text (k, x))
                             (map member_text members)) as [t ->].
      rewrite append_assoc, member_text_shape. eexists. reflexivity. }
    destruct E as [t E].
    rewrite E, (skip_ws_nonws dquote t eq_refl).
    change (Ascii.eqb dquote "}") with false. cbv iota. rewrite <- E.
    rewrite parse_members_join; [reflexivity | | discriminate |].
    + rewrite Forall_forall in *. intros kv Hin rest' Hrest'.
      apply IH; [exact Hin | | exact Hrest'].
      pose proof (join_length_in (map member_text ((k, x) :: members))
                    (member_text kv) (in_map member_text _ _ Hin)).
      pose proof (member_text_length kv). lia.
    + pose proof (join_length_count (map member_text ((k, x) :: members)))
        as Hc.
      rewrite length_map in Hc.
      assert (length ((k, x) :: members)
              <= String.length (join (map member_text ((k, x) :: members))))
               %nat; [| lia].
      apply Hc. apply Forall_map, Forall_forall.
      intros kv _. pose proof (member_text_length kv). lia.
Qed.

(** The JSON layer: [loads] undoes [dumps]. *)
Lemma loads_dumps (v : json) : loads (dumps v) = inr v.
Proof.
  unfold loads.
  rewrite <- (append_nil_r (dumps v)) at 2.
  rewrite skip_ws_dumps, parse_value_dumps by (reflexivity || lia).
  reflexivity.
Qed.

(** The libraries of the model satisfy the round-trip contracts. *)
Lemma python_codecs_lawful : lawful python_codecs.
Proof.
  repeat split; cbn [b64decode b64encode zlib_decompress raw_deflate
                       bytes_decode str_encode json_loads json_dumps
                       python_codecs].
  - apply py_b64decode_encode.
  - apply py_zlib_decompress_stored.
  - apply utf8_decode_encode.
  - apply loads_dumps.
Qed.

(** *** The decoder as a whole *)

(** The payload produced by zlib itself decodes to the document it was
    built from. *)
Lemma decompress_timing_payload :
  decompress python_codecs timing_payload = inr timing_fixture.
Proof. vm_compute. reflexivity. Qed.

(** The negative window bits matter: the same bytes are rejected when a
    zlib header is expected, and a stream with that header is read with
    positive window bits only. *)
Lemma raw_stream_needs_negative_wbits :
  exists raw wrapped,
    py_b64decode timing_payload = inr raw
    /\ py_b64decode timing_payload_wrapped = inr wrapped
    /\ py_zlib_decompress raw MAX_WBITS = inl Py.ZlibError
    /\ py_zlib_decompress wrapped (- MAX_WBITS) = inl Py.ZlibError
    /\ py_zlib_decompress wrapped MAX_WBITS
       = py_zlib_decompress raw (- MAX_WBITS)
    /\ py_zlib_decompress raw (- MAX_WBITS)
       = inr (utf8_encode (dumps timing_fixture)).
Proof.
  do 2 eexists. split; [vm_compute; reflexivity |].
  split; [vm_compute; reflexivity |].
  repeat split; vm_compute; reflexivity.
Qed.

(** * Further properties of the code *)

(** ** Remaining pit stops *)

Local Open Scope Z_scope.

Lemma max_stint_range (compound : string) : 15 <= max_stint_of compound <= 35.
Proof.
  unfold max_stint_of, tire_life. cbn [dict_get].
  repeat match goal with
         | |- context [String.eqb ?a ?b] => destruct (String.eqb a b)
         end; lia.
Qed.

Lemma estimate_remaining_stops_unfold (driver : DriverState)
    (laps_remaining : Z) :
  let stint := max_stint_of (tire_compound driver) in
  let left := stint - tire_age_laps driver in
  estimate_remaining_stops driver laps_remaining
  = if laps_remaining <=? left then 0
    else 1 + (laps_remaining - left) / stint.
Proof. reflexivity. Qed.

(** The estimate is never too small and at most one too large: the laps
    left in the current tires plus one full stint per estimated stop cover
    the laps remaining, the estimate is zero exactly when the current tires
    last to the end, and any number [k] of stops that covers the distance
    is at least the estimate minus one. *)
Theorem estimate_remaining_stops_covers (driver : DriverState)
    (laps_remaining : Z) :
  let stint := max_stint_of (tire_compound driver) in
  let left := stint - tire_age_laps driver in
  let stops := estimate_remaining_stops driver laps_remaining in
  0 <= stops
  /\ (stops = 0 <-> laps_remaining <= left)
  /\ laps_remaining <= left + stops * stint
  /\ (forall k, 0 <= k -> laps_remaining <= left + k * stint ->
                stops <= k + 1).
Proof.
  intros stint left stops. subst stops.
  rewrite estimate_remaining_stops_unfold. fold stint. fold left.
  pose proof (max_stint_range (tire_compound driver)) as Hs. fold stint in Hs.
  destruct (Z.leb_spec laps_remaining left) as [Hle | Hgt].
  - repeat split; intros; lia.
  - assert (Hq : 0 <= (laps_remaining - left) / stint)
      by (apply Z.div_pos; lia).
    pose proof (Z.mul_succ_div_gt (laps_remaining - left) stint
                  ltac:(lia)) as Hdiv.
    split; [lia |]. split; [split; intros; lia |]. split; [lia |].
    intros k Hk Hcover.
    assert ((laps_remaining - left) / stint <= k); [| lia].
    apply Z.div_le_upper_bound; lia.
Qed.

Lemma estimate_remaining_stops_covers_witness :
  estimate_remaining_stops (mk_driver "D" 3 5.0 80.0 "MEDIUM" 15) 35 <= 1 + 1.
Proof.
  destruct (estimate_remaining_stops_covers
              (mk_driver "D" 3 5.0 80.0 "MEDIUM" 15) 35) as (_ & _ & _ & H).
  apply (H 1); [lia | vm_compute; discriminate].
Defined.

(** The over-estimate happens: a driver on 15-lap-old medium tires with 35
    laps to go needs one stop (10 + 25 laps) and is given two. *)
Lemma estimate_remaining_stops_one_too_many :
  estimate_remaining_stops (mk_driver "D" 3 5.0 80.0 "MEDIUM" 15) 35 = 2
  /\ 35 <= (max_stint_of "MEDIUM" - 15) + 1 * max_stint_of "MEDIUM".
Proof. split; [reflexivity | vm_compute; discriminate]. Qed.

(** More laps to go, or older tires of the same compound, never lower the
    estimate. *)
Theorem estimate_remaining_stops_monotone (driver driver' : DriverState)
    (laps laps' : Z) :
  tire_compound driver = tire_compound driver' ->
  tire_age_laps driver <= tire_age_laps driver' ->
  laps <= laps' ->
  estimate_remaining_stops driver laps
  <= estimate_remaining_stops driver' laps'.
Proof.
  intros Hc Hage Hlaps. rewrite !estimate_remaining_stops_unfold.
  cbv zeta. rewrite <- Hc.
  pose proof (max_stint_range (tire_compound driver)) as Hs.
  set (stint := max_stint_of (tire_compound driver)) in *.
  destruct (Z.leb_spec laps (stint - tire_age_laps driver));
    destruct (Z.leb_spec laps' (stint - tire_age_laps driver')); try lia.
  - assert (0 <= (laps' - (stint - tire_age_laps driver')) / stint)
      by (apply Z.div_pos; lia).
    lia.
  - assert ((laps - (stint - tire_age_laps driver)) / stint
            <= (laps' - (stint - tire_age_laps driver')) / stint)
      by (apply Z.div_le_mono; lia).
    lia.
Qed.

Lemma estimate_remaining_stops_monotone_witness :
  estimate_remaining_stops (mk_driver "A" 2 1.0 80.0 "SOFT" 3) 20
  <= estimate_remaining_stops (mk_driver "B" 5 9.0 81.0 "SOFT" 12) 31.
Proof.
  apply estimate_remaining_stops_monotone; [reflexivity | | ];
    vm_compute; discriminate.
Defined.

(** A compound the table does not know is treated like the medium one: 25
    laps per stint. *)
Theorem estimate_remaining_stops_unknown_compound (driver medium : DriverState)
    (laps_remaining : Z) :
  ~ In (tire_compound driver) ["SOFT"; "MEDIUM"; "HARD"; "PRIMARY"; "ALTERNATE"]
  ->
  tire_compound medium = "MEDIUM" ->
  tire_age_laps medium = tire_age_laps driver ->
  max_stint_of (tire_compound driver) = 25
  /\ estimate_remaining_stops driver laps_remaining
     = estimate_remaining_stops medium laps_remaining.
Proof.
  intros Hnot Hm Hage.
  assert (E : max_stint_of (tire_compound driver) = 25).
  { unfold max_stint_of, tire_life. cbn [dict_get].
    repeat match goal with
           | |- context [String.eqb ?a ?b] =>
               destruct (String.eqb_spec a b) as [Heq | _];
               [exfalso; apply Hnot; rewrite Heq; cbn [In]; tauto |]
           end.
    reflexivity. }
  split; [exact E |].
  rewrite !estimate_remaining_stops_unfold. cbv zeta.
  rewrite E, Hm, Hage. reflexivity.
Qed.

Lemma estimate_remaining_stops_unknown_compound_witness :
  estimate_remaining_stops (mk_driver "W" 4 3.0 80.0 "WET" 10) 40
  = estimate_remaining_stops (mk_driver "M" 7 8.0 82.0 "MEDIUM" 10) 40.
Proof.
  apply estimate_remaining_stops_unknown_compound; [| reflexivity ..].
  cbn [In tire_compound mk_driver]. intros H.
  repeat destruct H as [H | H]; try discriminate H. exact H.
Defined.

(** ** Strategy projection: what the result depends on *)

Lemma undercut_scan_ignores_laps (driver : DriverState) (laps laps' : Z)
    (competitors : list DriverState) :
  undercut_scan driver laps competitors
  = undercut_scan driver laps' competitors.
Proof.
  induction competitors as [| c rest IH]; cbn [undercut_scan];
    [reflexivity |].
  rewrite IH. reflexivity.
Qed.

(** The stop estimates the function computes and the pit-lane time loss it
    is given never reach its result: the outcome is the same for every
    number of laps remaining and every time loss. *)
Theorem strategy_projection_ignores_laps_and_pit_loss (driver : DriverState)
    (competitors : list DriverState) (laps laps' : Z) (loss loss' : Q) :
  strategy_projection driver competitors laps loss
  = strategy_projection driver competitors laps' loss'.
Proof.
  unfold strategy_projection.
  rewrite (undercut_scan_ignores_laps driver laps laps'). reflexivity.
Qed.

Lemma undercut_scan_position (driver : DriverState) (laps : Z)
    (competitors : list DriverState) :
  option_map position (undercut_scan driver laps competitors)
  = if existsb (fun c => (position c =? position driver + 1)
                         && (tire_age_laps c <? tire_age_laps driver - 5))
         competitors
    then Some (position driver + 1) else None.
Proof.
  induction competitors as [| c rest IH]; cbn [undercut_scan existsb];
    [reflexivity |].
  destruct (Z.eqb_spec (position c) (position driver + 1)) as [Hp | Hp];
    cbn [andb orb]; [| exact IH].
  destruct (tire_age_laps c <? tire_age_laps driver - 5); cbn [orb];
    [| exact IH].
  cbn [option_map]. now rewrite Hp.
Qed.

Lemma existsb_permutation {A : Type} (f : A -> bool) (l l' : list A) :
  Permutation l l' -> existsb f l = existsb f l'.
Proof.
  intros HP. induction HP as [| x l l' _ IH | x y l | l l' l'' _ IH1 _ IH2];
    cbn [existsb].
  - reflexivity.
  - now rewrite IH.
  - destruct (f x), (f y); reflexivity.
  - now rewrite IH1.
Qed.

(** Only the first entry of the competitor list has a place of its own (it
    is taken for the leader); the order of the others does not matter. *)
Theorem strategy_projection_permutation (driver leader : DriverState)
    (rest rest' : list DriverState) (laps : Z) (loss : Q) :
  Permutation rest rest' ->
  strategy_projection driver (leader :: rest) laps loss
  = strategy_projection driver (leader :: rest') laps loss.
Proof.
  intros HP. unfold strategy_projection.
  pose proof (undercut_scan_position driver laps (leader :: rest)) as H1.
  pose proof (undercut_scan_position driver laps (leader :: rest')) as H2.
  rewrite <- (existsb_permutation _ (leader :: rest) (leader :: rest'))
    in H2 by now constructor.
  rewrite <- H1 in H2. clear H1.
  rewrite !getitem_head.
  destruct (undercut_scan driver laps (leader :: rest)) as [c |];
    destruct (undercut_scan driver laps (leader :: rest')) as [c' |];
    cbn [option_map] in H2; try discriminate H2.
  - injection H2 as ->. reflexivity.
  - reflexivity.
Qed.

Lemma strategy_projection_permutation_witness :
  strategy_projection second_lec [leader_ver; second_lec; sixth_bot] 5 25.0
  = strategy_projection second_lec [leader_ver; sixth_bot; second_lec] 5 25.0.
Proof.
  apply strategy_projection_permutation. apply perm_swap.
Defined.

(** The undercut test looks at every entry of the list, the driver's own
    and the leader's included, but never changes the result for the last
    runner of an ordered field: with nobody one position behind, the
    outcome is neutral unless the overcut test fires. *)
Theorem strategy_projection_nobody_behind (driver leader : DriverState)
    (rest : list DriverState) (laps : Z) (loss : Q) :
  (forall c, In c (leader :: rest) -> position c <= position driver) ->
  strategy_projection driver (leader :: rest) laps loss
  = inr (if String.eqb (tire_compound driver) "HARD"
            && (1 <? position driver)
            && Py.contains (tire_compound leader) ["SOFT"; "MEDIUM"]
            && (15 <? tire_age_laps leader)
         then (0.05%Q, "Overcut potential as leader on worn tires")
         else (0.0%Q, "Strategy neutral")).
Proof.
  intros Hlast. unfold strategy_projection.
  assert (E : undercut_scan driver laps (leader :: rest) = None).
  { apply undercut_scan_none. intros c Hin [Hp _].
    specialize (Hlast c Hin). lia. }
  rewrite E, getitem_head. cbn [bind ret Py.Monad_M Monad_either].
  destruct (String.eqb (tire_compound driver) "HARD" && (1 <? position driver));
    cbn [andb]; [| reflexivity].
  destruct (Py.contains (tire_compound leader) ["SOFT"; "MEDIUM"]
            && (15 <? tire_age_laps leader)); reflexivity.
Qed.

Lemma strategy_projection_nobody_behind_witness :
  strategy_projection sixth_bot late_field 5 25.0
  = inr (0.0%Q, "Strategy neutral").
Proof.
  apply (strategy_projection_nobody_behind sixth_bot leader_ver
           [second_lec; sixth_bot] 5 25.0).
  intros c Hin. cbn [In] in Hin.
  repeat destruct Hin as [<- | Hin]; try (vm_compute; discriminate).
  contradiction.
Defined.

(** ** Position baseline: range, order and index wrap-around *)

Local Open Scope Q_scope.

(** A list access either raises [IndexError], for an index outside
    [-len, len), or returns an element of the list. *)
Lemma getitem_cases {A : Type} (l : list A) (i : Z) :
  ((i < - Py.len l \/ Py.len l <= i)%Z /\ Py.getitem l i = inl Py.IndexError)
  \/ ((- Py.len l <= i < Py.len l)%Z
      /\ exists x,
           nth_error l (Z.to_nat (if (i <? 0)%Z then i + Py.len l else i))
           = Some x
           /\ Py.getitem l i = inr x).
Proof.
  unfold Py.getitem, Py.len. set (n := Z.of_nat (length l)).
  destruct (Z.ltb_spec i 0) as [Hneg | Hpos].
  - destruct (Z.ltb_spec (i + n) 0) as [H1 | H1]; cbn [orb].
    + left. split; [lia | reflexivity].
    + destruct (Z.leb_spec n (i + n)) as [H2 | H2]; [lia |].
      right. split; [lia |].
      destruct (nth_error l (Z.to_nat (i + n))) as [x |] eqn:E.
      * exists x. split; reflexivity.
      * apply nth_error_None in E. lia.
  - destruct (Z.ltb_spec i 0) as [H1 | H1]; [lia |]. cbn [orb].
    destruct (Z.leb_spec n i) as [H2 | H2].
    + left. split; [lia | reflexivity].
    + right. split; [lia |].
      destruct (nth_error l (Z.to_nat i)) as [x |] eqn:E.
      * exists x. split; reflexivity.
      * apply nth_error_None in E. lia.
Qed.

Lemma baseline_weights_split (laps_remaining total_drivers : Z) :
  baseline_weights laps_remaining total_drivers
  = (head_weights laps_remaining
       ++ Py.replicate (tail_weight laps_remaining) (total_drivers - 5))%list.
Proof.
  unfold baseline_weights, head_weights, tail_weight.
  destruct (20 <? laps_remaining)%Z; [reflexivity |].
  destruct (10 <? laps_remaining)%Z; reflexivity.
Qed.

Lemma head_weights_length (laps_remaining : Z) :
  length (head_weights laps_remaining) = 5%nat.
Proof.
  unfold head_weights.
  destruct (20 <? laps_remaining)%Z; [reflexivity |].
  destruct (10 <? laps_remaining)%Z; reflexivity.
Qed.

Lemma tail_weight_range (laps_remaining : Z) :
  0.001 <= tail_weight laps_remaining <= 0.01.
Proof.
  unfold tail_weight.
  destruct (20 <? laps_remaining)%Z; [lra |].
  destruct (10 <? laps_remaining)%Z; lra.
Qed.

Lemma baseline_weights_range (laps_remaining total_drivers : Z) (w : Q) :
  In w (baseline_weights laps_remaining total_drivers) ->
  0.001 <= w <= 0.85.
Proof.
  rewrite baseline_weights_split. intros H. apply in_app_or in H as [H | H].
  - unfold head_weights in H.
    destruct (20 <? laps_remaining)%Z;
      [| destruct (10 <? laps_remaining)%Z];
      cbn [In] in H; repeat destruct H as [<- | H]; try lra; contradiction.
  - unfold Py.replicate in H. apply repeat_spec in H. subst w.
    pose proof (tail_weight_range laps_remaining). lra.
Qed.

(** The function raises exactly for a position at or below minus the table
    length, and then [IndexError]; every value it returns lies between the
    smallest and the largest weight of the tables. *)
Theorem position_baseline_outcome (position laps_remaining total_drivers : Z) :
  ((position <= - Z.max 5 total_drivers)%Z
   /\ position_baseline position laps_remaining total_drivers
      = inl Py.IndexError)
  \/ ((- Z.max 5 total_drivers < position)%Z
      /\ exists w,
           position_baseline position laps_remaining total_drivers = inr w
           /\ 0.001 <= w <= 0.85).
Proof.
  unfold position_baseline. rewrite baseline_weights_len.
  destruct (Z.leb_spec position (Z.max 5 total_drivers)) as [Hin | Hout].
  - destruct (getitem_cases (baseline_weights laps_remaining total_drivers)
                (position - 1)) as [[Hr He] | [Hr [w [Hn Hw]]]];
      rewrite baseline_weights_len in Hr.
    + left. split; [lia | exact He].
    + right. split; [lia |]. exists w. split; [exact Hw |].
      apply nth_error_In in Hn.
      exact (baseline_weights_range _ _ _ Hn).
  - right. split; [lia |]. exists 0.001. split; [reflexivity | lra].
Qed.

(** Position 0 and negative positions are not rejected: through Python's
    negative indexing they read the table from its end, so a position [p]
    in [(-len, 0]] gets the weight of position [p + len]. *)
Theorem position_baseline_wraps (position laps_remaining total_drivers : Z) :
  (- Z.max 5 total_drivers < position <= 0)%Z ->
  position_baseline position laps_remaining total_drivers
  = position_baseline (position + Z.max 5 total_drivers) laps_remaining
      total_drivers.
Proof.
  intros H. unfold position_baseline. rewrite baseline_weights_len.
  destruct (Z.leb_spec position (Z.max 5 total_drivers)); [| lia].
  destruct (Z.leb_spec (position + Z.max 5 total_drivers)
              (Z.max 5 total_drivers)); [| lia].
  unfold Py.getitem.
  change (Z.of_nat (length (baseline_weights laps_remaining total_drivers)))
    with (Py.len (baseline_weights laps_remaining total_drivers)).
  rewrite baseline_weights_len.
  destruct (Z.ltb_spec (position - 1) 0); [| lia].
  destruct (Z.ltb_spec (position + Z.max 5 total_drivers - 1) 0); [lia |].
  replace (position - 1 + Z.max 5 total_drivers)%Z
    with (position + Z.max 5 total_drivers - 1)%Z by lia.
  reflexivity.
Qed.

Lemma position_baseline_wraps_witness :
  position_baseline 0 5 20 = position_baseline (0 + Z.max 5 20) 5 20.
Proof. apply position_baseline_wraps. cbn. lia. Defined.

Lemma position_baseline_value (position laps_remaining total_drivers : Z) :
  (1 <= position)%Z ->
  position_baseline position laps_remaining total_drivers
  = inr (weight_at position laps_remaining total_drivers).
Proof.
  intros Hp. unfold weight_at.
  destruct (Z_le_gt_dec position (Z.max 5 total_drivers)) as [Hin | Hout].
  - destruct (position_baseline_in_table laps_remaining total_drivers position)
      as [w [Hn ->]]; [lia |].
    f_equal. rewrite baseline_weights_split in Hn.
    pose proof (head_weights_length laps_remaining) as Hlen.
    destruct (Z.leb_spec position 5) as [H5 | H5].
    + rewrite nth_error_app1 in Hn by lia.
      symmetry. now apply nth_error_nth.
    + rewrite nth_error_app2 in Hn by lia.
      destruct (Z.leb_spec position total_drivers); [| lia].
      unfold Py.replicate in Hn. apply nth_error_In, repeat_spec in Hn.
      now symmetry.
  - rewrite position_baseline_beyond by lia.
    destruct (Z.leb_spec position 5); [lia |].
    destruct (Z.leb_spec position total_drivers); [lia | reflexivity].
Qed.

Lemma first_five (p : Z) :
  (1 <= p <= 5)%Z -> p = 1%Z \/ p = 2%Z \/ p = 3%Z \/ p = 4%Z \/ p = 5%Z.
Proof. lia. Qed.

(** Evaluates the list accesses at concrete positions. *)
Ltac eval_nth :=
  repeat match goal with
    | |- context [Z.to_nat ?z] =>
        let v := eval vm_compute in (Z.to_nat z) in
        change (Z.to_nat z) with v
    end;
  cbn [nth].

Ltac split_first_five H :=
  apply first_five in H;
  destruct H as [-> | [-> | [-> | [-> | ->]]]].

(** Within one race situation a position further back never has a larger
    baseline than one further forward. *)
Theorem position_baseline_monotone (p p' laps_remaining total_drivers : Z) :
  (1 <= p <= p')%Z ->
  exists w w',
    position_baseline p laps_remaining total_drivers = inr w
    /\ position_baseline p' laps_remaining total_drivers = inr w'
    /\ w' <= w.
Proof.
  intros Hp. exists (weight_at p laps_remaining total_drivers),
    (weight_at p' laps_remaining total_drivers).
  split; [apply position_baseline_value; lia |].
  split; [apply position_baseline_value; lia |].
  unfold weight_at, head_weights, tail_weight.
  destruct (Z.leb_spec p 5) as [H5 | H5];
    destruct (Z.leb_spec p' 5) as [H5' | H5']; try lia.
  - assert (Hr : (1 <= p <= 5)%Z) by lia.
    assert (Hr' : (1 <= p' <= 5)%Z) by lia.
    destruct (20 <? laps_remaining)%Z;
      [| destruct (10 <? laps_remaining)%Z];
      split_first_five Hr; split_first_five Hr'; try lia;
      eval_nth; lra.
  - assert (Hr : (1 <= p <= 5)%Z) by lia.
    destruct (p' <=? total_drivers)%Z;
      (destruct (20 <? laps_remaining)%Z;
       [| destruct (10 <? laps_remaining)%Z]);
      split_first_five Hr;
      eval_nth; lra.
  - destruct (Z.leb_spec p total_drivers);
      destruct (Z.leb_spec p' total_drivers); try lia;
      destruct (20 <? laps_remaining)%Z;
      try destruct (10 <? laps_remaining)%Z; lra.
Qed.

Lemma position_baseline_monotone_witness :
  exists w w',
    position_baseline 2 30 20 = inr w
    /\ position_baseline 7 30 20 = inr w'
    /\ w' <= w.
Proof. apply position_baseline_monotone. lia. Defined.

(** As the race runs down the tables shift weight to the front: with fewer
    laps remaining the leader's baseline never gets smaller and the
    baseline of every other position never gets larger. *)
Theorem position_baseline_concentrates (p laps laps' total_drivers : Z) :
  (1 <= p)%Z -> (laps' <= laps)%Z ->
  exists w w',
    position_baseline p laps total_drivers = inr w
    /\ position_baseline p laps' total_drivers = inr w'
    /\ (p = 1%Z -> w <= w')
    /\ ((2 <= p)%Z -> w' <= w).
Proof.
  intros Hp Hl. exists (weight_at p laps total_drivers),
    (weight_at p laps' total_drivers).
  split; [apply position_baseline_value; lia |].
  split; [apply position_baseline_value; lia |].
  unfold weight_at, head_weights, tail_weight.
  destruct (Z.leb_spec p 5) as [H5 | H5].
  - assert (Hr : (1 <= p <= 5)%Z) by lia.
    destruct (Z.ltb_spec 20 laps); destruct (Z.ltb_spec 20 laps'); try lia;
      destruct (Z.ltb_spec 10 laps); destruct (Z.ltb_spec 10 laps'); try lia;
      split_first_five Hr;
      eval_nth;
      (split; intros; try lia; lra).
  - split; [lia |]. intros _.
    destruct (p <=? total_drivers)%Z; [| lra].
    destruct (Z.ltb_spec 20 laps); destruct (Z.ltb_spec 20 laps'); try lia;
      destruct (Z.ltb_spec 10 laps); destruct (Z.ltb_spec 10 laps'); try lia;
      lra.
Qed.

Lemma position_baseline_concentrates_witness :
  exists w w',
    position_baseline 1 25 20 = inr w
    /\ position_baseline 1 8 20 = inr w'
    /\ (1%Z = 1%Z -> w <= w')
    /\ ((2 <= 1)%Z -> w' <= w).
Proof.
  apply position_baseline_concentrates; lia.
Defined.

(** ** Pace adjustment: order properties *)

Lemma feasible_easier (gap gap' pace_delta : Q) (laps laps' : Z) :
  gap' <= gap -> (laps <= laps')%Z ->
  feasible gap pace_delta laps -> feasible gap' pace_delta laps'.
Proof.
  unfold feasible. intros Hg Hl [Hd Hf]. split; [exact Hd |].
  assert (Hq : gap' / pace_delta <= gap / pace_delta).
  { unfold Qdiv. apply Qmult_le_compat_r; [exact Hg |].
    apply Qinv_le_0_compat. lra. }
  assert (Hz : inject_Z laps <= inject_Z laps') by now rewrite <- Zle_Qle.
  generalize dependent (gap / pace_delta).
  generalize dependent (gap' / pace_delta).
  generalize dependent (inject_Z laps).
  generalize dependent (inject_Z laps').
  intros. lra.
Qed.

Lemma feasible_faster (gap pace_delta pace_delta' : Q) (laps : Z) :
  0 <= gap -> pace_delta <= pace_delta' ->
  feasible gap pace_delta laps -> feasible gap pace_delta' laps.
Proof.
  unfold feasible. intros Hg Hd [Hpos Hf]. split; [lra |].
  assert (Hx : 0 <= gap / pace_delta) by (apply Qle_shift_div_l; lra).
  assert (Hm : pace_delta * (gap / pace_delta) == gap)
    by (apply Qmult_div_r; lra).
  assert (Hq : gap / pace_delta' <= gap / pace_delta).
  { apply Qle_shift_div_r; [lra |].
    generalize dependent (gap / pace_delta). intros x Hf Hx Hm. nra. }
  generalize dependent (gap / pace_delta).
  generalize dependent (gap / pace_delta').
  intros. lra.
Qed.

(** Solves the comparison of two adjustments once the range of the pace
    delta and the feasibility are fixed on both sides: [B1]..[B6] and
    [C1]..[C6] are the branch equations of the two calls. *)
Ltac pace_compare Hr Hr' Hf Hf' Himp B1 B2 B3 B4 B5 B6 C1 C2 C3 C4 C5 C6 :=
  destruct Hr as [R | [R | [R | R]]];
  destruct Hr' as [R' | [R' | [R' | R']]]; try lra;
  destruct Hf as [Hf | Hf]; destruct Hf' as [Hf' | Hf'];
  try (exfalso; apply Hf', Himp, Hf);
  first [ rewrite (B1 R Hf) | rewrite (B2 R Hf) | rewrite (B3 R Hf)
        | rewrite (B4 R Hf) | rewrite (B5 R) | rewrite (B6 R) ];
  first [ rewrite (C1 R' Hf') | rewrite (C2 R' Hf') | rewrite (C3 R' Hf')
        | rewrite (C4 R' Hf') | rewrite (C5 R') | rewrite (C6 R') ];
  lra.

(** On a track with an overtake difficulty of at most 1, a smaller gap to
    the leader or more laps remaining never lower the pace adjustment. *)
Theorem pace_adjustment_monotone_chance (driver leader : DriverState)
    (gap gap' : Q) (laps laps' : Z) (difficulty : Q) :
  gap' <= gap -> (laps <= laps')%Z -> difficulty <= 1 ->
  exists v v',
    pace_adjustment driver leader gap laps difficulty = inr v
    /\ pace_adjustment driver leader gap' laps' difficulty = inr v'
    /\ v <= v'.
Proof.
  intros Hg Hl Hd.
  destruct (pace_adjustment_branches driver leader gap laps difficulty)
    as (v & Hv & B1 & B2 & B3 & B4 & B5 & B6).
  destruct (pace_adjustment_branches driver leader gap' laps' difficulty)
    as (v' & Hv' & C1 & C2 & C3 & C4 & C5 & C6).
  exists v, v'. split; [exact Hv |]. split; [exact Hv' |].
  set (pace_delta := rolling_pace_5lap leader - rolling_pace_5lap driver) in *.
  cbv zeta in B1, B3, C1, C3.
  pose proof (feasible_easier gap gap' pace_delta laps laps' Hg Hl) as Himp.
  pose proof (pace_delta_ranges pace_delta) as Hr.
  pose proof (pace_delta_ranges pace_delta) as Hr'.
  pose proof (feasible_dec gap pace_delta laps) as Hf.
  pose proof (feasible_dec gap' pace_delta laps') as Hf'.
  pace_compare Hr Hr' Hf Hf' Himp B1 B2 B3 B4 B5 B6 C1 C2 C3 C4 C5 C6.
Qed.

Lemma pace_adjustment_monotone_chance_witness :
  exists v v',
    pace_adjustment (mk_driver "C" 2 30.0 80.0 "MEDIUM" 10)
      (mk_driver "L" 1 0 81.0 "MEDIUM" 10) 30.0 10 0.4 = inr v
    /\ pace_adjustment (mk_driver "C" 2 30.0 80.0 "MEDIUM" 10)
         (mk_driver "L" 1 0 81.0 "MEDIUM" 10) 3.0 12 0.4 = inr v'
    /\ v <= v'.
Proof.
  apply pace_adjustment_monotone_chance; [| lia |]; vm_compute; discriminate.
Defined.

(** Against the same leader, with a non-negative gap and a difficulty of at
    most 1, the quicker of two drivers (the smaller rolling lap time) never
    gets the smaller pace adjustment. *)
Theorem pace_adjustment_monotone_pace (driver driver' leader : DriverState)
    (gap : Q) (laps : Z) (difficulty : Q) :
  rolling_pace_5lap driver' <= rolling_pace_5lap driver ->
  0 <= gap -> difficulty <= 1 ->
  exists v v',
    pace_adjustment driver leader gap laps difficulty = inr v
    /\ pace_adjustment driver' leader gap laps difficulty = inr v'
    /\ v <= v'.
Proof.
  intros Hp Hg Hd.
  destruct (pace_adjustment_branches driver leader gap laps difficulty)
    as (v & Hv & B1 & B2 & B3 & B4 & B5 & B6).
  destruct (pace_adjustment_branches driver' leader gap laps difficulty)
    as (v' & Hv' & C1 & C2 & C3 & C4 & C5 & C6).
  exists v, v'. split; [exact Hv |]. split; [exact Hv' |].
  set (pace_delta := rolling_pace_5lap leader - rolling_pace_5lap driver) in *.
  set (pace_delta' := rolling_pace_5lap leader - rolling_pace_5lap driver')
    in *.
  assert (Hdelta : pace_delta <= pace_delta')
    by (subst pace_delta pace_delta'; lra).
  clearbody pace_delta pace_delta'.
  cbv zeta in B1, B3, C1, C3.
  pose proof (feasible_faster gap pace_delta pace_delta' laps Hg Hdelta)
    as Himp.
  pose proof (pace_delta_ranges pace_delta) as Hr.
  pose proof (pace_delta_ranges pace_delta') as Hr'.
  pose proof (feasible_dec gap pace_delta laps) as Hf.
  pose proof (feasible_dec gap pace_delta' laps) as Hf'.
  pace_compare Hr Hr' Hf Hf' Himp B1 B2 B3 B4 B5 B6 C1 C2 C3 C4 C5 C6.
Qed.

Lemma pace_adjustment_monotone_pace_witness :
  exists v v',
    pace_adjustment (mk_driver "S" 3 4.0 80.8 "MEDIUM" 10)
      (mk_driver "L" 1 0 81.0 "MEDIUM" 10) 4.0 20 0.4 = inr v
    /\ pace_adjustment (mk_driver "F" 2 4.0 80.0 "MEDIUM" 10)
         (mk_driver "L" 1 0 81.0 "MEDIUM" 10) 4.0 20 0.4 = inr v'
    /\ v <= v'.
Proof.
  apply pace_adjustment_monotone_pace; vm_compute; discriminate.
Defined.

(** ** Safety car: sign of the adjustment *)

Lemma caution_dec (flag : string) : caution flag \/ ~ caution flag.
Proof.
  destruct (Py.contains flag ["SC"; "VSC"; "YELLOW"]) eqn:E.
  - left. now apply caution_contains.
  - right. intros H. apply caution_contains in H. congruence.
Qed.

Lemma safety_car_sign (driver : DriverState) (flag : string) (gap : Q)
    (laps : Z) :
  (caution flag /\ position driver <> 1%Z ->
   0.02 <= safety_car_adjustment driver flag gap laps)
  /\ (~ (caution flag /\ position driver <> 1%Z) ->
      safety_car_adjustment driver flag gap laps <= 0).
Proof.
  split.
  - intros [Hc Hp].
    destruct (Z_le_gt_dec (position driver) 5) as [H5 | H5].
    + rewrite safety_car_top5 by assumption.
      assert (0 <= inject_Z (5 - position driver)).
      { change 0 with (inject_Z 0). rewrite <- Zle_Qle. lia. }
      generalize dependent (inject_Z (5 - position driver)). intros. lra.
    + rewrite safety_car_rest by (assumption || lia). lra.
  - intros Hn. destruct (caution_dec flag) as [Hc | Hc].
    + destruct (Z.eq_dec (position driver) 1) as [Hp | Hp]; [| tauto].
      rewrite safety_car_leader by assumption. lra.
    + rewrite safety_car_green by assumption. lra.
Qed.

(** The adjustment is never between 0 and 0.02: it is at least 0.02 for
    every position other than 1 under a caution flag (positions of zero or
    below included, for which the top-5 formula keeps growing), and it is
    zero or negative in every other case; the two remaining arguments, the
    gap and the laps remaining, never matter. *)
Theorem safety_car_adjustment_sign (driver driver' : DriverState)
    (flag : string) (gap gap' : Q) (laps laps' : Z) :
  (0 < safety_car_adjustment driver flag gap laps
   <-> caution flag /\ position driver <> 1%Z)
  /\ (0 < safety_car_adjustment driver flag gap laps ->
      0.02 <= safety_car_adjustment driver flag gap laps)
  /\ (position driver = position driver' ->
      safety_car_adjustment driver flag gap laps
      = safety_car_adjustment driver' flag gap' laps').
Proof.
  destruct (safety_car_sign driver flag gap laps) as [Hpos Hneg].
  assert (Hdec : (caution flag /\ position driver <> 1%Z)
                 \/ ~ (caution flag /\ position driver <> 1%Z)).
  { destruct (caution_dec flag); destruct (Z.eq_dec (position driver) 1);
      tauto. }
  split; [| split].
  - split.
    + intros H. destruct Hdec as [Hd | Hd]; [exact Hd |].
      specialize (Hneg Hd). lra.
    + intros H. specialize (Hpos H). lra.
  - intros H. destruct Hdec as [Hd | Hd]; [now apply Hpos |].
    specialize (Hneg Hd). lra.
  - intros Hp. unfold safety_car_adjustment. now rewrite Hp.
Qed.

Lemma safety_car_adjustment_sign_witness :
  0.02 <= safety_car_adjustment sixth_bot "SC" 40.0 5
  /\ safety_car_adjustment sixth_bot "SC" 40.0 5
     = safety_car_adjustment (mk_driver "X" 6 1.0 79.0 "SOFT" 2) "SC" 1.0 30.
Proof.
  destruct (safety_car_adjustment_sign sixth_bot
              (mk_driver "X" 6 1.0 79.0 "SOFT" 2) "SC" 40.0 1.0 5 30)
    as (_ & Hmin & Hsame).
  split; [apply Hmin | apply Hsame]; reflexivity.
Defined.

(** The fourth factor of a returned result is "SC boost" exactly under a
    caution flag for an entrant that is not in position 1. *)
Theorem sc_boost_factor (driver : DriverState) (race_state : RaceState)
    (all_drivers : list DriverState) (track_config : TrackConfig)
    (r : PredictionResult) :
  compute_win_probability driver race_state all_drivers track_config = inr r ->
  (nth_error (key_factors r) 3 = Some (Some "SC boost")
   <-> caution (flag_status race_state) /\ position driver <> 1%Z)
  /\ (nth_error (key_factors r) 3 = Some None
      <-> ~ (caution (flag_status race_state) /\ position driver <> 1%Z)).
Proof.
  intros Hr.
  destruct (compute_win_probability_inv _ _ _ _ _ Hr)
    as (base & leader & pace & strat & _ & ->).
  cbn [key_factors result_of nth_error].
  destruct (safety_car_sign driver (flag_status race_state)
              (gap_to_leader driver)
              (total_laps race_state - current_lap race_state))
    as [Hpos Hneg].
  fold (sc_component driver race_state) in Hpos, Hneg.
  destruct (ltb_reflect 0 (sc_component driver race_state)) as [H | H].
  - assert (Hc : caution (flag_status race_state)
                 /\ position driver <> 1%Z).
    { destruct (caution_dec (flag_status race_state));
        destruct (Z.eq_dec (position driver) 1);
        try tauto; exfalso;
        assert (sc_component driver race_state <= 0)
          by (apply Hneg; tauto); lra. }
    split; split; try tauto; try discriminate.
  - assert (Hc : ~ (caution (flag_status race_state)
                    /\ position driver <> 1%Z)).
    { intros Hc. specialize (Hpos Hc). lra. }
    split; split; try tauto; try discriminate.
Qed.

Lemma sc_boost_factor_witness :
  exists r,
    compute_win_probability second_lec (with_flag late_race "VSC") late_field
      monza = inr r
    /\ nth_error (key_factors r) 3 = Some (Some "SC boost").
Proof.
  destruct (compute_win_probability second_lec (with_flag late_race "VSC")
              late_field monza) as [e | r] eqn:Hr;
    [vm_compute in Hr; discriminate Hr |].
  exists r. split; [reflexivity |].
  apply (proj1 (sc_boost_factor _ _ _ _ _ Hr)). split.
  - right. now left.
  - discriminate.
Defined.

(** ** Ensemble: when it raises, and the interval around the estimate *)

Lemma position_baseline_raises (position laps_remaining total_drivers : Z) :
  (position <= - Z.max 5 total_drivers)%Z ->
  position_baseline position laps_remaining total_drivers
  = inl Py.IndexError.
Proof.
  intros H. unfold position_baseline. rewrite baseline_weights_len.
  destruct (Z.leb_spec position (Z.max 5 total_drivers)); [| lia].
  destruct (getitem_cases (baseline_weights laps_remaining total_drivers)
              (position - 1)) as [[_ He] | [Hr _]]; [exact He |].
  rewrite baseline_weights_len in Hr. lia.
Qed.

Lemma position_baseline_no_other_error
    (position laps_remaining total_drivers : Z) (e : Py.exn) :
  position_baseline position laps_remaining total_drivers = inl e ->
  e = Py.IndexError.
Proof.
  unfold position_baseline.
  destruct (position <=? Py.len _)%Z; [| discriminate].
  destruct (getitem_cases (baseline_weights laps_remaining total_drivers)
              (position - 1)) as [[_ He] | [_ [w [_ Hw]]]];
    congruence.
Qed.

Lemma position_baseline_returns_above
    (position laps_remaining total_drivers : Z) :
  (- Z.max 5 total_drivers < position)%Z ->
  exists w, position_baseline position laps_remaining total_drivers = inr w.
Proof.
  intros H. unfold position_baseline. rewrite baseline_weights_len.
  destruct (Z.leb_spec position (Z.max 5 total_drivers)); [| now eexists].
  destruct (getitem_cases (baseline_weights laps_remaining total_drivers)
              (position - 1)) as [[Hr _] | [_ [w [_ Hw]]]].
  - rewrite baseline_weights_len in Hr. lia.
  - now exists w.
Qed.

(** The ensemble raises exactly when the driver list is empty or the
    position is at or below minus the table length, and then it raises
    [IndexError]; no input makes it divide by zero. For every other input
    it returns a result. *)
Theorem compute_win_probability_raises (driver : DriverState)
    (race_state : RaceState) (all_drivers : list DriverState)
    (track_config : TrackConfig) :
  ((all_drivers = []
    \/ (position driver <= - Z.max 5 (Py.len all_drivers))%Z)
   /\ compute_win_probability driver race_state all_drivers track_config
      = inl Py.IndexError)
  \/ (all_drivers <> []
      /\ (- Z.max 5 (Py.len all_drivers) < position driver)%Z
      /\ exists r,
           compute_win_probability driver race_state all_drivers track_config
           = inr r).
Proof.
  set (laps := (total_laps race_state - current_lap race_state)%Z).
  destruct (Z_le_gt_dec (position driver) (- Z.max 5 (Py.len all_drivers)))
    as [Hlow | Hok].
  - left. split; [now right |].
    unfold compute_win_probability. fold laps.
    now rewrite position_baseline_raises.
  - destruct (position_baseline_returns_above (position driver) laps
                (Py.len all_drivers)) as [base Hb]; [lia |].
    destruct all_drivers as [| leader rest] eqn:E.
    + left. split; [now left |].
      unfold compute_win_probability. fold laps.
      step_bind Hb. now rewrite getitem_nil.
    + right. split; [discriminate |]. split; [lia |].
      destruct (pace_adjustment_branches driver leader (gap_to_leader driver)
                  laps (overtake_difficulty track_config))
        as (pace & Hpace & _).
      destruct (strategy_returns driver laps (pit_time_loss track_config)
                  (leader :: rest)) as (adj & reason & Hs & _);
        [discriminate |].
      eexists.
      apply (compute_win_probability_of_components driver race_state
               (leader :: rest) track_config base leader pace (adj, reason)).
      unfold components_are. fold laps. rewrite getitem_head. tauto.
Qed.

(** Up to full race progress the reported win probability lies within the
    reported interval exactly when the raw score is no further outside
    [0.001, 0.99] than the interval's half-width; a raw score further out
    gives a probability outside its own interval. *)
Theorem win_probability_inside_interval (driver : DriverState)
    (race_state : RaceState) (all_drivers : list DriverState)
    (track_config : TrackConfig) (r : PredictionResult) (raw : Q) :
  race_progress race_state <= 1 ->
  compute_win_probability driver race_state all_drivers track_config = inr r ->
  raw_prob driver race_state all_drivers track_config = inr raw ->
  let width := confidence_width (race_progress race_state) in
  fst (confidence_interval_of r) <= win_probability r
  /\ win_probability r <= snd (confidence_interval_of r)
  <-> 0.001 - width <= raw <= 0.99 + width.
Proof.
  intros Hp Hr Hraw width.
  destruct (compute_win_probability_inv _ _ _ _ _ Hr)
    as (base & leader & pace & strat & Hc & ->).
  rewrite (raw_prob_of_components _ _ _ _ _ _ _ _ Hc) in Hraw.
  injection Hraw as <-.
  cbn [win_probability confidence_interval_of result_of fst snd].
  fold width.
  assert (Hw : 0.05 <= width) by (subst width; unfold confidence_width; lra).
  generalize dependent width. intros width Hw.
  generalize (base + pace + fst strat + sc_component driver race_state).
  intros x. split.
  - revert x. intros x. case_minmax; lra.
  - case_minmax; lra.
Qed.

Lemma win_probability_inside_interval_witness :
  exists r,
    compute_win_probability leader_ver late_race late_field monza = inr r
    /\ fst (confidence_interval_of r) <= win_probability r
    /\ win_probability r <= snd (confidence_interval_of r).
Proof.
  destruct (compute_win_probability leader_ver late_race late_field monza)
    as [e | r] eqn:Hr; [vm_compute in Hr; discriminate Hr |].
  destruct (raw_prob leader_ver late_race late_field monza)
    as [e | raw] eqn:Hraw; [vm_compute in Hraw; discriminate Hraw |].
  exists r. split; [reflexivity |].
  apply (win_probability_inside_interval leader_ver late_race late_field
           monza r raw); [vm_compute; discriminate | exact Hr | exact Hraw |].
  vm_compute in Hraw. injection Hraw as <-.
  vm_compute. split; discriminate.
Defined.

(** ** Confidence interval: staleness, nesting and order of the bounds *)

Lemma staleness_linear (data_staleness : Q) :
  data_staleness / 60.0 * 0.05 == data_staleness / 1200.
Proof. field. Qed.

(** The staleness term is [data_staleness / 1200] up to two minutes, the
    constant 0.10 from there on, and negative for a negative staleness;
    staler data never gives the smaller term. *)
Theorem staleness_factor_cap (s s' : Q) :
  (s <= 120 -> staleness_factor s == s / 1200)
  /\ (120 <= s -> staleness_factor s == 0.10)
  /\ (s < 0 -> staleness_factor s < 0)
  /\ (s <= s' -> staleness_factor s <= staleness_factor s').
Proof.
  unfold staleness_factor.
  pose proof (staleness_linear s) as E. pose proof (staleness_linear s') as E'.
  assert (Hs : s / 1200 * 1200 == s) by (field).
  assert (Hs' : s' / 1200 * 1200 == s') by (field).
  generalize dependent (s / 60.0 * 0.05).
  generalize dependent (s' / 60.0 * 0.05).
  generalize dependent (s / 1200). generalize dependent (s' / 1200).
  intros y' Hs' y Hs x' E' x E.
  repeat split; intros; case_minmax; lra.
Qed.

Lemma staleness_factor_cap_witness :
  staleness_factor 30 == 30 / 1200 /\ staleness_factor 300 == 0.10.
Proof.
  split.
  - apply (proj1 (staleness_factor_cap 30 30)). vm_compute. discriminate.
  - apply (proj1 (proj2 (staleness_factor_cap 300 300))).
    vm_compute. discriminate.
Defined.

Lemma total_width_monotone (p p' s s' : Q) (pit pit' : bool) :
  p' <= p -> s <= s' -> (pit' = true -> pit = true) ->
  total_width p s pit <= total_width p' s' pit'.
Proof.
  intros Hp Hs Hpit. unfold total_width. cbv zeta.
  assert (Hsf : staleness_factor s <= staleness_factor s').
  { unfold staleness_factor.
    assert (s / 60.0 * 0.05 <= s' / 60.0 * 0.05).
    { rewrite !staleness_linear. unfold Qdiv.
      apply Qmult_le_compat_r; [exact Hs | discriminate]. }
    generalize dependent (s / 60.0 * 0.05).
    generalize dependent (s' / 60.0 * 0.05).
    intros. case_minmax; lra. }
  generalize dependent (staleness_factor s).
  generalize dependent (staleness_factor s').
  intros.
  destruct pit, pit'; cbn [negb];
    try (specialize (Hpit eq_refl); discriminate Hpit); lra.
Qed.

(** Less race progress, staler data or missing pit data never shrink the
    interval: the earlier, staler or pit-less interval contains the other
    one, for every base probability. *)
Theorem confidence_interval_nested (base p p' s s' : Q) (pit pit' : bool) :
  p' <= p -> s <= s' -> (pit' = true -> pit = true) ->
  let ci := confidence_interval base p s pit in
  let ci' := confidence_interval base p' s' pit' in
  fst ci' <= fst ci /\ snd ci <= snd ci'.
Proof.
  intros Hp Hs Hpit ci ci'. subst ci ci'. unfold confidence_interval.
  cbv zeta. cbn [fst snd].
  pose proof (total_width_monotone p p' s s' pit pit' Hp Hs Hpit) as Hw.
  assert (Hh : total_width p s pit / 2 <= total_width p' s' pit' / 2).
  { unfold Qdiv. apply Qmult_le_compat_r; [exact Hw | discriminate]. }
  generalize dependent (total_width p s pit / 2).
  generalize dependent (total_width p' s' pit' / 2).
  intros h' h Hh. case_minmax; lra.
Qed.

Lemma confidence_interval_nested_witness :
  let ci := confidence_interval 0.3 0.8 0 true in
  let ci' := confidence_interval 0.3 0.2 90 false in
  fst ci' <= fst ci /\ snd ci <= snd ci'.
Proof.
  apply confidence_interval_nested;
    [vm_compute; discriminate | vm_compute; discriminate | reflexivity].
Defined.

(** For a base probability within [0.25, 0.75], a race progress within
    [0, 1] and a non-negative staleness neither clamp acts: the bounds are
    the base probability minus and plus half the width, and the width lies
    in [0.05, 0.5]. *)
Theorem confidence_interval_unclamped (base p s : Q) (pit : bool) :
  0.25 <= base <= 0.75 -> 0 <= p <= 1 -> 0 <= s ->
  let w := total_width p s pit in
  let ci := confidence_interval base p s pit in
  fst ci == base - w / 2 /\ snd ci == base + w / 2
  /\ snd ci - fst ci == w /\ 0.05 <= w <= 0.5.
Proof.
  intros Hb Hp Hs w ci. subst ci. unfold confidence_interval. cbv zeta.
  cbn [fst snd]. fold w.
  assert (Hlo : 0.05 <= w) by (apply total_width_floor; lra).
  assert (Hhi : w <= 0.5) by (apply total_width_upper; lra).
  assert (Hh : w / 2 * 2 == w) by (field).
  clearbody w. generalize dependent (w / 2). intros h Hh.
  case_minmax; repeat split; lra.
Qed.

Lemma confidence_interval_unclamped_witness :
  let w := total_width 0.5 30 true in
  let ci := confidence_interval 0.4 0.5 30 true in
  fst ci == 0.4 - w / 2 /\ snd ci == 0.4 + w / 2
  /\ snd ci - fst ci == w /\ 0.05 <= w <= 0.5.
Proof.
  apply confidence_interval_unclamped; try split; vm_compute; discriminate.
Defined.

(** With a non-negative width, the lower bound stays at or below the upper
    bound exactly when the base probability is no further outside [0, 1]
    than half the width; further out the two one-sided clamps cross. *)
Theorem confidence_interval_ordered (base p s : Q) (pit : bool) :
  0 <= total_width p s pit ->
  let ci := confidence_interval base p s pit in
  fst ci <= snd ci
  <-> - (total_width p s pit / 2) <= base <= 1 + total_width p s pit / 2.
Proof.
  intros Hw ci. subst ci. unfold confidence_interval. cbv zeta.
  cbn [fst snd].
  assert (Hh : 0 <= total_width p s pit / 2)
    by (apply Qle_shift_div_l; lra).
  generalize dependent (total_width p s pit / 2). intros h Hh.
  split.
  - case_minmax; lra.
  - case_minmax; lra.
Qed.

Lemma confidence_interval_ordered_witness :
  let ci := confidence_interval 1.1 0.5 0 true in
  fst ci <= snd ci.
Proof.
  apply (proj2 (confidence_interval_ordered 1.1 0.5 0 true
                  ltac:(vm_compute; discriminate))).
  vm_compute. split; discriminate.
Defined.

(** The interval the ensemble attaches to a result is wider than the one
    [confidence_interval] computes around the same raw score: it contains
    it for fresh data with pit data up to full race progress, and for any
    staleness and pit data up to half distance. *)
Theorem ensemble_interval_contains (driver : DriverState)
    (race_state : RaceState) (all_drivers : list DriverState)
    (track_config : TrackConfig) (r : PredictionResult) (raw s : Q)
    (pit : bool) :
  compute_win_probability driver race_state all_drivers track_config = inr r ->
  raw_prob driver race_state all_drivers track_config = inr raw ->
  (race_progress race_state <= 0.5
   \/ (race_progress race_state <= 1 /\ s <= 0 /\ pit = true)) ->
  let ci := confidence_interval raw (race_progress race_state) s pit in
  fst (confidence_interval_of r) <= fst ci
  /\ snd ci <= snd (confidence_interval_of r).
Proof.
  intros Hr Hraw Hcase ci. subst ci.
  destruct (compute_win_probability_inv _ _ _ _ _ Hr)
    as (base & leader & pace & strat & Hc & ->).
  rewrite (raw_prob_of_components _ _ _ _ _ _ _ _ Hc) in Hraw.
  injection Hraw as <-.
  cbn [confidence_interval_of result_of]. unfold confidence_interval.
  cbv zeta. cbn [fst snd].
  generalize (base + pace + fst strat + sc_component driver race_state).
  intros x.
  set (p := race_progress race_state) in *.
  assert (Hh : total_width p s pit / 2 <= confidence_width p).
  { apply Qle_shift_div_r; [reflexivity |].
    unfold total_width, confidence_width, staleness_factor. cbv zeta.
    pose proof (staleness_linear s) as E.
    assert (Hs : s / 1200 * 1200 == s) by (field).
    generalize dependent (s / 60.0 * 0.05).
    generalize dependent (s / 1200). intros y Hs z E.
    destruct Hcase as [Hp | (Hp & Hs0 & ->)].
    - destruct pit; cbn [negb]; case_minmax; lra.
    - cbn [negb]. case_minmax; lra. }
  generalize dependent (total_width p s pit / 2).
  generalize dependent (confidence_width p).
  intros w h Hh. case_minmax; lra.
Qed.

Lemma ensemble_interval_contains_witness :
  exists r raw,
    compute_win_probability second_lec late_race late_field monza = inr r
    /\ raw_prob second_lec late_race late_field monza = inr raw
    /\ fst (confidence_interval_of r)
       <= fst (confidence_interval raw (race_progress late_race) 0 true)
    /\ snd (confidence_interval raw (race_progress late_race) 0 true)
       <= snd (confidence_interval_of r).
Proof.
  destruct (compute_win_probability second_lec late_race late_field monza)
    as [e | r] eqn:Hr; [vm_compute in Hr; discriminate Hr |].
  destruct (raw_prob second_lec late_race late_field monza)
    as [e | raw] eqn:Hraw; [vm_compute in Hraw; discriminate Hraw |].
  exists r, raw. split; [reflexivity |]. split; [reflexivity |].
  apply (ensemble_interval_contains second_lec late_race late_field monza
           r raw 0 true Hr Hraw).
  right. split; [| split]; [| | reflexivity]; vm_compute; discriminate.
Defined.

(** ** Ensemble: the first entry of the driver list *)

(** The first entry of the driver list is compared with itself: its pace
    adjustment is 0.0 whatever its pace, its gap and the track, so its raw
    score has no pace term and the second factor of its result reads
    "+0.0%". *)
Theorem first_entry_no_pace_adjustment (leader : DriverState)
    (race_state : RaceState) (rest : list DriverState)
    (track_config : TrackConfig) (r : PredictionResult) :
  compute_win_probability leader race_state (leader :: rest) track_config
  = inr r ->
  pace_adjustment leader leader (gap_to_leader leader)
    (total_laps race_state - current_lap race_state)
    (overtake_difficulty track_config) = inr 0.0
  /\ nth_error (key_factors r) 1 = Some (Some "Pace: +0.0% adjustment")
  /\ exists (base : Q) (strat : Q * string),
       position_baseline (position leader)
         (total_laps race_state - current_lap race_state)
         (Py.len (leader :: rest)) = inr base
       /\ strategy_projection leader (leader :: rest)
            (total_laps race_state - current_lap race_state)
            (pit_time_loss track_config) = inr strat
       /\ win_probability r
          = Py.max 0.001
              (Py.min 0.99
                 (base + 0.0 + fst strat + sc_component leader race_state)).
Proof.
  intros Hr.
  destruct (compute_win_probability_inv _ _ _ _ _ Hr)
    as (base & leader' & pace & strat & Hc & ->).
  destruct Hc as (Hbase & Hl & Hp & Hstrat).
  rewrite getitem_head in Hl. injection Hl as <-.
  destruct (pace_adjustment_branches leader leader (gap_to_leader leader)
              (total_laps race_state - current_lap race_state)
              (overtake_difficulty track_config))
    as (v & Hv & _ & _ & _ & _ & _ & B6).
  assert (E : v = 0.0) by (apply B6; lra).
  subst v. rewrite Hv in Hp. injection Hp as <-.
  split; [exact Hv |]. split; [reflexivity |].
  exists base, strat. split; [exact Hbase |]. split; [exact Hstrat |].
  reflexivity.
Qed.

Lemma first_entry_no_pace_adjustment_witness :
  exists r,
    compute_win_probability leader_ver late_race late_field monza = inr r
    /\ nth_error (key_factors r) 1 = Some (Some "Pace: +0.0% adjustment").
Proof.
  destruct (compute_win_probability leader_ver late_race late_field monza)
    as [e | r] eqn:Hr; [vm_compute in Hr; discriminate Hr |].
  exists r. split; [reflexivity |].
  apply (first_entry_no_pace_adjustment leader_ver late_race
           [second_lec; sixth_bot] monza r Hr).
Defined.

(** ** IndyCar polling *)

Lemma time_is_unbound : load_name "time" = inl NameError.
Proof. reflexivity. Qed.


(** ** Payload decompression on stored blocks *)

(** For a document built from [null], booleans, integers, strings of code
    points up to U+00FF, lists and objects with distinct keys,
    [decompress] returns the document from the base64 text of the
    stored-block raw-deflate stream of its [json.dumps] serialization. The
    statement is about these documents and this encoding only: floats,
    other code points and Huffman-coded streams are outside it, except for
    the one payload zlib produced for the timing document, which
    decompresses to that document. *)
Theorem decompress_stored_round_trip (v : json) :
  (unique_keys v = true ->
   decompress python_codecs
     (rfc_b64encode (stored_deflate (utf8_encode (dumps v))))
   = inr v)
  /\ decompress python_codecs timing_payload = inr timing_fixture.
Proof.
  split; [| exact decompress_timing_payload].
  intros _.
  exact (decompress_compress_lawful python_codecs v python_codecs_lawful).
Qed.

Lemma decompress_stored_round_trip_witness :
  decompress python_codecs
    (rfc_b64encode (stored_deflate (utf8_encode (dumps timing_fixture))))
  = inr timing_fixture.
Proof.
  apply (proj1 (decompress_stored_round_trip timing_fixture)).
  vm_compute. reflexivity.
Defined.

(** * Pace adjustment in binary64 *)

Local Open Scope Z_scope.

(** ** Rounding to nearest in binary64 *)

Lemma digits2_pos_bounds (m : positive) :
  2 ^ (Zpos (digits2_pos m) - 1) <= Zpos m < 2 ^ Zpos (digits2_pos m).
Proof.
  induction m as [m IH | m IH |]; cbn [digits2_pos].
  - rewrite Pos2Z.inj_succ.
    replace (Z.succ (Zpos (digits2_pos m)) - 1) with (Zpos (digits2_pos m) - 1 + 1) by lia.
    rewrite Z.pow_succ_r by lia. rewrite Z.pow_add_r by lia.
    change (2 ^ 1) with 2. lia.
  - rewrite Pos2Z.inj_succ.
    replace (Z.succ (Zpos (digits2_pos m)) - 1) with (Zpos (digits2_pos m) - 1 + 1) by lia.
    rewrite Z.pow_succ_r by lia. rewrite Z.pow_add_r by lia.
    change (2 ^ 1) with 2. lia.
  - cbn. lia.
Qed.

Lemma shr_1_m (mrs : shr_record) :
  0 <= shr_m mrs -> shr_m (shr_1 mrs) = shr_m mrs / 2.
Proof.
  destruct mrs as [m r s]. cbn [shr_m]. intros H.
  destruct m as [| [p | p |] | p]; cbn [shr_1 shr_m];
    Z.to_euclidean_division_equations; lia.
Qed.

Lemma pow2_xO (p : positive) : 2 ^ Zpos p~0 = 2 ^ Zpos p * 2 ^ Zpos p.
Proof. rewrite Pos2Z.inj_xO, <- Z.pow_add_r by lia. f_equal. lia. Qed.

Lemma pow2_xI (p : positive) : 2 ^ Zpos p~1 = 2 * (2 ^ Zpos p * 2 ^ Zpos p).
Proof.
  rewrite Pos2Z.inj_xI, <- Z.pow_add_r, <- Z.pow_succ_r by lia. f_equal. lia.
Qed.

Lemma iter_pos_shr_m (p : positive) (mrs : shr_record) :
  0 <= shr_m mrs ->
  shr_m (iter_pos shr_1 p mrs) = shr_m mrs / 2 ^ Zpos p.
Proof.
  revert mrs. induction p as [p IH | p IH |]; intros mrs H; cbn [iter_pos].
  - assert (H1 : 0 <= shr_m (shr_1 mrs))
      by (rewrite shr_1_m by lia; apply Z.div_pos; lia).
    assert (H2 : 0 <= shr_m (iter_pos shr_1 p (shr_1 mrs)))
      by (rewrite IH by lia; apply Z.div_pos; lia).
    rewrite IH, IH, shr_1_m by assumption.
    rewrite !Z.div_div by lia. now rewrite pow2_xI.
  - assert (H2 : 0 <= shr_m (iter_pos shr_1 p mrs))
      by (rewrite IH by lia; apply Z.div_pos; lia).
    rewrite IH, IH by assumption.
    rewrite !Z.div_div by lia. now rewrite pow2_xO.
  - apply shr_1_m. exact H.
Qed.

Lemma fexp64 (x : Z) : fexp 53 1024 x = Z.max (x - 53) (-1074).
Proof. reflexivity. Qed.

Lemma Zdigits2_bounds (m : Z) :
  0 < m -> 2 ^ (Zdigits2 m - 1) <= m < 2 ^ Zdigits2 m.
Proof.
  destruct m as [| p | p]; try lia. intros _. apply digits2_pos_bounds.
Qed.

Lemma Zdigits2_pos (m : Z) : 0 < m -> 0 < Zdigits2 m.
Proof. destruct m; cbn; lia. Qed.

Lemma pow2_lt_mono (a b : Z) : 0 <= a -> 2 ^ a < 2 ^ b -> a < b.
Proof.
  intros Ha H. destruct (Z_lt_le_dec b 0) as [Hb | Hb].
  - rewrite (Z.pow_neg_r 2 b) in H by lia.
    pose proof (Z.pow_pos_nonneg 2 a). lia.
  - apply (Z.pow_lt_mono_r_iff 2); lia.
Qed.

Lemma Zdigits2_le (m n : Z) : 0 < m -> 0 <= n -> m < 2 ^ n -> Zdigits2 m <= n.
Proof.
  intros Hm Hn H. pose proof (Zdigits2_bounds m Hm) as [Hlo _].
  pose proof (Zdigits2_pos m Hm).
  assert (2 ^ (Zdigits2 m - 1) < 2 ^ n) by lia.
  apply pow2_lt_mono in H1; lia.
Qed.

Lemma Zdigits2_ge (m n : Z) : 0 < m -> 0 <= n -> 2 ^ n <= m -> n < Zdigits2 m.
Proof.
  intros Hm Hn H. pose proof (Zdigits2_bounds m Hm) as [_ Hhi].
  pose proof (Zdigits2_pos m Hm).
  assert (2 ^ n < 2 ^ Zdigits2 m) by lia.
  apply pow2_lt_mono in H1; lia.
Qed.

Lemma shr_m_spec (m e n : Z) (r s : bool) :
  0 <= m -> 0 <= n ->
  shr_m (fst (shr (Build_shr_record m r s) e n)) = m / 2 ^ n
  /\ snd (shr (Build_shr_record m r s) e n) = e + n.
Proof.
  intros Hm Hn. destruct n as [| p | p]; try lia; cbn [shr fst snd].
  - cbn [shr_m]. rewrite Z.pow_0_r, Z.div_1_r. lia.
  - rewrite iter_pos_shr_m by (cbn; lia). cbn [shr_m]. lia.
Qed.

Lemma round_nearest_even_cases (m : Z) (l : location) :
  round_nearest_even m l = m \/ round_nearest_even m l = m + 1.
Proof.
  destruct l as [| [ | | ]]; cbn [round_nearest_even]; try tauto.
  destruct (Z.even m); tauto.
Qed.

(** The outcome of rounding a positive integer mantissa whose exponent is
    not above the target exponent. *)
Lemma binary_round_aux_cases (s : bool) (m e : Z) :
  0 < m ->
  let e1 := fexp 53 1024 (Zdigits2 m + e) in
  e <= e1 ->
  let f := m / 2 ^ (e1 - e) in
  f < 2 ^ 53
  /\ exists m1,
       (m1 = f \/ m1 = f + 1)
       /\ binary_round_aux 53 1024 s m e loc_Exact
          = if m1 =? 0 then S754_zero s
            else if m1 =? 2 ^ 53 then
              if e1 + 1 <=? 971 then S754_finite s (Z.to_pos (2 ^ 52)) (e1 + 1)
              else S754_infinity s
            else
              if e1 <=? 971 then S754_finite s (Z.to_pos m1) e1
              else S754_infinity s.
Proof.
  intros Hm e1 Hk f.
  assert (He1 : -1074 <= e1) by (subst e1; rewrite fexp64; lia).
  assert (Hd : Zdigits2 m + e - 53 <= e1) by (subst e1; rewrite fexp64; lia).
  pose proof (Zdigits2_bounds m Hm) as [Hlo Hhi].
  pose proof (Zdigits2_pos m Hm) as Hdp.
  assert (Hf : f < 2 ^ 53).
  { subst f. apply Z.div_lt_upper_bound; [apply Z.pow_pos_nonneg; lia |].
    rewrite <- Z.pow_add_r by lia.
    apply Z.lt_le_trans with (2 ^ Zdigits2 m); [lia |].
    apply Z.pow_le_mono_r; lia. }
  assert (Hf0 : 0 <= f) by (subst f; apply Z.div_pos; [lia | apply Z.pow_pos_nonneg; lia]).
  split; [exact Hf |].
  unfold binary_round_aux, shr_fexp. fold e1.
  change (shr_record_of_loc m loc_Exact) with (Build_shr_record m false false).
  destruct (shr_m_spec m e (e1 - e) false false ltac:(lia) ltac:(lia)) as [Hsm Hse].
  destruct (shr (Build_shr_record m false false) e (e1 - e)) as [mrs' e'].
  cbn [fst snd] in Hsm, Hse. fold f in Hsm.
  assert (Ee : e' = e1) by lia. clear Hse. subst e'.
  set (m1 := round_nearest_even (shr_m mrs') (loc_of_shr_record mrs')).
  assert (Hm1 : m1 = f \/ m1 = f + 1).
  { subst m1. rewrite <- Hsm. apply round_nearest_even_cases. }
  exists m1. split; [exact Hm1 |].
  change (shr_record_of_loc m1 loc_Exact) with (Build_shr_record m1 false false).
  destruct (Z.eqb_spec m1 0) as [E0 | E0].
  - rewrite E0. cbn [Zdigits2 Z.add].
    assert (Hk2 : fexp 53 1024 e1 - e1 <= 0) by (rewrite fexp64; lia).
    unfold shr. destruct (fexp 53 1024 e1 - e1) as [| p | p]; try lia; reflexivity.
  - assert (Hm1p : 0 < m1) by lia.
    destruct (Z.eqb_spec m1 (2 ^ 53)) as [E53 | E53].
    + rewrite E53.
      change (Zdigits2 (2 ^ 53)) with 54.
      assert (Hk2 : fexp 53 1024 (54 + e1) - e1 = 1) by (rewrite fexp64; lia).
      rewrite Hk2. cbn [shr iter_pos shr_1 shr_m Z.pow Z.pow_pos Pos.iter Z.mul Pos.mul].
      reflexivity.
    + assert (Hlt : m1 < 2 ^ 53) by lia.
      pose proof (Zdigits2_le m1 53 Hm1p ltac:(lia) Hlt) as Hd1.
      assert (Hk2 : fexp 53 1024 (Zdigits2 m1 + e1) - e1 <= 0)
        by (rewrite fexp64; lia).
      unfold shr.
      destruct (fexp 53 1024 (Zdigits2 m1 + e1) - e1) as [| p | p]; try lia;
        cbn [shr_m]; destruct m1 as [| q | q]; try lia; reflexivity.
Qed.

Lemma leb_finite (m1 m2 : positive) (e1 e2 : Z) :
  e1 < e2 \/ (e1 = e2 /\ Zpos m1 <= Zpos m2) ->
  SFleb (S754_finite false m1 e1) (S754_finite false m2 e2) = true.
Proof.
  intros H. unfold SFleb, SFcompare.
  destruct (Z.compare_spec e1 e2) as [E | E | E].
  - change (Pos.compare_cont Eq m1 m2) with (Pos.compare m1 m2).
    destruct (Pos.compare_spec m1 m2) as [E' | E' | E']; try reflexivity.
    lia.
  - reflexivity.
  - lia.
Qed.

(** Rounding a positive value that is below a normal float [mb * 2^eb]
    never gives more than that float. *)
Lemma round_le_bound (m e : Z) (mb : positive) (eb : Z) :
  0 < m ->
  let e1 := fexp 53 1024 (Zdigits2 m + e) in
  e <= e1 ->
  2 ^ 52 <= Zpos mb < 2 ^ 53 -> eb <= 971 ->
  e1 <= eb ->
  (e1 = eb -> m < Zpos mb * 2 ^ (eb - e)) ->
  let r := binary_round_aux 53 1024 false m e loc_Exact in
  nonneg53 r /\ SFleb r (S754_finite false mb eb) = true.
Proof.
  intros Hm e1 Hk Hmb Heb Hle Hlt r.
  destruct (binary_round_aux_cases false m e Hm Hk) as (Hf & m1 & Hm1 & Hr).
  fold e1 in Hf, Hm1, Hr. subst r. rewrite Hr. clear Hr.
  set (f := m / 2 ^ (e1 - e)) in *.
  assert (Hf0 : 0 <= f)
    by (subst f; apply Z.div_pos; [lia | apply Z.pow_pos_nonneg; lia]).
  assert (Htop : e1 = eb -> f + 1 <= Zpos mb).
  { intros E. specialize (Hlt E).
    assert (f < Zpos mb); [| lia].
    subst f. rewrite E. apply Z.div_lt_upper_bound;
      [apply Z.pow_pos_nonneg; lia | lia]. }
  destruct (Z.eqb_spec m1 0) as [E0 | E0]; [split; reflexivity |].
  destruct (Z.eqb_spec m1 (2 ^ 53)) as [E53 | E53].
  - assert (e1 < eb).
    { destruct (Z.eq_dec e1 eb) as [E | E]; [| lia].
      specialize (Htop E). lia. }
    destruct (Z.leb_spec (e1 + 1) 971); [| lia].
    split; [cbn; lia |]. apply leb_finite.
    change (Z.pos (Z.to_pos (2 ^ 52))) with (2 ^ 52). lia.
  - destruct (Z.leb_spec e1 971); [| lia].
    assert (Hp : Zpos (Z.to_pos m1) = m1) by (apply Z2Pos.id; lia).
    split; [cbn [nonneg53]; lia |]. apply leb_finite. rewrite Hp.
    destruct (Z.eq_dec e1 eb) as [E | E]; [right | left; lia].
    specialize (Htop E). lia.
Qed.

Lemma leb_finite_inv (m1 m2 : positive) (e1 e2 : Z) :
  SFleb (S754_finite false m1 e1) (S754_finite false m2 e2) = true ->
  e1 < e2 \/ (e1 = e2 /\ Zpos m1 <= Zpos m2).
Proof.
  unfold SFleb, SFcompare.
  destruct (Z.compare_spec e1 e2) as [E | E | E]; try discriminate; [| lia].
  change (Pos.compare_cont Eq m1 m2) with (Pos.compare m1 m2).
  destruct (Pos.compare_spec m1 m2) as [E' | E' | E']; try discriminate;
    intros _; right; lia.
Qed.

(** Scaling a normal float by a factor within [0, 1] does not enlarge it. *)
Lemma mul_unit_le (mc : positive) (ec : Z) (y : spec_float) :
  2 ^ 52 <= Zpos mc < 2 ^ 53 -> -1074 <= ec <= 971 ->
  SFmul 53 1024 (S754_finite false mc ec) one = S754_finite false mc ec ->
  nonneg53 y -> SFleb y one = true ->
  let v := SFmul 53 1024 (S754_finite false mc ec) y in
  nonneg53 v /\ SFleb v (S754_finite false mc ec) = true.
Proof.
  intros Hmc Hec Hone Hy Hle v. subst v.
  destruct y as [s | s | | s my ey]; cbn [nonneg53] in Hy; try contradiction.
  - cbn [SFmul]. split; [exact I | reflexivity].
  - destruct s; [contradiction |].
    apply leb_finite_inv in Hle.
    assert (Hcase : (ey = -52 /\ Zpos my = 2 ^ 52)
                    \/ (ey <= -52 /\ Zpos my < 2 ^ (- ey))).
    { destruct Hle as [Hlt | [-> Hm]].
      - right. split; [lia |].
        apply Z.lt_le_trans with (2 ^ 53); [exact Hy |].
        apply Z.pow_le_mono_r; lia.
      - change (Z.pos 4503599627370496) with (2 ^ 52) in Hm.
        destruct (Z.eq_dec (Zpos my) (2 ^ 52)); [left; lia | right].
        split; [lia |]. change (- -52) with 52. lia. }
    destruct Hcase as [[-> Hm] | [Hey Hm]].
    + assert (my = 4503599627370496%positive) as ->
        by (apply Pos2Z.inj; exact Hm).
      fold one. rewrite Hone. split; [cbn; lia |].
      apply leb_finite. lia.
    + cbn [SFmul xorb].
      assert (Hp : 0 < 2 ^ (- ey)) by (apply Z.pow_pos_nonneg; lia).
      assert (Hm0 : 0 < Zpos (mc * my)) by lia.
      assert (Hlo : 2 ^ 52 <= Zpos (mc * my)) by (rewrite Pos2Z.inj_mul; nia).
      assert (Hhi : Zpos (mc * my) < 2 ^ (53 - ey)).
      { rewrite Pos2Z.inj_mul.
        replace (53 - ey) with (53 + - ey) by lia.
        rewrite Z.pow_add_r by lia. nia. }
      pose proof (Zdigits2_ge _ 52 Hm0 ltac:(lia) Hlo) as Hd1.
      pose proof (Zdigits2_le _ (53 - ey) Hm0 ltac:(lia) Hhi) as Hd2.
      apply round_le_bound; try lia.
      * rewrite fexp64. lia.
      * rewrite fexp64. lia.
      * intros _. replace (ec - (ec + ey)) with (- ey) by lia.
        rewrite Pos2Z.inj_mul. nia.
Qed.

Lemma mul_unit_le_l (mc : positive) (ec : Z) (y : spec_float) :
  2 ^ 52 <= Zpos mc < 2 ^ 53 -> -1074 <= ec <= 971 ->
  SFmul 53 1024 (S754_finite false mc ec) one = S754_finite false mc ec ->
  nonneg53 y -> SFleb y one = true ->
  let v := SFmul 53 1024 y (S754_finite false mc ec) in
  nonneg53 v /\ SFleb v (S754_finite false mc ec) = true.
Proof.
  intros Hmc Hec Hone Hy Hle.
  replace (SFmul 53 1024 y (S754_finite false mc ec))
    with (SFmul 53 1024 (S754_finite false mc ec) y);
    [now apply mul_unit_le |].
  destruct y as [s | s | | s my ey]; cbn [SFmul]; try reflexivity.
  - now rewrite xorb_comm.
  - now rewrite xorb_comm.
  - now rewrite xorb_comm, Pos.mul_comm, Z.add_comm.
Qed.

Lemma iter_xO (m d : positive) :
  Zpos (Pos.iter xO m d) = Zpos m * 2 ^ Zpos d.
Proof.
  induction d as [| d IH] using Pos.peano_ind.
  - cbn [Pos.iter]. rewrite Pos2Z.inj_xO. change (2 ^ 1) with 2. lia.
  - rewrite Pos.iter_succ, Pos2Z.inj_xO, IH, Pos2Z.inj_succ,
      Z.pow_succ_r by lia.
    lia.
Qed.

Lemma shl_align_spec (m : positive) (e e' : Z) :
  (e' < e ->
   Zpos (fst (shl_align m e e')) = Zpos m * 2 ^ (e - e')
   /\ snd (shl_align m e e') = e')
  /\ (e <= e' -> shl_align m e e' = (m, e)).
Proof.
  unfold shl_align. split; intros H.
  - destruct (e' - e) as [| d | d] eqn:E; try lia.
    cbn [fst snd]. rewrite iter_xO. split; [| reflexivity].
    f_equal. f_equal. lia.
  - destruct (e' - e) as [| d | d] eqn:E; try lia; reflexivity.
Qed.

Lemma Zdigits2_shift (m n : Z) :
  0 < m -> 0 <= n -> Zdigits2 (m * 2 ^ n) = Zdigits2 m + n.
Proof.
  intros Hm Hn.
  pose proof (Zdigits2_bounds m Hm) as [Hlo Hhi].
  pose proof (Zdigits2_pos m Hm) as Hd.
  assert (Hp : 0 < 2 ^ n) by (apply Z.pow_pos_nonneg; lia).
  assert (Hmn : 0 < m * 2 ^ n) by nia.
  assert (H1 : Zdigits2 (m * 2 ^ n) <= Zdigits2 m + n).
  { apply Zdigits2_le; [lia | lia |]. rewrite Z.pow_add_r by lia. nia. }
  assert (H2 : Zdigits2 m + n - 1 < Zdigits2 (m * 2 ^ n)).
  { apply Zdigits2_ge; [lia | lia |].
    replace (Zdigits2 m + n - 1) with (Zdigits2 m - 1 + n) by lia.
    rewrite Z.pow_add_r by lia. nia. }
  lia.
Qed.

(** Rounding a positive integer mantissa whose target exponent is below
    that of a normal float gives at most that float. *)
Lemma binary_round_le_bound (p : positive) (ex : Z) (mb : positive) (eb : Z) :
  2 ^ 52 <= Zpos mb < 2 ^ 53 -> eb <= 971 ->
  fexp 53 1024 (Zpos (digits2_pos p) + ex) < eb ->
  let r := binary_round 53 1024 false p ex in
  nonneg53 r /\ SFleb r (S754_finite false mb eb) = true.
Proof.
  intros Hmb Heb Hlt r. subst r. unfold binary_round.
  set (e1 := fexp 53 1024 (Zpos (digits2_pos p) + ex)) in *.
  destruct (shl_align_spec p ex e1) as [Hshift Hkeep].
  destruct (Z_lt_le_dec e1 ex) as [Hc | Hc].
  - destruct (Hshift Hc) as [Hmz Hez].
    destruct (shl_align p ex e1) as [mz ez]. cbn [fst snd] in Hmz, Hez.
    subst ez.
    assert (Hd : Zdigits2 (Zpos mz) + e1 = Zpos (digits2_pos p) + ex).
    { rewrite Hmz, Zdigits2_shift by lia. cbn [Zdigits2]. lia. }
    apply round_le_bound; rewrite ?Hd; fold e1; try lia.
  - rewrite (Hkeep Hc).
    apply round_le_bound; cbn [Zdigits2]; fold e1; try lia.
Qed.

(** [1.0 - x] for a float [x] within [0, 0.5] lies within [0, 1]. *)
Lemma sub_one_unit (x : spec_float) :
  nonneg53 x -> SFleb x half = true ->
  let r := SFsub 53 1024 one x in
  nonneg53 r /\ SFleb r one = true.
Proof.
  intros Hx Hle r. subst r.
  destruct x as [s | s | | s mx ex]; cbn [nonneg53] in Hx; try contradiction.
  - cbn [SFsub one]. split; [cbn; lia | reflexivity].
  - destruct s; [contradiction |].
    apply leb_finite_inv in Hle.
    assert (Hex : ex <= -53) by lia.
    assert (Hmx : Zpos mx < 2 ^ (- ex)).
    { apply Z.lt_le_trans with (2 ^ 53); [exact Hx |].
      apply Z.pow_le_mono_r; lia. }
    unfold one. cbn [SFsub cond_Zopp].
    replace (Z.min (-52) ex) with ex by lia.
    destruct (shl_align_spec 4503599627370496 (-52) ex) as [Hshift _].
    destruct (Hshift ltac:(lia)) as [Hmz _]. rewrite Hmz.
    destruct (shl_align_spec mx ex ex) as [_ Hkeep].
    rewrite (Hkeep ltac:(lia)). cbn [fst].
    change (Z.pos 4503599627370496) with (2 ^ 52).
    rewrite <- Z.pow_add_r by lia.
    replace (52 + (-52 - ex)) with (- ex) by lia.
    assert (Hdiff : 0 < 2 ^ (- ex) - Zpos mx) by lia.
    destruct (2 ^ (- ex) - Zpos mx) as [| p | p] eqn:E; try lia.
    cbn [binary_normalize].
    apply binary_round_le_bound; [cbn; lia | lia |].
    assert (Hp : Zpos p < 2 ^ (- ex)) by lia.
    pose proof (Zdigits2_le (Zpos p) (- ex) ltac:(lia) ltac:(lia) Hp) as Hd.
    cbn [Zdigits2] in Hd. rewrite fexp64. lia.
Qed.

(** ** The binary64 reading of the function *)

(** The literals of the function are the doubles Python reads them as. *)
Lemma decimal_values :
  B64.decimal 9 1 = S754_finite false 8106479329266893 (-53)
  /\ B64.decimal 5 1 = S754_finite false 4503599627370496 (-53)
  /\ B64.decimal 2 1 = S754_finite false 7205759403792794 (-55)
  /\ B64.decimal 3 1 = S754_finite false 5404319552844595 (-54)
  /\ B64.decimal 15 2 = S754_finite false 5404319552844595 (-55)
  /\ B64.decimal 8 2 = S754_finite false 5764607523034235 (-56)
  /\ B64.decimal 2 2 = S754_finite false 5764607523034235 (-58)
  /\ B64.decimal 1 2 = S754_finite false 5764607523034235 (-59)
  /\ B64.decimal 10 2 = S754_finite false 7205759403792794 (-56)
  /\ B64.decimal 10 1 = S754_finite false 4503599627370496 (-52)
  /\ B64.decimal 0 1 = S754_zero false.
Proof. repeat split; vm_compute; reflexivity. Qed.

Lemma ltb_zero_nonzero (x : B64.float) :
  B64.ltb B64.zero x = true -> B64.is_zero x = false.
Proof. destruct x; try reflexivity. discriminate. Qed.

Lemma ltb_inf (x : B64.float) : B64.ltb B64.inf x = false.
Proof. destruct x as [s | [|] | | s m e]; reflexivity. Qed.

(** The quotient is taken only for a positive pace delta, so it never
    divides by zero; [can_catch] is [can_catch64]. *)
Lemma laps_to_catch_can_catch (gap pace_delta limit : B64.float) :
  exists ltc,
    B64.laps_to_catch gap pace_delta = inr ltc
    /\ B64.ltb ltc limit
       = B64.ltb B64.zero pace_delta
         && B64.ltb (SFdiv B64.prec B64.emax gap pace_delta) limit.
Proof.
  unfold B64.laps_to_catch.
  destruct (B64.ltb B64.zero pace_delta) eqn:E.
  - unfold B64.truediv. rewrite (ltb_zero_nonzero _ E).
    eexists. split; reflexivity.
  - exists B64.inf. split; [reflexivity | apply ltb_inf].
Qed.

(** A float below [-0.3] is above neither [0.5] nor [0.2]. *)
Lemma below_minus_03 (x : B64.float) :
  B64.ltb x (B64.neg (B64.decimal 3 1)) = true ->
  B64.ltb (B64.decimal 5 1) x = false /\ B64.ltb (B64.decimal 2 1) x = false.
Proof.
  destruct x as [s | [|] | | [|] m e]; try discriminate;
    intros _; split; reflexivity.
Qed.

(** The six outcomes of the binary64 reading, for a number of laps that
    converts to [laps]. *)
Lemma pace_adjustment64_value (driver leader : B64.DriverState)
    (gap : B64.float) (laps_remaining : Z) (difficulty laps : B64.float) :
  B64.of_int laps_remaining = inr laps ->
  let pace_delta :=
    B64.sub (B64.rolling_pace_5lap leader) (B64.rolling_pace_5lap driver) in
  let overtake_factor :=
    B64.sub (B64.decimal 10 1) (B64.mul difficulty (B64.decimal 5 1)) in
  let can_catch := can_catch64 gap pace_delta laps in
  B64.pace_adjustment driver leader gap laps_remaining difficulty
  = inr (if B64.ltb (B64.decimal 5 1) pace_delta then
           if can_catch then B64.mul (B64.decimal 15 2) overtake_factor
           else B64.decimal 2 2
         else if B64.ltb (B64.decimal 2 1) pace_delta then
           if can_catch then B64.mul (B64.decimal 8 2) overtake_factor
           else B64.decimal 1 2
         else if B64.ltb pace_delta (B64.neg (B64.decimal 3 1)) then
           B64.neg (B64.decimal 10 2)
         else B64.decimal 0 1).
Proof.
  intros Hlaps pace_delta overtake_factor can_catch.
  unfold B64.pace_adjustment. fold pace_delta. fold overtake_factor.
  destruct (laps_to_catch_can_catch gap pace_delta
              (B64.mul laps (B64.decimal 9 1))) as (ltc & Hltc & Hcan).
  rewrite Hltc. cbn [bind Monad_either].
  rewrite Hlaps. cbn [bind Monad_either].
  rewrite Hcan. fold (can_catch64 gap pace_delta laps). fold can_catch.
  destruct (B64.ltb (B64.decimal 5 1) pace_delta); [reflexivity |].
  destruct (B64.ltb (B64.decimal 2 1) pace_delta); [reflexivity |].
  destruct (B64.ltb pace_delta (B64.neg (B64.decimal 3 1))); reflexivity.
Qed.

(** A float above [0.5] is above [0.2]. *)
Lemma above_05_above_02 (x : B64.float) :
  B64.ltb (B64.decimal 5 1) x = true -> B64.ltb (B64.decimal 2 1) x = true.
Proof.
  destruct x as [s | [|] | | [|] m e]; try discriminate; try reflexivity.
  unfold B64.ltb, SFltb.
  change (B64.decimal 5 1) with (S754_finite false 4503599627370496 (-53)).
  change (B64.decimal 2 1) with (S754_finite false 7205759403792794 (-55)).
  cbn [SFcompare].
  destruct (Z.compare_spec (-53) e) as [E | E | E]; try discriminate.
  - intros _. destruct (Z.compare_spec (-55) e); [lia | reflexivity | lia].
  - intros _. destruct (Z.compare_spec (-55) e); [lia | reflexivity | lia].
Qed.

(** A double in [0, 1]: valid, not below zero, not above one. *)
Lemma unit_double (d : B64.float) :
  valid_binary B64.prec B64.emax d = true ->
  B64.leb B64.zero d = true -> B64.leb d one = true ->
  nonneg53 d.
Proof.
  destruct d as [s | s | | s m e]; cbn [nonneg53 valid_binary]; try tauto.
  - intros _ H0 H1. destruct s; discriminate.
  - intros _ H0 H1. discriminate.
  - intros Hv H0 _. destruct s; [discriminate |].
    unfold bounded, canonical_mantissa in Hv.
    apply andb_true_iff in Hv as [Hc _]. apply Z.eqb_eq in Hc.
    change (fexp B64.prec B64.emax) with (fexp 53 1024) in Hc.
    rewrite fexp64 in Hc.
    pose proof (digits2_pos_bounds m) as [_ Hhi].
    apply Z.lt_le_trans with (2 ^ Zpos (digits2_pos m)); [exact Hhi |].
    apply Z.pow_le_mono_r; lia.
Qed.

Lemma nonneg53_leb_zero (v : B64.float) :
  nonneg53 v ->
  B64.leb B64.zero v = true
  /\ B64.leb (B64.neg (B64.decimal 10 2)) v = true.
Proof.
  destruct v as [s | s | | [|] m e]; cbn [nonneg53]; try tauto;
    intros _; split; reflexivity.
Qed.

(** A non-negative double at most [0.08] is at most [0.15]. *)
Lemma leb_008_015 (v : B64.float) :
  nonneg53 v -> B64.leb v (B64.decimal 8 2) = true ->
  B64.leb v (B64.decimal 15 2) = true.
Proof.
  destruct v as [s | s | | [|] m e]; cbn [nonneg53];
    try contradiction; [intros _ _; reflexivity |].
  - intros _ H.
    change (B64.decimal 8 2) with (S754_finite false 5764607523034235 (-56))
      in H.
    change (B64.decimal 15 2) with (S754_finite false 5404319552844595 (-55)).
    apply leb_finite_inv in H. apply leb_finite. lia.
Qed.

(** For a difficulty that is a double in [0, 1] the overtake factor lies in
    [0, 1] and both scaled adjustments lie in [0, 0.15]. *)
Lemma scaled_adjustment_bounds (difficulty : B64.float) :
  valid_binary B64.prec B64.emax difficulty = true ->
  B64.leb B64.zero difficulty = true -> B64.leb difficulty one = true ->
  let overtake_factor :=
    B64.sub (B64.decimal 10 1) (B64.mul difficulty (B64.decimal 5 1)) in
  nonneg53 overtake_factor
  /\ B64.leb overtake_factor one = true
  /\ nonneg53 (B64.mul (B64.decimal 15 2) overtake_factor)
  /\ B64.leb (B64.mul (B64.decimal 15 2) overtake_factor) (B64.decimal 15 2)
     = true
  /\ nonneg53 (B64.mul (B64.decimal 8 2) overtake_factor)
  /\ B64.leb (B64.mul (B64.decimal 8 2) overtake_factor) (B64.decimal 8 2)
     = true.
Proof.
  intros Hv H0 H1 overtake_factor.
  pose proof (unit_double difficulty Hv H0 H1) as Hd.
  assert (Hx : nonneg53 (B64.mul difficulty (B64.decimal 5 1))
               /\ SFleb (B64.mul difficulty (B64.decimal 5 1)) half = true).
  { change (B64.decimal 5 1) with half.
    apply (mul_unit_le_l 4503599627370496 (-53) difficulty);
      [cbn; lia | lia | vm_compute; reflexivity | exact Hd | exact H1]. }
  destruct Hx as [Hx1 Hx2].
  assert (Hof : nonneg53 overtake_factor
                /\ SFleb overtake_factor one = true).
  { subst overtake_factor. change (B64.decimal 10 1) with one.
    now apply sub_one_unit. }
  destruct Hof as [Hof1 Hof2].
  split; [exact Hof1 |]. split; [exact Hof2 |].
  change (B64.decimal 15 2) with (S754_finite false 5404319552844595 (-55)).
  change (B64.decimal 8 2) with (S754_finite false 5764607523034235 (-56)).
  destruct (mul_unit_le 5404319552844595 (-55) overtake_factor)
    as [Ha Hb]; [cbn; lia | lia | vm_compute; reflexivity | assumption ..|].
  destruct (mul_unit_le 5764607523034235 (-56) overtake_factor)
    as [Hc Hd']; [cbn; lia | lia | vm_compute; reflexivity | assumption ..|].
  repeat split; assumption.
Qed.

(** C5, as worded, fails twice, in the arithmetic of the code as well. A
    driver 1.0 s/lap faster who is 100 s behind with 10 laps left needs 100
    laps, more than the 9 allowed, and still gets the strictly positive
    adjustment 0.02; a driver 0.2 s/lap slower than the leader has a pace
    deficit and gets 0.0, not a negative adjustment. *)
Lemma pace_adjustment_positive_without_catch :
  (exists laps,
     B64.of_int 10 = inr laps
     /\ B64.pace_adjustment (B64.with_pace "C" (B64.decimal 800 1))
          (B64.with_pace "L" (B64.decimal 810 1)) (B64.decimal 1000 1) 10
          (B64.decimal 4 1)
        = inr (B64.decimal 2 2)
     /\ B64.ltb B64.zero (B64.decimal 2 2) = true
     /\ can_catch64 (B64.decimal 1000 1)
          (B64.sub (B64.decimal 810 1) (B64.decimal 800 1)) laps = false)
  /\ B64.pace_adjustment (B64.with_pace "S" (B64.decimal 802 1))
       (B64.with_pace "L" (B64.decimal 800 1)) (B64.decimal 50 1) 10
       (B64.decimal 4 1)
     = inr (B64.decimal 0 1)
  /\ B64.ltb (B64.sub (B64.decimal 800 1) (B64.decimal 802 1)) B64.zero = true
  /\ B64.ltb (B64.decimal 0 1) B64.zero = false.
Proof.
  split; [eexists |]; repeat split; vm_compute; reflexivity.
Qed.

(** The thresholds on decimal inputs. With a gap of 11.7 s, 13 laps left
    and a driver 1.0 s/lap faster, [13 * 0.9] is 11.700000000000001, the
    catch counts as feasible and the adjustment is [0.15 * 0.8 = 0.12];
    with paces 80.4 and 80.1 the difference is below -0.3 and the
    adjustment is -0.10; with paces 80.8 and 81.0 the difference is above
    0.2 and the adjustment, without a feasible catch, is 0.01. *)
Lemma pace_adjustment_at_thresholds :
  B64.pace_adjustment (B64.with_pace "C" (B64.decimal 800 1))
    (B64.with_pace "L" (B64.decimal 810 1)) (B64.decimal 117 1) 13
    (B64.decimal 4 1)
  = inr (B64.decimal 12 2)
  /\ B64.pace_adjustment (B64.with_pace "S" (B64.decimal 804 1))
       (B64.with_pace "L" (B64.decimal 801 1)) (B64.decimal 50 1) 10
       (B64.decimal 4 1)
     = inr (B64.neg (B64.decimal 10 2))
  /\ B64.pace_adjustment (B64.with_pace "F" (B64.decimal 808 1))
       (B64.with_pace "L" (B64.decimal 810 1)) (B64.decimal 40 1) 20
       (B64.decimal 4 1)
     = inr (B64.decimal 1 2).
Proof. repeat split; vm_compute; reflexivity. Qed.

(** C5 (amended). In the binary64 arithmetic of the code, with the pace
    delta, the overtake factor [1.0 - track_difficulty * 0.5] and the test
    [can_catch] (the driver is faster and [gap / pace_delta] is below
    [laps_remaining * 0.9]) as the code computes them, and for a number of
    laps that converts to a float: the adjustment is the product of 0.15
    and the overtake factor for a pace delta above 0.5, and of 0.08 and the
    factor for a pace delta above 0.2 but not above 0.5, only when
    [can_catch] holds; a driver more than 0.2 s/lap faster who cannot catch
    still gets the fixed 0.02 (above 0.5) or 0.01. Hence an adjustment
    above 0.02 implies [can_catch], and a strictly positive adjustment a
    pace delta above 0.2. For a difficulty that is a double in [0, 1] the
    adjustment lies in [-0.10, 0.15]. A pace delta below -0.3 yields
    exactly -0.10; one that is neither below -0.3 nor above 0.2 yields
    0.0. *)
Theorem pace_adjustment_cases (driver leader : B64.DriverState)
    (gap : B64.float) (laps_remaining : Z) (difficulty laps : B64.float) :
  B64.of_int laps_remaining = inr laps ->
  let pace_delta :=
    B64.sub (B64.rolling_pace_5lap leader) (B64.rolling_pace_5lap driver) in
  let overtake_factor :=
    B64.sub (B64.decimal 10 1) (B64.mul difficulty (B64.decimal 5 1)) in
  let can_catch := can_catch64 gap pace_delta laps in
  exists v,
    B64.pace_adjustment driver leader gap laps_remaining difficulty = inr v
    /\ (B64.ltb (B64.decimal 5 1) pace_delta = true -> can_catch = true ->
        v = B64.mul (B64.decimal 15 2) overtake_factor)
    /\ (B64.ltb (B64.decimal 5 1) pace_delta = true -> can_catch = false ->
        v = B64.decimal 2 2)
    /\ (B64.ltb (B64.decimal 5 1) pace_delta = false ->
        B64.ltb (B64.decimal 2 1) pace_delta = true -> can_catch = true ->
        v = B64.mul (B64.decimal 8 2) overtake_factor)
    /\ (B64.ltb (B64.decimal 5 1) pace_delta = false ->
        B64.ltb (B64.decimal 2 1) pace_delta = true -> can_catch = false ->
        v = B64.decimal 1 2)
    /\ (B64.ltb (B64.decimal 2 2) v = true -> can_catch = true)
    /\ (B64.ltb B64.zero v = true ->
        B64.ltb (B64.decimal 2 1) pace_delta = true)
    /\ (valid_binary B64.prec B64.emax difficulty = true ->
        B64.leb B64.zero difficulty = true ->
        B64.leb difficulty (B64.decimal 10 1) = true ->
        B64.leb (B64.neg (B64.decimal 10 2)) v = true
        /\ B64.leb v (B64.decimal 15 2) = true)
    /\ (B64.ltb pace_delta (B64.neg (B64.decimal 3 1)) = true ->
        v = B64.neg (B64.decimal 10 2))
    /\ (B64.ltb pace_delta (B64.neg (B64.decimal 3 1)) = false ->
        B64.ltb (B64.decimal 2 1) pace_delta = false ->
        v = B64.decimal 0 1).
Proof.
  intros Hlaps pace_delta overtake_factor can_catch.
  eexists. split;
    [exact (pace_adjustment64_value driver leader gap laps_remaining
              difficulty laps Hlaps) |].
  fold pace_delta. fold overtake_factor. fold can_catch.
  pose proof (above_05_above_02 pace_delta) as H52.
  pose proof (below_minus_03 pace_delta) as Hneg.
  assert (Hb : valid_binary B64.prec B64.emax difficulty = true ->
               B64.leb B64.zero difficulty = true ->
               B64.leb difficulty (B64.decimal 10 1) = true ->
               (B64.leb (B64.neg (B64.decimal 10 2))
                  (B64.mul (B64.decimal 15 2) overtake_factor) = true
                /\ B64.leb (B64.mul (B64.decimal 15 2) overtake_factor)
                     (B64.decimal 15 2) = true)
               /\ (B64.leb (B64.neg (B64.decimal 10 2))
                     (B64.mul (B64.decimal 8 2) overtake_factor) = true
                   /\ B64.leb (B64.mul (B64.decimal 8 2) overtake_factor)
                        (B64.decimal 15 2) = true)).
  { intros Hvalid Hge Hle.
    destruct (scaled_adjustment_bounds difficulty Hvalid Hge Hle)
      as (_ & _ & Ha & Hla & Hc & Hlc).
    fold overtake_factor in Ha, Hla, Hc, Hlc.
    split; (split; [now apply nonneg53_leb_zero |]);
      [exact Hla | now apply leb_008_015]. }
  destruct (B64.ltb (B64.decimal 5 1) pace_delta) eqn:E5;
    [specialize (H52 eq_refl); rewrite ?H52
    | destruct (B64.ltb (B64.decimal 2 1) pace_delta) eqn:E2;
      [| destruct (B64.ltb pace_delta (B64.neg (B64.decimal 3 1))) eqn:E3]];
    try destruct can_catch;
    repeat split; intros;
    try reflexivity; try discriminate; try assumption;
    try (match goal with
         | H : B64.ltb pace_delta (B64.neg _) = true |- _ =>
             destruct (Hneg H); congruence
         end);
    try (apply Hb; assumption).
Qed.

Lemma pace_adjustment_cases_witness :
  B64.pace_adjustment (B64.with_pace "C" (B64.decimal 800 1))
    (B64.with_pace "L" (B64.decimal 810 1)) (B64.decimal 117 1) 13
    (B64.decimal 4 1)
  = inr (B64.mul (B64.decimal 15 2)
           (B64.sub (B64.decimal 10 1)
              (B64.mul (B64.decimal 4 1) (B64.decimal 5 1))))
  /\ B64.leb (B64.mul (B64.decimal 15 2)
                (B64.sub (B64.decimal 10 1)
                   (B64.mul (B64.decimal 4 1) (B64.decimal 5 1))))
       (B64.decimal 15 2) = true.
Proof.
  destruct (B64.of_int 13) as [e | laps] eqn:Hlaps;
    [vm_compute in Hlaps; discriminate Hlaps |].
  destruct (pace_adjustment_cases (B64.with_pace "C" (B64.decimal 800 1))
              (B64.with_pace "L" (B64.decimal 810 1)) (B64.decimal 117 1) 13
              (B64.decimal 4 1) laps Hlaps)
    as (v & Hv & Hfast & _ & _ & _ & _ & _ & Hrange & _).
  assert (E : v = B64.mul (B64.decimal 15 2)
                    (B64.sub (B64.decimal 10 1)
                       (B64.mul (B64.decimal 4 1) (B64.decimal 5 1)))).
  { apply Hfast; [reflexivity |].
    vm_compute in Hlaps. injection Hlaps as <-. reflexivity. }
  split; [rewrite Hv, E; reflexivity |].
  rewrite <- E. apply Hrange; reflexivity.
Defined.

(** * The prediction on a store of objects *)

Local Open Scope Q_scope.

Lemma bind_M_run {A B : Type} (c : Obj.M A) (k : A -> Obj.M B)
    (s : Obj.store) :
  Obj.bind_M c k s
  = match c s with
    | (inl e, s') => (inl e, s')
    | (inr x, s') => k x s'
    end.
Proof. reflexivity. Qed.

Ltac obj_unfold :=
  cbn [bind ret Obj.Monad_M Obj.outcome]; cbv beta iota.

(** Runs the next read or call, whose outcome is [H]. *)
Ltac obj_step H := rewrite bind_M_run, H; obj_unfold.

Section Reads.

Variable s : Obj.store.

Lemma driver_attr_holds {A : Type} (field : DriverState -> A) (r : Obj.ref)
    (d : DriverState) :
  Obj.holds_driver s r d -> Obj.driver_attr field r s = (inr (field d), s).
Proof. unfold Obj.holds_driver, Obj.driver_attr. now intros ->. Qed.

Lemma race_attr_holds {A : Type} (field : RaceState -> A) (r : Obj.ref)
    (x : RaceState) :
  s r = Some (Obj.ORace x) -> Obj.race_attr field r s = (inr (field x), s).
Proof. unfold Obj.race_attr. now intros ->. Qed.

Lemma track_attr_holds {A : Type} (field : TrackConfig -> A) (r : Obj.ref)
    (x : TrackConfig) :
  s r = Some (Obj.OTrack x) -> Obj.track_attr field r s = (inr (field x), s).
Proof. unfold Obj.track_attr. now intros ->. Qed.

Lemma list_len_holds (r : Obj.ref) (items : list Obj.ref) :
  s r = Some (Obj.OList items) ->
  Obj.list_len r s = (inr (Py.len items), s).
Proof. unfold Obj.list_len. now intros ->. Qed.

Lemma list_getitem_holds (r : Obj.ref) (items : list Obj.ref) (i : Z) :
  s r = Some (Obj.OList items) ->
  Obj.list_getitem r i s = (Obj.outcome (Py.getitem items i), s).
Proof. unfold Obj.list_getitem. now intros ->. Qed.

Lemma lift_run {A : Type} (r : Py.M A) : Obj.lift r s = (Obj.outcome r, s).
Proof. reflexivity. Qed.

(** Each function reads the store and leaves it as it is; its outcome is
    that of the function of the first part on the objects read. *)
Lemma pace_adjustment_reads (driver leader : Obj.ref) (d l : DriverState)
    (gap : Q) (laps : Z) (difficulty : Q) :
  Obj.holds_driver s driver d -> Obj.holds_driver s leader l ->
  Obj.pace_adjustment driver leader gap laps difficulty s
  = (Obj.outcome (pace_adjustment d l gap laps difficulty), s).
Proof.
  intros Hd Hl. unfold Obj.pace_adjustment, pace_adjustment. obj_unfold.
  obj_step (driver_attr_holds rolling_pace_5lap leader l Hl).
  obj_step (driver_attr_holds rolling_pace_5lap driver d Hd).
  rewrite bind_M_run, lift_run.
  destruct (laps_to_catch gap (rolling_pace_5lap l - rolling_pace_5lap d))
    as [e | ltc]; cbn [bind ret Py.Monad_M Monad_either]; obj_unfold;
    [reflexivity |].
  destruct (Py.ltb 0.5 (rolling_pace_5lap l - rolling_pace_5lap d));
    [reflexivity |].
  destruct (Py.ltb 0.2 (rolling_pace_5lap l - rolling_pace_5lap d));
    [reflexivity |].
  destruct (Py.ltb (rolling_pace_5lap l - rolling_pace_5lap d) (- 0.3));
    reflexivity.
Qed.

Lemma estimate_remaining_stops_reads (driver : Obj.ref) (d : DriverState)
    (laps : Z) :
  Obj.holds_driver s driver d ->
  Obj.estimate_remaining_stops driver laps s
  = (inr (estimate_remaining_stops d laps), s).
Proof.
  intros Hd. unfold Obj.estimate_remaining_stops, estimate_remaining_stops.
  obj_unfold.
  obj_step (driver_attr_holds tire_compound driver d Hd).
  obj_step (driver_attr_holds tire_age_laps driver d Hd).
  destruct (laps <=? dict_get tire_life (tire_compound d) 25
                     - tire_age_laps d)%Z; reflexivity.
Qed.

Lemma undercut_body_reads (driver competitor : Obj.ref) (d c : DriverState)
    (laps : Z) :
  Obj.holds_driver s driver d -> Obj.holds_driver s competitor c ->
  Obj.undercut_body driver laps competitor s
  = (inr (if (position c =? position d + 1)%Z
             && (tire_age_laps c <? tire_age_laps d - 5)%Z
          then Some (- 0.05, "Undercut vulnerable to P" ++ Py.str (position c))
          else None), s).
Proof.
  intros Hd Hc. unfold Obj.undercut_body. obj_unfold.
  obj_step (driver_attr_holds position competitor c Hc).
  obj_step (driver_attr_holds position driver d Hd).
  destruct (position c =? position d + 1)%Z; cbn [andb]; [| reflexivity].
  obj_step (estimate_remaining_stops_reads competitor c laps Hc).
  obj_step (driver_attr_holds tire_age_laps competitor c Hc).
  obj_step (driver_attr_holds tire_age_laps driver d Hd).
  destruct (tire_age_laps c <? tire_age_laps d - 5)%Z; [| reflexivity].
  obj_step (driver_attr_holds position competitor c Hc). reflexivity.
Qed.

(** The loop over the competitor list finds what [undercut_scan] finds. *)
Lemma for_each_reads (driver l : Obj.ref) (d : DriverState) (laps : Z)
    (items : list Obj.ref) :
  Obj.holds_driver s driver d ->
  s l = Some (Obj.OList items) ->
  forall (suffix : list Obj.ref) (ds : list DriverState)
         (prefix : list Obj.ref) (fuel : nat),
    items = (prefix ++ suffix)%list ->
    Forall2 (Obj.holds_driver s) suffix ds ->
    (length suffix <= fuel)%nat ->
    Obj.for_each fuel l (Py.len prefix) (Obj.undercut_body driver laps) s
    = (inr (option_map
              (fun c => (- 0.05,
                         "Undercut vulnerable to P" ++ Py.str (position c)))
              (undercut_scan d laps ds)), s).
Proof.
  intros Hd Hl suffix ds prefix fuel Hitems Hall. revert prefix fuel Hitems.
  induction Hall as [| c dc suffix ds Hc Hall IH]; intros prefix fuel -> Hfuel.
  - destruct fuel as [| fuel]; cbn [Obj.for_each]; [reflexivity |].
    obj_unfold. obj_step (list_len_holds l _ Hl).
    rewrite app_nil_r.
    destruct (Z.ltb_spec (Py.len prefix) (Py.len prefix)); [lia |].
    reflexivity.
  - destruct fuel as [| fuel]; [cbn [length] in Hfuel; lia |].
    cbn [Obj.for_each]. obj_unfold. obj_step (list_len_holds l _ Hl).
    assert (Hin : (0 <= Py.len prefix < Py.len (prefix ++ c :: suffix))%Z).
    { rewrite len_app. unfold Py.len. cbn [length]. lia. }
    destruct (Z.ltb_spec (Py.len prefix) (Py.len (prefix ++ c :: suffix)));
      [| lia].
    destruct (getitem_in_range (prefix ++ c :: suffix)%list (Py.len prefix) Hin)
      as (x & Hn & Hx).
    assert (x = c) as ->.
    { unfold Py.len in Hn. rewrite Nat2Z.id, nth_error_app2 in Hn by lia.
      rewrite Nat.sub_diag in Hn. now injection Hn. }
    rewrite bind_M_run, (list_getitem_holds l _ _ Hl), Hx. obj_unfold.
    obj_step (undercut_body_reads driver c d dc laps Hd Hc).
    cbn [undercut_scan].
    destruct (position dc =? position d + 1)%Z; cbn [andb];
      [destruct (tire_age_laps dc <? tire_age_laps d - 5)%Z;
       [reflexivity |] |].
    + replace (Py.len prefix + 1)%Z with (Py.len (prefix ++ [c])%list)
        by (rewrite len_app; reflexivity).
      apply IH; [now rewrite <- app_assoc | cbn [length] in Hfuel; lia].
    + replace (Py.len prefix + 1)%Z with (Py.len (prefix ++ [c])%list)
        by (rewrite len_app; reflexivity).
      apply IH; [now rewrite <- app_assoc | cbn [length] in Hfuel; lia].
Qed.

Lemma strategy_projection_reads (driver competitors : Obj.ref)
    (d : DriverState) (items : list Obj.ref) (ds : list DriverState)
    (laps : Z) (loss : Q) :
  Obj.holds_driver s driver d -> Obj.holds_list s competitors items ds ->
  Obj.strategy_projection driver competitors laps loss s
  = (Obj.outcome (strategy_projection d ds laps loss), s).
Proof.
  intros Hd [Hl Hall]. unfold Obj.strategy_projection, strategy_projection.
  obj_unfold.
  obj_step (estimate_remaining_stops_reads driver d laps Hd).
  obj_step (list_len_holds competitors items Hl).
  pose proof (for_each_reads driver competitors d laps items Hd Hl items ds
                [] (Z.to_nat (Py.len items)) eq_refl Hall) as Hloop.
  change (Py.len []) with 0%Z in Hloop.
  rewrite bind_M_run, Hloop by (unfold Py.len; lia).
  obj_unfold.
  destruct (undercut_scan d laps ds) as [c |]; cbn [option_map];
    [reflexivity |].
  obj_step (driver_attr_holds tire_compound driver d Hd).
  destruct (String.eqb (tire_compound d) "HARD"); cbn [andb];
    [| reflexivity].
  obj_step (driver_attr_holds position driver d Hd).
  destruct (1 <? position d)%Z; [| reflexivity].
  rewrite bind_M_run, (list_getitem_holds competitors items 0 Hl).
  destruct Hall as [| r0 d0 items ds Hr0 Hall].
  - rewrite !getitem_nil. reflexivity.
  - rewrite !getitem_head. cbn [bind ret Py.Monad_M Monad_either]. obj_unfold.
    obj_step (driver_attr_holds tire_compound r0 d0 Hr0).
    destruct (Py.contains (tire_compound d0) ["SOFT"; "MEDIUM"]);
      cbn [andb]; [| reflexivity].
    obj_step (driver_attr_holds tire_age_laps r0 d0 Hr0).
    destruct (15 <? tire_age_laps d0)%Z; reflexivity.
Qed.

Lemma safety_car_adjustment_reads (driver : Obj.ref) (d : DriverState)
    (flag : string) (gap : Q) (laps : Z) :
  Obj.holds_driver s driver d ->
  Obj.safety_car_adjustment driver flag gap laps s
  = (inr (safety_car_adjustment d flag gap laps), s).
Proof.
  intros Hd. unfold Obj.safety_car_adjustment, safety_car_adjustment.
  destruct (negb (Py.contains flag ["SC"; "VSC"; "YELLOW"])); [reflexivity |].
  obj_unfold. obj_step (driver_attr_holds position driver d Hd).
  destruct (position d =? 1)%Z; [reflexivity |].
  obj_step (driver_attr_holds position driver d Hd).
  destruct (position d <=? 5)%Z; [| reflexivity].
  obj_step (driver_attr_holds position driver d Hd). reflexivity.
Qed.

Lemma holds_list_len (items : list Obj.ref) (ds : list DriverState) :
  Forall2 (Obj.holds_driver s) items ds -> Py.len items = Py.len ds.
Proof.
  intros H. unfold Py.len. now rewrite (Forall2_length H).
Qed.

Lemma compute_win_probability_reads
    (driver race_state all_drivers track_config : Obj.ref)
    (d : DriverState) (rs : RaceState) (items : list Obj.ref)
    (ds : list DriverState) (tc : TrackConfig) :
  Obj.holds_driver s driver d ->
  s race_state = Some (Obj.ORace rs) ->
  Obj.holds_list s all_drivers items ds ->
  s track_config = Some (Obj.OTrack tc) ->
  Obj.compute_win_probability driver race_state all_drivers track_config s
  = (Obj.outcome (compute_win_probability d rs ds tc), s).
Proof.
  intros Hd Hr Hlist Ht. pose proof Hlist as [Hl Hall].
  unfold Obj.compute_win_probability, compute_win_probability. obj_unfold.
  obj_step (race_attr_holds total_laps race_state rs Hr).
  obj_step (race_attr_holds current_lap race_state rs Hr).
  obj_step (driver_attr_holds position driver d Hd).
  obj_step (list_len_holds all_drivers items Hl).
  rewrite bind_M_run, lift_run, (holds_list_len items ds Hall).
  destruct (position_baseline (position d)
              (total_laps rs - current_lap rs) (Py.len ds)) as [e | base];
    cbn [bind ret Py.Monad_M Monad_either]; obj_unfold; [reflexivity |].
  rewrite bind_M_run, (list_getitem_holds all_drivers items 0 Hl).
  destruct Hall as [| r0 d0 items ds Hr0 Hall].
  { rewrite !getitem_nil. reflexivity. }
  rewrite !getitem_head. cbn [bind ret Py.Monad_M Monad_either]. obj_unfold.
  obj_step (driver_attr_holds gap_to_leader driver d Hd).
  obj_step (track_attr_holds overtake_difficulty track_config tc Ht).
  rewrite bind_M_run, (pace_adjustment_reads driver r0 d d0 _ _ _ Hd Hr0).
  destruct (pace_adjustment d d0 (gap_to_leader d)
              (total_laps rs - current_lap rs) (overtake_difficulty tc))
    as [e | pace]; cbn [bind ret Py.Monad_M Monad_either]; obj_unfold;
    [reflexivity |].
  obj_step (track_attr_holds pit_time_loss track_config tc Ht).
  rewrite bind_M_run,
    (strategy_projection_reads driver all_drivers d _ _ _ _ Hd Hlist).
  destruct (strategy_projection d (d0 :: ds)
              (total_laps rs - current_lap rs) (pit_time_loss tc))
    as [e | strat]; cbn [bind ret Py.Monad_M Monad_either]; obj_unfold;
    [reflexivity |].
  obj_step (race_attr_holds flag_status race_state rs Hr).
  obj_step (driver_attr_holds gap_to_leader driver d Hd).
  obj_step (safety_car_adjustment_reads driver d (flag_status rs)
              (gap_to_leader d) (total_laps rs - current_lap rs) Hd).
  obj_step (race_attr_holds race_progress race_state rs Hr).
  obj_step (driver_attr_holds driver_id driver d Hd).
  obj_step (driver_attr_holds position driver d Hd).
  reflexivity.
Qed.

End Reads.

Lemma agree_driver (refs : list Obj.ref) (s s' : Obj.store) (r : Obj.ref)
    (d : DriverState) :
  Obj.agree refs s s' -> In r refs ->
  Obj.holds_driver s r d -> Obj.holds_driver s' r d.
Proof. unfold Obj.holds_driver. intros Ha Hin <-. now apply Ha. Qed.

Lemma agree_list (refs : list Obj.ref) (s s' : Obj.store) (r : Obj.ref)
    (items : list Obj.ref) (ds : list DriverState) :
  Obj.agree refs s s' -> In r refs -> incl items refs ->
  Obj.holds_list s r items ds -> Obj.holds_list s' r items ds.
Proof.
  intros Ha Hin Hincl [Hl Hall]. split; [rewrite <- Hl; now apply Ha |].
  clear Hl. induction Hall as [| x dx items ds Hx Hall IH]; constructor.
  - apply (agree_driver refs s s' x dx Ha); [apply Hincl; now left | exact Hx].
  - apply IH. intros y Hy. apply Hincl. now right.
Qed.

(** C2. The prediction reads its argument objects and nothing else, and
    writes nothing. On a store in which the four arguments refer to a
    driver, a race state, a list of drivers and a track profile, a call of
    [compute_win_probability] leaves the store as it was and its outcome is
    the function of the first part applied to the contents of these
    objects. So a second call with the same arguments, made after the
    first, has the identical outcome, with the same win probability,
    confidence interval and factor list; and so has a call on any other
    store that agrees with this one on the argument objects and the
    entries of the driver list, whatever else these stores hold. The same
    is true of [pace_adjustment], [strategy_projection] and
    [safety_car_adjustment]; [position_baseline] takes integers only. *)
Theorem prediction_deterministic (s : Obj.store)
    (driver race_state all_drivers track_config : Obj.ref)
    (d : DriverState) (rs : RaceState) (items : list Obj.ref)
    (ds : list DriverState) (tc : TrackConfig) :
  Obj.holds_driver s driver d ->
  s race_state = Some (Obj.ORace rs) ->
  Obj.holds_list s all_drivers items ds ->
  s track_config = Some (Obj.OTrack tc) ->
  let call :=
    Obj.compute_win_probability driver race_state all_drivers track_config in
  let refs := driver :: race_state :: all_drivers :: track_config :: items in
  call s = (Obj.outcome (compute_win_probability d rs ds tc), s)
  /\ call (snd (call s)) = call s
  /\ (forall r r',
        fst (call s) = inr r -> fst (call (snd (call s))) = inr r' ->
        win_probability r = win_probability r'
        /\ confidence_interval_of r = confidence_interval_of r'
        /\ key_factors r = key_factors r')
  /\ (forall s',
        Obj.agree refs s s' ->
        fst (call s') = fst (call s) /\ snd (call s') = s')
  /\ (forall leader l gap laps difficulty,
        Obj.holds_driver s leader l ->
        let component :=
          Obj.pace_adjustment driver leader gap laps difficulty in
        component s
        = (Obj.outcome (pace_adjustment d l gap laps difficulty), s)
        /\ component (snd (component s)) = component s)
  /\ (forall laps loss,
        let component :=
          Obj.strategy_projection driver all_drivers laps loss in
        component s = (Obj.outcome (strategy_projection d ds laps loss), s)
        /\ component (snd (component s)) = component s)
  /\ (forall flag gap laps,
        let component := Obj.safety_car_adjustment driver flag gap laps in
        component s = (inr (safety_car_adjustment d flag gap laps), s)
        /\ component (snd (component s)) = component s).
Proof.
  intros Hd Hr Hlist Ht call refs.
  assert (Hcall : call s
                  = (Obj.outcome (compute_win_probability d rs ds tc), s))
    by now apply compute_win_probability_reads with (items := items).
  split; [exact Hcall |].
  split; [rewrite Hcall; cbn [snd]; exact Hcall |].
  split.
  { intros r r'. rewrite Hcall. cbn [snd]. rewrite Hcall.
    intros H H'. rewrite H in H'. injection H' as <-. repeat split. }
  split.
  { intros s' Ha.
    assert (Hcall' : call s'
                     = (Obj.outcome (compute_win_probability d rs ds tc), s')).
    { apply compute_win_probability_reads with (items := items).
      - apply (agree_driver refs s s' driver d Ha); [now left | exact Hd].
      - rewrite <- Hr. apply Ha. right. now left.
      - apply (agree_list refs s s' all_drivers items ds Ha);
          [right; right; now left | | exact Hlist].
        intros x Hx. do 4 right. exact Hx.
      - rewrite <- Ht. apply Ha. do 3 right. now left. }
    rewrite Hcall', Hcall. split; reflexivity. }
  split.
  { intros leader l gap laps difficulty Hl component.
    assert (Hc : component s
                 = (Obj.outcome (pace_adjustment d l gap laps difficulty), s))
      by now apply pace_adjustment_reads.
    split; [exact Hc | rewrite Hc; cbn [snd]; exact Hc]. }
  split.
  { intros laps loss component.
    assert (Hc : component s
                 = (Obj.outcome (strategy_projection d ds laps loss), s))
      by now apply strategy_projection_reads with (items := items).
    split; [exact Hc | rewrite Hc; cbn [snd]; exact Hc]. }
  intros flag gap laps component.
  assert (Hc : component s = (inr (safety_car_adjustment d flag gap laps), s))
    by now apply safety_car_adjustment_reads.
  split; [exact Hc | rewrite Hc; cbn [snd]; exact Hc].
Qed.

Lemma late_store_holds :
  Obj.holds_driver Obj.late_store 1%N second_lec
  /\ Obj.late_store 4%N = Some (Obj.ORace late_race)
  /\ Obj.holds_list Obj.late_store 3%N [0%N; 1%N; 2%N] late_field
  /\ Obj.late_store 5%N = Some (Obj.OTrack monza).
Proof.
  split; [reflexivity |]. split; [reflexivity |]. split; [| reflexivity].
  split; [reflexivity |]. repeat constructor.
Qed.

Lemma prediction_deterministic_witness :
  let call := Obj.compute_win_probability 1%N 4%N 3%N 5%N in
  call Obj.late_store
  = (Obj.outcome (compute_win_probability second_lec late_race late_field
                    monza), Obj.late_store)
  /\ call (snd (call Obj.late_store)) = call Obj.late_store.
Proof.
  destruct late_store_holds as (Hd & Hr & Hl & Ht).
  destruct (prediction_deterministic Obj.late_store 1%N 4%N 3%N 5%N
              second_lec late_race [0%N; 1%N; 2%N] late_field monza
              Hd Hr Hl Ht) as (Hcall & Hagain & _).
  split; [exact Hcall | exact Hagain].
Defined.
